(** * FolderChronicle: the sorting engine of [folderchronicle/core.py]

    A shallow embedding of [format_exception], [unique_destination_path],
    [SortOptions], [gather_files], [_backup_files] and [sort_files], over an
    explicit model of the part of the filesystem, of [pathlib], [os] and
    [shutil] that these functions use; and of the worker thread of the
    window, [App._worker_sort] of [folderchronicle/app.py], with the
    methods of the window it posts to the main loop.

    Modelling choices, all stated where they are made:
    - a Python [str] is a [string]; its characters are the code points
      0..255, which is enough for every literal of the source;
    - a path is the list of its segments below the root;
    - the filesystem is a tree of regular files and directories (no
      symbolic links, no special files); a node carries the two timestamps
      the code reads and a read-permission bit;
    - code that mutates the filesystem and may raise is a function from the
      filesystem to an outcome and the filesystem left behind;
    - the clock and the local time zone are fields of an environment. *)

From Stdlib Require Import List String Ascii ZArith Lia Bool Arith.
From Stdlib Require Import DecimalString DecimalNat.
Import ListNotations.
Open Scope string_scope.
Open Scope list_scope.

(** String concatenation, kept apart from the [++] of lists. *)
Infix "^^" := String.append (at level 60, right associativity).

(* ================================================================= *)
(** ** Python strings *)

Module PyStr.

(** [str(n)] for a non-negative integer. *)
Definition str_of_nat (n : nat) : string :=
  NilEmpty.string_of_uint (Nat.to_uint n).

Definition is_ascii_digit (c : ascii) : bool :=
  ((48 <=? nat_of_ascii c) && (nat_of_ascii c <=? 57))%nat.

(** [c.isdigit()] on the code points 0..255: the ten ASCII digits and the
    three superscript digits U+00B2, U+00B3, U+00B9. *)
Definition char_isdigit (c : ascii) : bool :=
  is_ascii_digit c
  || (nat_of_ascii c =? 178)%nat || (nat_of_ascii c =? 179)%nat
  || (nat_of_ascii c =? 185)%nat.

Fixpoint all_chars (f : ascii -> bool) (s : string) : bool :=
  match s with
  | EmptyString => true
  | String c s' => f c && all_chars f s'
  end.

(** [s.isdigit()]: non-empty and every character a digit. *)
Definition isdigit (s : string) : bool :=
  match s with
  | EmptyString => false
  | _ => all_chars char_isdigit s
  end.

(** The segment is made of ASCII digits only. *)
Definition ascii_digits (s : string) : bool := all_chars is_ascii_digit s.

(** [s.startswith(pre)]. *)
Definition startswith (s pre : string) : bool := String.prefix pre s.

(** [s.rfind('.')], [None] standing for -1. *)
Fixpoint rfind_dot (s : string) : option nat :=
  match s with
  | EmptyString => None
  | String c s' =>
      match rfind_dot s' with
      | Some i => Some (S i)
      | None => if Ascii.eqb c "." then Some 0 else None
      end
  end.

(** [format(n, "0<w>d")] for a non-negative [n]. *)
Fixpoint zeros (k : nat) : string :=
  match k with
  | 0 => EmptyString
  | S k' => String "0" (zeros k')
  end.

Definition zero_pad (w n : nat) : string :=
  let s := str_of_nat n in zeros (w - String.length s) ^^ s.

End PyStr.

(* ================================================================= *)
(** ** Pure paths ([pathlib.PurePath]) *)

Definition path := list string.

Module PurePath.

Definition name (p : path) : string := last p EmptyString.

Definition parent (p : path) : path := removelast p.

(** [p / s] for a single segment [s]. *)
Definition joinpath (p : path) (s : string) : path := p ++ [s].

(** The split of a name at its last dot, as [stem] and [suffix] make it:
    a dot counts when it is neither the first nor the last character. *)
Definition split_name (nm : string) : string * string :=
  match PyStr.rfind_dot nm with
  | Some i =>
      if ((0 <? i) && (i <? String.length nm - 1))%nat
      then (substring 0 i nm, substring i (String.length nm - i) nm)
      else (nm, EmptyString)
  | None => (nm, EmptyString)
  end.

Definition stem (p : path) : string := fst (split_name (name p)).
Definition suffix (p : path) : string := snd (split_name (name p)).

(** [p.relative_to(base)]: the segments of [p] below [base]; [None] stands
    for the [ValueError] raised when [base] is not a prefix of [p]. *)
Fixpoint relative_to (p base : path) {struct base} : option path :=
  match base with
  | [] => Some p
  | b :: base' =>
      match p with
      | [] => None
      | s :: p' => if String.eqb b s then relative_to p' base' else None
      end
  end.

(** [str(p)]. *)
Definition render (p : path) : string :=
  match p with
  | [] => "/"
  | _ => String.concat EmptyString (map (fun s => "/" ^^ s) p)
  end.

End PurePath.

Notation "p // s" := (PurePath.joinpath p s) (at level 40, left associativity).

(* ================================================================= *)
(** ** Exceptions *)

Inductive exn_kind : Type :=
  | FileNotFoundError
  | FileExistsError
  | NotADirectoryError
  | IsADirectoryError
  | PermissionError
  | OSError
  | SameFileError
  | ShutilError
  | ValueError
  | OverflowError.

Record exn : Type := mk_exn { kind : exn_kind; message : string }.

(** [type(e).__name__]. *)
Definition kind_name (k : exn_kind) : string :=
  match k with
  | FileNotFoundError => "FileNotFoundError"
  | FileExistsError => "FileExistsError"
  | NotADirectoryError => "NotADirectoryError"
  | IsADirectoryError => "IsADirectoryError"
  | PermissionError => "PermissionError"
  | OSError => "OSError"
  | SameFileError => "SameFileError"
  | ShutilError => "Error"
  | ValueError => "ValueError"
  | OverflowError => "OverflowError"
  end.

(** [isinstance(e, OSError)]. *)
Definition is_oserror (k : exn_kind) : bool :=
  match k with
  | ValueError | OverflowError => false
  | _ => true
  end.

Definition is_file_not_found (k : exn_kind) : bool :=
  match k with
  | FileNotFoundError => true
  | _ => false
  end.

(** [format_exception], core.py line 19. *)
Definition format_exception (e : exn) : string :=
  kind_name (kind e) ^^ ": " ^^ message e.

(** The text of an [OSError] that carries a file name. *)
Definition os_error (k : exn_kind) (errno : string) (p : path) : exn :=
  mk_exn k (errno ^^ ": '" ^^ PurePath.render p ^^ "'").

Definition enoent (p : path) : exn :=
  os_error FileNotFoundError "[Errno 2] No such file or directory" p.
Definition enotdir (p : path) : exn :=
  os_error NotADirectoryError "[Errno 20] Not a directory" p.
Definition eexist (p : path) : exn :=
  os_error FileExistsError "[Errno 17] File exists" p.
Definition eisdir (p : path) : exn :=
  os_error IsADirectoryError "[Errno 21] Is a directory" p.
Definition eacces (p : path) : exn :=
  os_error PermissionError "[Errno 13] Permission denied" p.

(** The text of an [OSError] that carries two file names, as those of
    [os.rename] do. *)
Definition os_error2 (k : exn_kind) (errno : string) (p q : path) : exn :=
  mk_exn k (errno ^^ ": '" ^^ PurePath.render p ^^ "' -> '"
              ^^ PurePath.render q ^^ "'").

(* ================================================================= *)
(** ** The filesystem *)

Record meta : Type := mk_meta {
  st_mtime : Z;
  st_ctime : Z;
  readable : bool
}.

#[warnings="-register-all"]
Inductive node : Type :=
  | File (m : meta) (data : string)
  | Dir (m : meta) (entries : list (string * node)).

Definition node_meta (n : node) : meta :=
  match n with
  | File m _ => m
  | Dir m _ => m
  end.

Module FS.

Fixpoint assoc (s : string) (es : list (string * node)) : option node :=
  match es with
  | [] => None
  | (s', n) :: es' => if String.eqb s s' then Some n else assoc s es'
  end.

Fixpoint remove (s : string) (es : list (string * node))
  : list (string * node) :=
  match es with
  | [] => []
  | (s', n) :: es' =>
      if String.eqb s s' then remove s es' else (s', n) :: remove s es'
  end.

(** Bind [s] to [v] in a directory listing, or unbind it. *)
Definition set_entry (s : string) (v : option node)
  (es : list (string * node)) : list (string * node) :=
  match v with
  | Some n => remove s es ++ [(s, n)]
  | None => remove s es
  end.

(** What resolving a path gives: the node, or the errno of the failure. *)
Inductive resolved : Type :=
  | Found (n : node)
  | NoEnt
  | NotDir.

Fixpoint resolve (t : node) (p : path) : resolved :=
  match p with
  | [] => Found t
  | s :: p' =>
      match t with
      | File _ _ => NotDir
      | Dir _ es =>
          match assoc s es with
          | Some c => resolve c p'
          | None => NoEnt
          end
      end
  end.

Definition lookup (t : node) (p : path) : option node :=
  match resolve t p with
  | Found n => Some n
  | _ => None
  end.

(** Replace what is at [p] by [v]; nothing changes unless the parent of [p]
    is a directory.  The root itself is never replaced. *)
Fixpoint set_at (p : path) (v : option node) (t : node) : node :=
  match p with
  | [] => t
  | s :: p' =>
      match t with
      | File _ _ => t
      | Dir m es =>
          match p' with
          | [] => Dir m (set_entry s v es)
          | _ =>
              match assoc s es with
              | Some c => Dir m (set_entry s (Some (set_at p' v c)) es)
              | None => t
              end
          end
      end
  end.

Definition exists_ (t : node) (p : path) : bool :=
  match lookup t p with
  | Some _ => true
  | None => false
  end.

Definition is_file (t : node) (p : path) : bool :=
  match lookup t p with
  | Some (File _ _) => true
  | _ => false
  end.

Definition is_dir (t : node) (p : path) : bool :=
  match lookup t p with
  | Some (Dir _ _) => true
  | _ => false
  end.

(** The number of entries of the directory at [p], 0 when there is none. *)
Definition entry_count (t : node) (p : path) : nat :=
  match lookup t p with
  | Some (Dir _ es) => List.length es
  | _ => 0
  end.

End FS.

(* ================================================================= *)
(** ** [unique_destination_path], core.py lines 23-35 *)

(** The candidate of round [i]: [parent / f"{stem} ({i}){suffix}"]. *)
Definition candidate (dest : path) (i : nat) : path :=
  PurePath.parent dest //
    (PurePath.stem dest ^^ " (" ^^ PyStr.str_of_nat i ^^ ")"
       ^^ PurePath.suffix dest).

(** The [while True] loop, started at [i], cut after [fuel] rounds. *)
Fixpoint probe (fs : node) (dest : path) (fuel i : nat) : option path :=
  match fuel with
  | 0 => None
  | S fuel' =>
      if negb (FS.exists_ fs (candidate dest i))
      then Some (candidate dest i)
      else probe fs dest fuel' (S i)
  end.

Definition unique_destination_path_fuel (fuel : nat) (fs : node)
  (dest : path) : option path :=
  if negb (FS.exists_ fs dest) then Some dest else probe fs dest fuel 1.

(** A number of rounds the loop cannot exceed: one more than the number of
    entries of the parent directory ([probe_enough] below). *)
Definition probe_bound (fs : node) (dest : path) : nat :=
  S (FS.entry_count fs (PurePath.parent dest)).

(** The function itself, run for that number of rounds; the loop has
    returned by then, so the [None] branch is never taken
    ([unique_destination_existing] below). *)
Definition unique_destination_path (fs : node) (dest : path) : path :=
  match unique_destination_path_fuel (probe_bound fs dest) fs dest with
  | Some p => p
  | None => dest
  end.

(* ================================================================= *)
(** ** Effects: a filesystem state with exceptions *)

Inductive Result (A : Type) : Type :=
  | Return (a : A)
  | Raise (e : exn).
Arguments Return {A} a.
Arguments Raise {A} e.

(** A computation reads and changes the filesystem and returns or raises;
    what it changed before raising stays changed. *)
Definition M (A : Type) : Type := node -> Result A * node.

Definition ret {A} (a : A) : M A := fun fs => (Return a, fs).
Definition raise {A} (e : exn) : M A := fun fs => (Raise e, fs).
Definition bind {A B} (m : M A) (k : A -> M B) : M B :=
  fun fs =>
    match m fs with
    | (Return a, fs') => k a fs'
    | (Raise e, fs') => (Raise e, fs')
    end.
Definition gets {A} (f : node -> A) : M A := fun fs => (Return (f fs), fs).

(** [try: m  except ... as e: h e]. *)
Definition try_except {A} (m : M A) (h : exn -> M A) : M A :=
  fun fs =>
    match m fs with
    | (Return a, fs') => (Return a, fs')
    | (Raise e, fs') => h e fs'
    end.

(** [try: m  except Exception as e: ...], the outcome handed to the
    continuation.  Every exception of the model is an [Exception]. *)
Definition attempt {A} (m : M A) : M (Result A) :=
  fun fs => let (r, fs') := m fs in (Return r, fs').

Notation "x <- m ;; k" := (bind m (fun x => k))
  (at level 61, m at next level, right associativity).
Notation "m ;;; k" := (bind m (fun _ => k))
  (at level 61, right associativity).

(* ================================================================= *)
(** ** The environment of a run *)

Record Env : Type := mk_env {
  (** the clock, as a timestamp; it stands still during a run *)
  now : Z;
  (** [datetime.now().strftime('%Y-%m-%d %H-%M-%S')] *)
  now_stamp : string;
  (** year and month of a timestamp in local time; [None] when the
      platform cannot convert it *)
  localtime : Z -> option (Z * Z)
}.

Record datetime : Type := mk_datetime { dt_year : Z; dt_month : Z }.

(** [datetime.fromtimestamp(ts)]: the conversion of the platform, then the
    range check of the [datetime] constructor (MINYEAR = 1, MAXYEAR = 9999). *)
Definition fromtimestamp (env : Env) (ts : Z) : M datetime :=
  match localtime env ts with
  | None =>
      raise (mk_exn OverflowError "timestamp out of range for platform time_t")
  | Some (y, m) =>
      if ((1 <=? y) && (y <=? 9999) && (1 <=? m) && (m <=? 12))%Z
      then ret (mk_datetime y m)
      else raise (mk_exn ValueError "year or month is out of range")
  end.

(* ================================================================= *)
(** ** [os], [pathlib] and [shutil] on the model *)

Definition path_eqb (p q : path) : bool :=
  if list_eq_dec string_dec p q then true else false.

Module Os.

Import FS.

Definition resolve_error (fs : node) (p : path) : exn :=
  match resolve fs p with
  | NotDir => enotdir p
  | _ => enoent p
  end.

(** [p.stat()]. *)
Definition stat (p : path) : M meta :=
  fun fs =>
    match resolve fs p with
    | Found n => (Return (node_meta n), fs)
    | _ => (Raise (resolve_error fs p), fs)
    end.

(** A directory or file made at the time of the run. *)
Definition fresh_meta (env : Env) : meta := mk_meta (now env) (now env) true.

(** [os.mkdir(p)]. *)
Definition mkdir (env : Env) (p : path) : M unit :=
  fun fs =>
    match resolve fs p with
    | Found _ => (Raise (eexist p), fs)
    | NotDir => (Raise (enotdir p), fs)
    | NoEnt =>
        if is_dir fs (PurePath.parent p)
        then (Return tt, set_at p (Some (Dir (fresh_meta env) [])) fs)
        else (Raise (enoent p), fs)
    end.

(** [os.unlink(p)]. *)
Definition unlink (p : path) : M unit :=
  fun fs =>
    match resolve fs p with
    | Found (File _ _) => (Return tt, set_at p None fs)
    | Found (Dir _ _) => (Raise (eisdir p), fs)
    | _ => (Raise (resolve_error fs p), fs)
    end.

(** The errors of [os.rename], which name both paths. *)
Definition rename_error (fs : node) (src dst : path) : exn :=
  match resolve fs src with
  | NotDir => os_error2 NotADirectoryError "[Errno 20] Not a directory" src dst
  | _ =>
      os_error2 FileNotFoundError "[Errno 2] No such file or directory"
        src dst
  end.

(** [os.rename(src, dst)], POSIX: a directory does not go below itself, a
    file does not replace a directory nor a directory a file or a
    directory with entries. *)
Definition rename (src dst : path) : M unit :=
  fun fs =>
    match resolve fs src with
    | Found n =>
        if path_eqb src dst then (Return tt, fs)
        else
          match n, PurePath.relative_to dst src with
          | Dir _ _, Some _ =>
              (Raise (os_error2 OSError "[Errno 22] Invalid argument"
                        src dst), fs)
          | _, _ =>
              match resolve fs dst with
              | NotDir =>
                  (Raise (os_error2 NotADirectoryError
                            "[Errno 20] Not a directory" src dst), fs)
              | Found d =>
                  match n, d with
                  | File _ _, Dir _ _ =>
                      (Raise (os_error2 IsADirectoryError
                                "[Errno 21] Is a directory" src dst), fs)
                  | Dir _ _, File _ _ =>
                      (Raise (os_error2 NotADirectoryError
                                "[Errno 20] Not a directory" src dst), fs)
                  | Dir _ _, Dir _ (_ :: _) =>
                      (Raise (os_error2 OSError
                                "[Errno 39] Directory not empty" src dst), fs)
                  | _, _ =>
                      (Return tt, set_at dst (Some n) (set_at src None fs))
                  end
              | NoEnt =>
                  if is_dir fs (PurePath.parent dst)
                  then (Return tt, set_at dst (Some n) (set_at src None fs))
                  else
                    (Raise (os_error2 FileNotFoundError
                              "[Errno 2] No such file or directory"
                              src dst), fs)
              end
          end
    | _ => (Raise (rename_error fs src dst), fs)
    end.

(** [p.iterdir()], consumed at once. *)
Definition iterdir (p : path) : M (list path) :=
  fun fs =>
    match resolve fs p with
    | Found (Dir m es) =>
        if readable m
        then (Return (map (fun e => p // fst e) es), fs)
        else (Raise (eacces p), fs)
    | Found (File _ _) => (Raise (enotdir p), fs)
    | _ => (Raise (resolve_error fs p), fs)
    end.

Definition is_dir_node (n : node) : bool :=
  match n with
  | Dir _ _ => true
  | File _ _ => false
  end.

Definition dir_names (es : list (string * node)) : list string :=
  map fst (filter (fun e => is_dir_node (snd e)) es).

Definition file_names (es : list (string * node)) : list string :=
  map fst (filter (fun e => negb (is_dir_node (snd e))) es).

(** [os.walk(top)], top-down, [onerror=None]: a directory that cannot be
    listed is skipped in silence.  Between the yield of a directory and the
    descent into it the caller may edit [dirs] in place; the only edit of
    the source is a filter on the names, given here as [keep].  The tree is
    walked depth-first, each directory before its subdirectories. *)
Fixpoint walk_node (keep : string -> bool) (root : path) (n : node)
  : list (path * list string * list string) :=
  match n with
  | File _ _ => []
  | Dir m es =>
      if readable m then
        (root, filter keep (dir_names es), file_names es)
        :: (fix descend (l : list (string * node)) :=
              match l with
              | [] => []
              | (s, c) :: l' =>
                  (if is_dir_node c && keep s
                   then walk_node keep (root // s) c
                   else [])
                  ++ descend l'
              end) es
      else []
  end.

Definition walk (keep : string -> bool) (fs : node) (top : path)
  : list (path * list string * list string) :=
  match lookup fs top with
  | Some n => walk_node keep top n
  | None => []
  end.

End Os.

Module Pathlib.

Import FS.

(** [p.mkdir(parents=False, exist_ok=exist_ok)]. *)
Definition mkdir_one (env : Env) (exist_ok : bool) (p : path) : M unit :=
  try_except (Os.mkdir env p)
    (fun e =>
       if is_file_not_found (kind e) then raise e
       else if is_oserror (kind e) then
         d <- gets (fun fs => is_dir fs p) ;;
         if negb exist_ok || negb d then raise e else ret tt
       else raise e).

(** [p.mkdir(parents=True, exist_ok=exist_ok)], [p] given by its segments
    in reverse, so that the call on [p.parent] is structural. *)
Fixpoint mkdir_parents_rev (env : Env) (exist_ok : bool) (rp : list string)
  : M unit :=
  try_except (Os.mkdir env (rev rp))
    (fun e =>
       if is_file_not_found (kind e) then
         match rp with
         | [] => raise e
         | _ :: rp' =>
             mkdir_parents_rev env true rp' ;;;
             mkdir_one env exist_ok (rev rp)
         end
       else if is_oserror (kind e) then
         d <- gets (fun fs => is_dir fs (rev rp)) ;;
         if negb exist_ok || negb d then raise e else ret tt
       else raise e).

(** [p.mkdir(parents=True, exist_ok=True)]. *)
Definition mkdir_p (env : Env) (p : path) : M unit :=
  mkdir_parents_rev env true (rev p).

End Pathlib.

Module Shutil.

Import FS.

(** The metadata [copystat] gives the copy: modification time and mode of
    the source; the change time is that of the copy. *)
Definition copied_meta (env : Env) (m : meta) : meta :=
  mk_meta (st_mtime m) (now env) (readable m).

(** [shutil.copy2(src, dst)]. *)
Definition copy2 (env : Env) (src dst : path) : M unit :=
  fun fs =>
    let dst := if is_dir fs dst then dst // PurePath.name src else dst in
    if path_eqb src dst && exists_ fs src then
      (Raise (mk_exn SameFileError
                ("PosixPath('" ^^ PurePath.render src ^^ "') and PosixPath('"
                   ^^ PurePath.render dst ^^ "') are the same file")), fs)
    else
      match resolve fs src with
      | Found (File m d) =>
          if negb (readable m) then (Raise (eacces src), fs)
          else
            match resolve fs dst with
            | Found (Dir _ _) => (Raise (eisdir dst), fs)
            | Found (File _ _) =>
                (Return tt, set_at dst (Some (File (copied_meta env m) d)) fs)
            | NotDir => (Raise (enotdir dst), fs)
            | NoEnt =>
                if is_dir fs (PurePath.parent dst)
                then (Return tt,
                      set_at dst (Some (File (copied_meta env m) d)) fs)
                else (Raise (enoent dst), fs)
            end
      | Found (Dir _ _) => (Raise (eisdir src), fs)
      | _ => (Raise (Os.resolve_error fs src), fs)
      end.

(** [os.rename], and for a source that is not a directory the fall-back of
    [shutil.move] to copy and unlink.  The [copytree] fall-back for a
    directory source is not modelled (the error of the rename is raised):
    [sort_files] passes paths that were regular files when scanned. *)
Definition rename_or_copy (env : Env) (src real_dst : path) : M unit :=
  try_except (Os.rename src real_dst)
    (fun e =>
       if is_oserror (kind e) then
         d <- gets (fun fs => is_dir fs src) ;;
         if d then raise e
         else copy2 env src real_dst ;;; Os.unlink src
       else raise e).

(** [shutil.move(src, dst)]. *)
Definition move (env : Env) (src dst : path) : M unit :=
  d <- gets (fun fs => is_dir fs dst) ;;
  if d then
    if path_eqb src dst then Os.rename src dst
    else
      let real_dst := dst // PurePath.name src in
      ex <- gets (fun fs => exists_ fs real_dst) ;;
      if ex then
        raise (mk_exn ShutilError
                 ("Destination path '" ^^ PurePath.render real_dst
                    ^^ "' already exists"))
      else rename_or_copy env src real_dst
  else rename_or_copy env src dst.

End Shutil.

(* ================================================================= *)
(** ** [SortOptions], core.py lines 38-43 *)

Record SortOptions : Type := mk_options {
  base_dir : path;
  include_subdirs : bool;
  use_ctime : bool;
  copy_no_backup : bool
}.

(* ================================================================= *)
(** ** [gather_files], core.py lines 46-78 *)

Definition backup_prefix : string := "FolderChronicle Backup".

(** The filter of line 56. *)
Definition keep_dir (d : string) : bool :=
  negb (PyStr.startswith d backup_prefix).

(** The test of lines 67-73 on the parts of the relative path. *)
Definition under_year_month (parts : list string) : bool :=
  (3 <=? List.length parts)%nat
  && (String.length (nth 0 parts EmptyString) =? 4)%nat
  && PyStr.isdigit (nth 0 parts EmptyString)
  && (String.length (nth 1 parts EmptyString) =? 2)%nat
  && PyStr.isdigit (nth 1 parts EmptyString).

(** Lines 59-75 for one file name of one walked directory: what is
    appended to [gathered]. *)
Definition gather_one (base : path) (root : path) (name : string)
  : list path :=
  let p := root // name in
  match PurePath.relative_to p base with
  | None => [p]
  | Some rel => if under_year_month rel then [] else [p]
  end.

Definition gathered (base : path) (fs : node) : list path :=
  flat_map
    (fun '(root, _, files_) => flat_map (gather_one base root) files_)
    (Os.walk keep_dir fs base).

Definition gather_files (base : path) (recursive : bool) : M (list path) :=
  if recursive then
    gets (fun fs => filter (FS.is_file fs) (gathered base fs))
  else
    ps <- Os.iterdir base ;;
    gets (fun fs => filter (FS.is_file fs) ps).

(* ================================================================= *)
(** ** [_backup_files], core.py lines 81-103 *)

Definition backup_root (env : Env) (base : path) : path :=
  base // (backup_prefix ^^ " " ^^ now_stamp env).

(** The body of the [try] of lines 93-99. *)
Definition backup_one (env : Env) (base : path) (src : path) : M unit :=
  let rel :=
    match PurePath.relative_to src base with
    | Some r => r
    | None => [PurePath.name src]
    end in
  let dest_backup := backup_root env base ++ rel in
  Pathlib.mkdir_p env (PurePath.parent dest_backup) ;;;
  Shutil.copy2 env src dest_backup.

Fixpoint backup_loop (env : Env) (base : path) (files : list path)
  (errors : nat) (logs : list string) : M (nat * list string) :=
  match files with
  | [] => ret (errors, logs)
  | src :: rest =>
      r <- attempt (backup_one env base src) ;;
      match r with
      | Return _ => backup_loop env base rest errors logs
      | Raise e =>
          backup_loop env base rest (S errors)
            (logs ++ ["Backup error " ^^ PurePath.render src ^^ ": "
                        ^^ format_exception e])
      end
  end.

Definition _backup_files (env : Env) (files : list path) (base : path)
  : M (nat * list string) :=
  backup_loop env base files 0 [].

(* ================================================================= *)
(** ** [sort_files], core.py lines 106-149 *)

Definition year_str (dt : datetime) : string :=
  PyStr.zero_pad 4 (Z.to_nat (dt_year dt)).
Definition month_str (dt : datetime) : string :=
  PyStr.zero_pad 2 (Z.to_nat (dt_month dt)).

Definition chosen_time (options : SortOptions) (st : meta) : Z :=
  if use_ctime options then st_ctime st else st_mtime st.

Definition dest_dir_of (options : SortOptions) (dt : datetime) : path :=
  base_dir options // year_str dt // month_str dt.

(** Lines 138-143: the copy or the move, and the line it logs. *)
Definition transfer (env : Env) (options : SortOptions) (dt : datetime)
  (src dest : path) : M string :=
  if copy_no_backup options then
    Shutil.copy2 env src dest ;;;
    ret ("Copied: " ^^ PurePath.name src ^^ " -> " ^^ year_str dt ^^ "/"
           ^^ month_str dt ^^ "/")
  else
    Shutil.move env src dest ;;;
    ret ("Moved: " ^^ PurePath.name src ^^ " -> " ^^ year_str dt ^^ "/"
           ^^ month_str dt ^^ "/").

(** The body of the [try] of lines 128-144; it returns the line to log. *)
Definition relocate_one (env : Env) (options : SortOptions) (src : path)
  : M string :=
  st <- Os.stat src ;;
  dt <- fromtimestamp env (chosen_time options st) ;;
  let dest_dir := dest_dir_of options dt in
  Pathlib.mkdir_p env dest_dir ;;;
  dest <- gets (fun fs =>
                  unique_destination_path fs (dest_dir // PurePath.name src)) ;;
  transfer env options dt src dest.

Definition error_line (src : path) (e : exn) : string :=
  "Error moving " ^^ PurePath.name src ^^ ": " ^^ format_exception e.

(** The counters and the log of a run: [moved], [errors], [logs]. *)
Definition tally : Type := nat * nat * list string.

(** One round of the loop of lines 126-147. *)
Definition relocate_step (env : Env) (options : SortOptions) (acc : tally)
  (src : path) : M tally :=
  let '(moved, errors, logs) := acc in
  r <- attempt (relocate_one env options src) ;;
  match r with
  | Return line => ret (S moved, errors, logs ++ [line])
  | Raise e => ret (moved, S errors, logs ++ [error_line src e])
  end.

Fixpoint relocate_loop (env : Env) (options : SortOptions)
  (files : list path) (acc : tally) : M tally :=
  match files with
  | [] => ret acc
  | src :: rest =>
      acc' <- relocate_step env options acc src ;;
      relocate_loop env options rest acc'
  end.

Definition no_files_line : string := "No files found.".

(** Lines 120-124: the backup when moving; what it adds to [errors] and
    to [logs]. *)
Definition backup_phase (env : Env) (options : SortOptions)
  (files : list path) : M (nat * list string) :=
  if negb (copy_no_backup options)
  then _backup_files env files (base_dir options)
  else ret (0, []).

Definition sort_files (env : Env) (options : SortOptions) : M tally :=
  let base := base_dir options in
  files <- gather_files base (include_subdirs options) ;;
  match files with
  | [] => ret (0, 0, [no_files_line])
  | _ =>
      bk <- backup_phase env options files ;;
      relocate_loop env options files (0, 0 + fst bk, [] ++ snd bk)
  end.

(* ================================================================= *)
(** ** The worker of the window, [folderchronicle/app.py] *)

Definition APP_TITLE : string := "FolderChronicle".

(** A call the worker thread hands to the main loop with [_post]: a method
    of the window, a message box, a widget state or an attribute. *)
Inductive call : Type :=
  | Set_status (text : string)
  | Set_progress (total value : nat)
  | Log (message : string)
  | Showerror (title message : string)
  | Showinfo (title message : string)
  | Showwarning (title message : string)
  | Sort_btn_state (spec : list string)
  | Path_entry_state (spec : list string)
  | Setattr_working (value : bool).

(** A job of the worker thread: it reads and changes the filesystem, adds
    calls to the queue of the main loop, and returns or raises. *)
Definition Job (A : Type) : Type :=
  list call -> node -> Result A * list call * node.

Definition job_ret {A} (a : A) : Job A := fun q fs => (Return a, q, fs).

Definition job_bind {A B} (j : Job A) (k : A -> Job B) : Job B :=
  fun q fs =>
    match j q fs with
    | (Return a, q', fs') => k a q' fs'
    | (Raise e, q', fs') => (Raise e, q', fs')
    end.

(** [self._post(func, *args)]: the call joins the queue. *)
Definition _post (c : call) : Job unit := fun q fs => (Return tt, q ++ [c], fs).

(** A computation on the filesystem, run by the worker. *)
Definition job_lift {A} (m : M A) : Job A :=
  fun q fs => let (r, fs') := m fs in (r, q, fs').

(** [try: j  except Exception as e: ...], the outcome handed on. *)
Definition job_attempt {A} (j : Job A) : Job (Result A) :=
  fun q fs => let '(r, q', fs') := j q fs in (Return r, q', fs').

(** [try: j  finally: f]. *)
Definition job_finally {A} (j : Job A) (f : Job unit) : Job A :=
  fun q fs =>
    let '(r, q1, fs1) := j q fs in
    match f q1 fs1 with
    | (Return _, q2, fs2) => (r, q2, fs2)
    | (Raise e, q2, fs2) => (Raise e, q2, fs2)
    end.

Notation "x <~ j ;; k" := (job_bind j (fun x => k))
  (at level 61, j at next level, right associativity).
Notation "j ;;~ k" := (job_bind j (fun _ => k))
  (at level 61, right associativity).

(** [for x in xs: body x]. *)
Fixpoint job_for {A} (xs : list A) (body : A -> Job unit) : Job unit :=
  match xs with
  | [] => job_ret tt
  | x :: xs' => body x ;;~ job_for xs' body
  end.

(** [enumerate(xs, start)]. *)
Fixpoint enumerate {A} (xs : list A) (start : nat) : list (nat * A) :=
  match xs with
  | [] => []
  | x :: xs' => (start, x) :: enumerate xs' (S start)
  end.

(** The text of the summary, lines 204-205. *)
Definition summary_of (copy_no_backup : bool) (moved errors : nat) : string :=
  "Done. " ^^ (if copy_no_backup then "Copied" else "Moved") ^^ " "
    ^^ PyStr.str_of_nat moved ^^ " file(s). Errors: "
    ^^ PyStr.str_of_nat errors ^^ ".".

(** The body of the [try] of [_worker_sort], lines 161-211. *)
Definition worker_body (env : Env) (base_dir : path)
  (include_subdirs use_ctime copy_no_backup : bool) : Job unit :=
  let opts := mk_options base_dir include_subdirs use_ctime copy_no_backup in
  scan <~ job_attempt (job_lift (gather_files base_dir include_subdirs)) ;;
  match scan with
  | Raise e =>
      _post (Set_status "Idle") ;;~
      _post (Showerror APP_TITLE
               ("Failed to read directory: " ^^ format_exception e))
  | Return files =>
      let total := List.length files in
      if (total =? 0)%nat then
        _post (Set_status "No files to sort") ;;~
        _post (Showinfo APP_TITLE "No files found in the selected folder.")
      else
        (if negb copy_no_backup then
           _post (Set_status ("Creating backup (" ^^ PyStr.str_of_nat total
                                ^^ " file(s))...")) ;;~
           _post (Set_progress total 0)
         else job_ret tt) ;;~
        _post (Set_status ("Sorting " ^^ PyStr.str_of_nat total
                             ^^ " file(s)...")) ;;~
        _post (Set_progress total 0) ;;~
        job_for (enumerate files 1)
          (fun '(idx, _) =>
             _post (Set_progress total idx) ;;~
             _post (Set_status ("Processed " ^^ PyStr.str_of_nat idx ^^ "/"
                                  ^^ PyStr.str_of_nat total))) ;;~
        result <~ job_lift (sort_files env opts) ;;
        let '(moved, errors, logs) := result in
        job_for logs (fun line => _post (Log line)) ;;~
        let summary := summary_of copy_no_backup moved errors in
        _post (Log summary) ;;~
        _post (Set_status "Done") ;;~
        if negb (errors =? 0)%nat
        then _post (Showwarning APP_TITLE summary)
        else _post (Showinfo APP_TITLE summary)
  end.

(** The [finally] of [_worker_sort], lines 213-216. *)
Definition worker_finally : Job unit :=
  _post (Sort_btn_state ["!disabled"]) ;;~
  _post (Path_entry_state ["!disabled"]) ;;~
  _post (Set_progress 1 0) ;;~
  _post (Setattr_working false).

(** [App._worker_sort], lines 153-216. *)
Definition _worker_sort (env : Env) (base_dir : path)
  (include_subdirs use_ctime copy_no_backup : bool) : Job unit :=
  job_finally
    (worker_body env base_dir include_subdirs use_ctime copy_no_backup)
    worker_finally.

(** The part of the window the posted calls act on. *)
Record App : Type := mk_app {
  status_var : string;
  progress_maximum : nat;
  progress_value : nat;
  log_text : string;
  sort_btn_disabled : bool;
  path_entry_disabled : bool;
  _working : bool;
  (** the message boxes shown so far, the latest last *)
  boxes : list call
}.

(** [widget.state(spec)] on the [disabled] flag of a widget. *)
Fixpoint widget_state (spec : list string) (disabled : bool) : bool :=
  match spec with
  | [] => disabled
  | f :: spec' =>
      widget_state spec'
        (if String.eqb f "disabled" then true
         else if String.eqb f "!disabled" then false
         else disabled)
  end.

(** [App.set_status], lines 100-101. *)
Definition set_status (text : string) (app : App) : App :=
  mk_app text (progress_maximum app) (progress_value app) (log_text app)
    (sort_btn_disabled app) (path_entry_disabled app) (_working app)
    (boxes app).

(** [App.set_progress], lines 103-105. *)
Definition set_progress (total value : nat) (app : App) : App :=
  mk_app (status_var app) (Nat.max total 1) value (log_text app)
    (sort_btn_disabled app) (path_entry_disabled app) (_working app)
    (boxes app).

(** [App.log], lines 112-116: the message and a newline at the end of the
    text. *)
Definition log (message : string) (app : App) : App :=
  mk_app (status_var app) (progress_maximum app) (progress_value app)
    (log_text app ^^ message ^^ String "010" EmptyString)
    (sort_btn_disabled app) (path_entry_disabled app) (_working app)
    (boxes app).

(** [App.clear_log], lines 107-110. *)
Definition clear_log (app : App) : App :=
  mk_app (status_var app) (progress_maximum app) (progress_value app)
    EmptyString
    (sort_btn_disabled app) (path_entry_disabled app) (_working app)
    (boxes app).

(** The main loop runs a posted call. *)
Definition run_call (c : call) (app : App) : App :=
  match c with
  | Set_status text => set_status text app
  | Set_progress total value => set_progress total value app
  | Log message => log message app
  | Showerror _ _ | Showinfo _ _ | Showwarning _ _ =>
      mk_app (status_var app) (progress_maximum app) (progress_value app)
        (log_text app) (sort_btn_disabled app) (path_entry_disabled app)
        (_working app) (boxes app ++ [c])
  | Sort_btn_state spec =>
      mk_app (status_var app) (progress_maximum app) (progress_value app)
        (log_text app) (widget_state spec (sort_btn_disabled app))
        (path_entry_disabled app) (_working app) (boxes app)
  | Path_entry_state spec =>
      mk_app (status_var app) (progress_maximum app) (progress_value app)
        (log_text app) (sort_btn_disabled app)
        (widget_state spec (path_entry_disabled app)) (_working app)
        (boxes app)
  | Setattr_working value =>
      mk_app (status_var app) (progress_maximum app) (progress_value app)
        (log_text app) (sort_btn_disabled app) (path_entry_disabled app)
        value (boxes app)
  end.

(** The main loop runs the queue in the order of the posts. *)
Definition run_calls (q : list call) (app : App) : App :=
  fold_left (fun a c => run_call c a) q app.

(* ================================================================= *)
(** ** Notions used in the statements *)

(** A node without what is below it: a file as it is, a directory without
    its entries. *)
Definition shape (n : node) : node :=
  match n with
  | File m d => File m d
  | Dir m _ => Dir m []
  end.

Definition rshape (r : FS.resolved) : FS.resolved :=
  match r with
  | FS.Found n => FS.Found (shape n)
  | other => other
  end.

(** [fs'] is [fs] with, possibly, some new directories: what existed keeps
    its shape and nothing new is a regular file. *)
Definition grows (fs fs' : node) : Prop :=
  forall q,
    match FS.lookup fs q with
    | Some x => option_map shape (FS.lookup fs' q) = Some (shape x)
    | None =>
        match FS.lookup fs' q with
        | Some (File _ _) => False
        | _ => True
        end
    end.

(** The number a string of decimal digits denotes. *)
Definition decimal_value (s : string) : option Z :=
  option_map (fun u => Z.of_nat (Nat.of_uint u)) (NilEmpty.uint_of_string s).

(** [zero_pad w n] is [w] ASCII digits that denote [n]. *)
Definition padded_ok (w n : nat) : bool :=
  (String.length (PyStr.zero_pad w n) =? w)%nat
  && PyStr.ascii_digits (PyStr.zero_pad w n)
  && match decimal_value (PyStr.zero_pad w n) with
     | Some z => (z =? Z.of_nat n)%Z
     | None => false
     end.

(** The directory at [p] can be listed. *)
Definition listable (fs : node) (p : path) : bool :=
  match FS.lookup fs p with
  | Some (Dir m _) => readable m
  | _ => false
  end.

(** C7 as the claim states it: the two counts of a run that reaches the
    relocation phase add up to the number of candidate files. *)
Definition counts_cover_candidates (env : Env) (options : SortOptions)
  (fs : node) : Prop :=
  forall files moved errors logs fs',
    gather_files (base_dir options) (include_subdirs options) fs
      = (Return files, fs) ->
    files <> [] ->
    sort_files env options fs = (Return (moved, errors, logs), fs') ->
    moved + errors = List.length files.

(** What is at [q] is a regular file after exactly when it was before, and
    what existed at [q] keeps its shape. *)
Definition kept (fs fs' : node) (q : path) : Prop :=
  FS.is_file fs' q = FS.is_file fs q /\
  forall x, FS.lookup fs q = Some x ->
            option_map shape (FS.lookup fs' q) = Some (shape x).

(** C4 as the claim states it: no file returned by the recursive scan lies
    under a directory, at any depth of its path, whose name starts with
    [FolderChronicle Backup]. *)
Definition never_under_backup_folder (base : path) (fs : node) : Prop :=
  forall files p d r,
    gather_files base true fs = (Return files, fs) ->
    In p files ->
    p = d ++ r -> d <> [] -> r <> [] ->
    PyStr.startswith (PurePath.name d) backup_prefix = false.

(** No directory of the tree lists a name twice. *)
Fixpoint wf (n : node) : Prop :=
  match n with
  | File _ _ => True
  | Dir _ es =>
      NoDup (map fst es) /\
      (fix each (l : list (string * node)) : Prop :=
         match l with
         | [] => True
         | (_, c) :: l' => wf c /\ each l'
         end) es
  end.

(** A path below [base] whose directories below [base] the scan keeps. *)
Definition below_kept (base q : path) : Prop :=
  exists ds name,
    q = base ++ ds ++ [name] /\ Forall (fun d => keep_dir d = true) ds.

(** The paths of the file names a walk yields. *)
Definition walked_files (ws : list (path * list string * list string))
  : list path :=
  flat_map (fun w => map (fun nm => fst (fst w) // nm) (snd w)) ws.

(** The test of lines 61-75 on a path: it is appended to [gathered]. *)
Definition gathered_test (base p : path) : bool :=
  match PurePath.relative_to p base with
  | None => true
  | Some rel => negb (under_year_month rel)
  end.

(** Nothing at [q] or above it has changed shape between [fs] and [fs']. *)
Definition untouched (fs fs' : node) (q : path) : Prop :=
  rshape (FS.resolve fs' q) = rshape (FS.resolve fs q).

(* ================================================================= *)
(** ** Notions used in the further properties *)

(** The walk from [n] reaches the directory [ds] below it: that directory
    and the directories above it can be listed, and [keep] accepts the
    names on the way. *)
Fixpoint reached (keep : string -> bool) (n : node) (ds : list string)
  : bool :=
  match n with
  | File _ _ => false
  | Dir m es =>
      readable m &&
      match ds with
      | [] => true
      | d :: ds' =>
          keep d &&
          match FS.assoc d es with
          | Some c => reached keep c ds'
          | None => false
          end
      end
  end.

(** The folder [root] mirrors [base] as it is in [fs0]: at [root] and below
    it there is nothing in [fs] but directories that [base] has at the
    same relative path in [fs0], and regular files that carry the content
    and the modification time of the file [base] has there. *)
Definition mirrors (env : Env) (fs0 : node) (base root : path) (fs : node)
  : Prop :=
  forall r,
    match FS.lookup fs (root ++ r) with
    | Some (Dir _ _) => FS.is_dir fs0 (base ++ r) = true
    | Some (File m' d') =>
        exists m,
          FS.lookup fs0 (base ++ r) = Some (File m d') /\
          m' = Shutil.copied_meta env m
    | None => True
    end.

(** The line [_backup_files] logs for a file it could not copy. *)
Definition backup_error_line (src : path) (e : exn) : string :=
  "Backup error " ^^ PurePath.render src ^^ ": " ^^ format_exception e.

(** A source of the backup: a regular file of [fs0] at [rel] below the
    base. *)
Definition is_source (fs0 : node) (base src rel : path) : Prop :=
  src = base ++ rel /\ rel <> [] /\ FS.is_file fs0 src = true.

(** What the backup stage keeps true from one file to the next: its folder
    mirrors the base, and the regular files there were at the start are
    as they were. *)
Definition backup_invariant (env : Env) (fs0 : node) (base : path)
  (fs : node) : Prop :=
  mirrors env fs0 base (backup_root env base) fs /\
  forall q m d,
    FS.lookup fs0 q = Some (File m d) -> FS.lookup fs q = Some (File m d).

(** The line [sort_files] logs for a file it has copied or moved. *)
Definition success_line (options : SortOptions) (src : path) (dt : datetime)
  : string :=
  (if copy_no_backup options then "Copied: " else "Moved: ")
    ^^ PurePath.name src ^^ " -> " ^^ year_str dt ^^ "/" ^^ month_str dt
    ^^ "/".

(** A line of the relocation loop for [src]: of a success or of an error. *)
Definition relocation_line (options : SortOptions) (src : path) (l : string)
  : Prop :=
  (exists dt, l = success_line options src dt) \/
  (exists e, l = error_line src e).

Definition is_error_line (l : string) : bool :=
  PyStr.startswith l "Error moving ".

(** What exists in [fs] exists in [fs'], with the same shape. *)
Definition stays (fs fs' : node) : Prop :=
  forall q x,
    FS.lookup fs q = Some x ->
    option_map shape (FS.lookup fs' q) = Some (shape x).

(** [q] is not strictly below [base]: it is [base] itself or lies
    elsewhere. *)
Definition outside (base q : path) : Prop :=
  forall rel, PurePath.relative_to q base = Some rel -> rel = [].

(** The filesystems agree, up to shape, wherever a path is not strictly
    below [base]. *)
Definition same_outside (base : path) (fs fs' : node) : Prop :=
  forall q,
    outside base q ->
    option_map shape (FS.lookup fs' q) = option_map shape (FS.lookup fs q).

(** [src] can be relocated in [fs]: it is a regular file that may be read,
    its time stamp converts to the year and the month of [dt], which are
    in range, and no regular file stands where the directories of that
    year and that month go. *)
Definition relocatable (env : Env) (options : SortOptions) (fs : node)
  (src : path) (m : meta) (d : string) (dt : datetime) : Prop :=
  FS.lookup fs src = Some (File m d) /\
  readable m = true /\
  localtime env (chosen_time options m) = Some (dt_year dt, dt_month dt) /\
  (1 <= dt_year dt <= 9999)%Z /\ (1 <= dt_month dt <= 12)%Z /\
  FS.is_file fs (base_dir options // year_str dt) = false /\
  FS.is_file fs (base_dir options // year_str dt // month_str dt) = false.

(** The name [nm] is [name] or [name] with a number in brackets before
    its suffix. *)
Definition numbered (name nm : string) : Prop :=
  nm = name \/
  exists i,
    1 <= i /\
    nm = fst (PurePath.split_name name) ^^ " (" ^^ PyStr.str_of_nat i ^^ ")"
           ^^ snd (PurePath.split_name name).

(** The calls of [_worker_sort], stage by stage. *)
Definition announce_calls (copy_no_backup : bool) (total : nat) : list call :=
  (if negb copy_no_backup
   then [Set_status ("Creating backup (" ^^ PyStr.str_of_nat total
                       ^^ " file(s))...");
         Set_progress total 0]
   else [])
  ++ [Set_status ("Sorting " ^^ PyStr.str_of_nat total ^^ " file(s)...");
      Set_progress total 0].

Definition progress_calls (total : nat) (idxs : list nat) : list call :=
  flat_map
    (fun idx =>
       [Set_progress total idx;
        Set_status ("Processed " ^^ PyStr.str_of_nat idx ^^ "/"
                      ^^ PyStr.str_of_nat total)])
    idxs.

Definition closing_calls (copy_no_backup : bool) (moved errors : nat)
  : list call :=
  [Log (summary_of copy_no_backup moved errors);
   Set_status "Done";
   if negb (errors =? 0)%nat
   then Showwarning APP_TITLE (summary_of copy_no_backup moved errors)
   else Showinfo APP_TITLE (summary_of copy_no_backup moved errors)].

Definition finally_calls : list call :=
  [Sort_btn_state ["!disabled"];
   Path_entry_state ["!disabled"];
   Set_progress 1 0;
   Setattr_working false].

Definition is_box (c : call) : bool :=
  match c with
  | Showerror _ _ | Showinfo _ _ | Showwarning _ _ => true
  | _ => false
  end.

(** What a queue adds to the text of the log. *)
Fixpoint logged (q : list call) : string :=
  match q with
  | [] => EmptyString
  | Log message :: q' =>
      message ^^ String "010" EmptyString ^^ logged q'
  | _ :: q' => logged q'
  end.

(** The lines [ls], each with its newline. *)
Fixpoint lines (ls : list string) : string :=
  match ls with
  | [] => EmptyString
  | l :: ls' => l ^^ String "010" EmptyString ^^ lines ls'
  end.

(** The filesystems agree, up to shape, wherever a path is neither
    [root] nor below it. *)
Definition same_beside (root : path) (fs fs' : node) : Prop :=
  forall q,
    PurePath.relative_to q root = None ->
    option_map shape (FS.lookup fs' q) = option_map shape (FS.lookup fs q).

(** [q] lies where no scan of [base] looks: below the backup folder of the
    run, or at a relative path the test of the sorted structure accepts. *)
Definition hidden (env : Env) (base q : path) : Prop :=
  (exists x, x <> [] /\ q = backup_root env base ++ x) \/
  (exists rel, q = base ++ rel /\ under_year_month rel = true).

(** From [fs] to [fs'] the directories keep their shape, and a regular
    file that is new lies where no scan of [base] looks. *)
Definition settles (env : Env) (base : path) (fs fs' : node) : Prop :=
  (forall q,
      FS.is_dir fs q = true ->
      option_map shape (FS.lookup fs' q) = option_map shape (FS.lookup fs q)) /\
  (forall q,
      FS.is_file fs' q = true ->
      FS.is_file fs q = true \/ hidden env base q).

(* ================================================================= *)
(** ** Example filesystems and runs *)

Module Fixtures.

Definition jan_2023 : Z := 1673784000.

Definition env : Env :=
  mk_env 2000000000 "2024-05-06 07-08-09"
    (fun ts => if (ts =? jan_2023)%Z then Some (2023, 1)%Z
               else Some (1970, 1)%Z).

Definition m_dir : meta := mk_meta 0 0 true.
Definition m_hidden : meta := mk_meta 0 0 false.
Definition m_jan : meta := mk_meta jan_2023 5 true.
Definition m_locked : meta := mk_meta jan_2023 5 false.

(** [/tmp] with two files of January 2023. *)
Definition fs_two : node :=
  Dir m_dir [("tmp", Dir m_dir [("a.txt", File m_jan "a");
                                ("b.txt", File m_jan "b")])].

(** [/tmp] with one file that cannot be read. *)
Definition fs_locked : node :=
  Dir m_dir [("tmp", Dir m_dir [("a.txt", File m_locked "a")])].

(** [/tmp] that cannot be listed. *)
Definition fs_hidden : node :=
  Dir m_dir [("tmp", Dir m_hidden [("a.txt", File m_jan "a")])].

(** [/d] with [a.txt] and [a (1).txt]. *)
Definition fs_clash : node :=
  Dir m_dir [("d", Dir m_dir [("a.txt", File m_jan "x");
                              ("a (1).txt", File m_jan "y")])].

(** [/b] with a sorted file, a backup folder and a subfolder. *)
Definition fs_tree : node :=
  Dir m_dir
    [("b", Dir m_dir
        [("f.txt", File m_jan "f");
         ("2020", Dir m_dir [("01", Dir m_dir [("already.txt", File m_jan "x")]);
                             ("y.txt", File m_jan "y")]);
         ("FolderChronicle Backup 1", Dir m_dir [("z.txt", File m_jan "z")]);
         ("sub", Dir m_dir [("s.txt", File m_jan "s")])])].

(** [/tmp] without entries. *)
Definition fs_empty : node := Dir m_dir [("tmp", Dir m_dir [])].

Definition copy_options : SortOptions := mk_options ["tmp"] false false true.
Definition move_options : SortOptions := mk_options ["tmp"] false false false.
Definition deep_options : SortOptions := mk_options ["tmp"] true false false.

End Fixtures.

(* ================================================================= *)
(** ** Facts about strings and paths *)

Section StringFacts.

Lemma append_empty_r (s : string) : s ^^ EmptyString = s.
Proof. induction s; simpl; congruence. Qed.

Lemma append_assoc (a b c : string) : (a ^^ b) ^^ c = a ^^ (b ^^ c).
Proof. induction a; simpl; congruence. Qed.

Lemma append_length (a b : string) :
  String.length (a ^^ b) = String.length a + String.length b.
Proof. induction a; simpl; congruence. Qed.

Lemma append_cancel_l (a b c : string) : a ^^ b = a ^^ c -> b = c.
Proof. induction a; simpl; intros H; [assumption | inversion H; auto]. Qed.

Lemma append_cancel_r (a b c : string) : a ^^ c = b ^^ c -> a = b.
Proof.
  revert b. induction a as [|x a IH]; intros [|y b] H; simpl in *.
  - reflexivity.
  - apply (f_equal String.length) in H. simpl in H.
    rewrite append_length in H. lia.
  - apply (f_equal String.length) in H. simpl in H.
    rewrite append_length in H. lia.
  - inversion H; subst. f_equal. auto.
Qed.

Lemma str_of_nat_inj (i j : nat) :
  PyStr.str_of_nat i = PyStr.str_of_nat j -> i = j.
Proof.
  unfold PyStr.str_of_nat. intros H.
  apply (f_equal NilEmpty.uint_of_string) in H.
  rewrite !NilEmpty.usu in H. inversion H as [H'].
  apply (f_equal Nat.of_uint) in H'.
  now rewrite !Unsigned.of_to in H'.
Qed.

Lemma substring_split (s : string) (i : nat) :
  i <= String.length s ->
  substring 0 i s ^^ substring i (String.length s - i) s = s.
Proof.
  revert i. induction s as [|c s IH]; intros [|i] Hi; simpl in *.
  - reflexivity.
  - lia.
  - f_equal. clear. induction s as [|d s IH]; simpl; [reflexivity|].
    f_equal. destruct s; simpl in *; auto.
  - f_equal. apply IH. lia.
Qed.

Lemma rfind_dot_bound (s : string) (i : nat) :
  PyStr.rfind_dot s = Some i -> i < String.length s.
Proof.
  revert i. induction s as [|c s IH]; simpl; intros i H; [discriminate|].
  destruct (PyStr.rfind_dot s) as [j|].
  - inversion H; subst. specialize (IH j eq_refl). lia.
  - destruct (Ascii.eqb c "."); inversion H; lia.
Qed.

(** [stem + suffix] is the name. *)
Lemma split_name_concat (nm : string) :
  fst (PurePath.split_name nm) ^^ snd (PurePath.split_name nm) = nm.
Proof.
  unfold PurePath.split_name.
  destruct (PyStr.rfind_dot nm) as [i|] eqn:E; simpl.
  - destruct ((0 <? i)%nat && (i <? String.length nm - 1)%nat); simpl.
    + apply substring_split. apply rfind_dot_bound in E. lia.
    + apply append_empty_r.
  - apply append_empty_r.
Qed.

End StringFacts.

Section PathFacts.

Lemma parent_join (p : path) (s : string) : PurePath.parent (p // s) = p.
Proof. unfold PurePath.parent, PurePath.joinpath. apply removelast_last. Qed.

Lemma name_join (p : path) (s : string) : PurePath.name (p // s) = s.
Proof. unfold PurePath.name, PurePath.joinpath. apply last_last. Qed.

Lemma parent_name (p : path) :
  p <> [] -> p = PurePath.parent p // PurePath.name p.
Proof. intros H. apply app_removelast_last. exact H. Qed.

Lemma relative_to_app (p r : path) : PurePath.relative_to (p ++ r) p = Some r.
Proof.
  induction p as [|s p IH]; simpl; [reflexivity|].
  now rewrite String.eqb_refl.
Qed.

Lemma relative_to_some (q p r : path) :
  PurePath.relative_to q p = Some r -> q = p ++ r.
Proof.
  revert q. induction p as [|s p IH]; simpl; intros q H.
  - now inversion H.
  - destruct q as [|t q]; [discriminate|].
    destruct (String.eqb_spec s t); [|discriminate].
    subst. f_equal. now apply IH.
Qed.

Lemma relative_to_shorter (q p : path) :
  List.length q < List.length p -> PurePath.relative_to q p = None.
Proof.
  intros H. destruct (PurePath.relative_to q p) eqn:E; [|reflexivity].
  apply relative_to_some in E. subst. rewrite length_app in H. lia.
Qed.

Lemma relative_to_sibling (d : path) (s t : string) :
  s <> t -> PurePath.relative_to (d // s) (d // t) = None.
Proof.
  intros H. destruct (PurePath.relative_to _ _) eqn:E; [|reflexivity].
  apply relative_to_some in E. unfold PurePath.joinpath in E.
  rewrite <- app_assoc in E. apply app_inv_head in E.
  simpl in E. inversion E. congruence.
Qed.

Lemma path_eqb_eq (p q : path) : path_eqb p q = true <-> p = q.
Proof.
  unfold path_eqb. destruct (list_eq_dec string_dec p q); split;
    intros; congruence.
Qed.

Lemma path_eqb_neq (p q : path) : path_eqb p q = false <-> p <> q.
Proof.
  unfold path_eqb. destruct (list_eq_dec string_dec p q); split;
    intros; congruence.
Qed.

End PathFacts.

(* ================================================================= *)
(** ** Proof tools *)

(** Write a non-empty path as its parent joined with its name. *)
Ltac split_path p Hne d s :=
  let Ed := fresh "Ed" in
  let Es := fresh "Es" in
  let Ep := fresh "Ep" in
  remember (PurePath.parent p) as d eqn:Ed in *;
  remember (PurePath.name p) as s eqn:Es in *;
  assert (Ep : p = d // s) by (subst d s; now apply parent_name);
  clear Ed Es; subst p.

(** Unfolding of the plumbing of [M]. *)
Ltac unfold_m :=
  unfold bind, ret, raise, gets, try_except, attempt in *.

(* ================================================================= *)
(** ** Facts about the filesystem tree *)

Module FSFacts.

Import FS.

#[local] Arguments set_entry : simpl never.

Lemma assoc_remove_same s es : assoc s (remove s es) = None.
Proof.
  induction es as [|[s' n] es IH]; simpl; [reflexivity|].
  destruct (String.eqb_spec s s'); [assumption|].
  simpl. destruct (String.eqb_spec s s'); congruence.
Qed.

Lemma assoc_remove_other s s' es :
  s <> s' -> assoc s' (remove s es) = assoc s' es.
Proof.
  intros H. induction es as [|[t n] es IH]; simpl; [reflexivity|].
  destruct (String.eqb_spec s t).
  - subst. destruct (String.eqb_spec s' t); congruence.
  - simpl. now rewrite IH.
Qed.

Lemma assoc_app_last s s' n es :
  assoc s (es ++ [(s', n)]) =
  match assoc s es with
  | Some x => Some x
  | None => if String.eqb s s' then Some n else None
  end.
Proof.
  induction es as [|[t x] es IH]; simpl; [reflexivity|].
  destruct (String.eqb s t); auto.
Qed.

Lemma assoc_set_entry_same s v es : assoc s (set_entry s v es) = v.
Proof.
  destruct v as [n|]; unfold set_entry.
  - rewrite assoc_app_last, assoc_remove_same. now rewrite String.eqb_refl.
  - apply assoc_remove_same.
Qed.

Lemma assoc_set_entry_other s s' v es :
  s <> s' -> assoc s' (set_entry s v es) = assoc s' es.
Proof.
  intros H. destruct v as [n|]; unfold set_entry.
  - rewrite assoc_app_last, assoc_remove_other by assumption.
    destruct (assoc s' es); [reflexivity|].
    destruct (String.eqb_spec s' s); congruence.
  - now apply assoc_remove_other.
Qed.

Lemma assoc_in s es n : assoc s es = Some n -> In s (map fst es).
Proof.
  induction es as [|[t x] es IH]; simpl; [discriminate|].
  destruct (String.eqb_spec s t); auto.
Qed.

Lemma in_assoc s es : In s (map fst es) -> exists n, assoc s es = Some n.
Proof.
  induction es as [|[t x] es IH]; simpl; [tauto|].
  intros [H|H]; destruct (String.eqb_spec s t); subst; eauto; congruence.
Qed.

(** *** [resolve] and [lookup] *)

Lemma lookup_nil t : lookup t [] = Some t.
Proof. reflexivity. Qed.

Lemma lookup_cons_dir m es s p :
  lookup (Dir m es) (s :: p) =
  match assoc s es with
  | Some c => lookup c p
  | None => None
  end.
Proof. unfold lookup. simpl. now destruct (assoc s es). Qed.

Lemma lookup_cons_file m d s p : lookup (File m d) (s :: p) = None.
Proof. reflexivity. Qed.

Lemma lookup_app t p q :
  lookup t (p ++ q) =
  match lookup t p with
  | Some n => lookup n q
  | None => None
  end.
Proof.
  revert t. induction p as [|s p IH]; intros t; simpl; [reflexivity|].
  destruct t as [m d|m es].
  - reflexivity.
  - rewrite !lookup_cons_dir. destruct (assoc s es); auto.
Qed.

Lemma lookup_resolve t p n : lookup t p = Some n <-> resolve t p = Found n.
Proof.
  unfold lookup. destruct (resolve t p); split; intros H; congruence.
Qed.

Lemma lookup_none_resolve t p :
  lookup t p = None <-> resolve t p = NoEnt \/ resolve t p = NotDir.
Proof.
  unfold lookup. destruct (resolve t p); split; intros H;
    try congruence; try tauto; destruct H; congruence.
Qed.

Lemma lookup_rshape t t' p :
  rshape (resolve t' p) = rshape (resolve t p) ->
  option_map shape (lookup t' p) = option_map shape (lookup t p).
Proof.
  unfold lookup. destruct (resolve t' p), (resolve t p); simpl;
    intros H; congruence.
Qed.

(** What exists below a path makes the path a directory. *)
Lemma lookup_below t p s q n :
  lookup t (p ++ s :: q) = Some n -> is_dir t p = true.
Proof.
  unfold is_dir. rewrite lookup_app.
  destruct (lookup t p) as [[m d|m es]|]; try discriminate; auto.
Qed.

Lemma exists_prefix t p q :
  exists_ t (p ++ q) = true -> exists_ t p = true.
Proof.
  unfold exists_. rewrite lookup_app. destruct (lookup t p); auto.
Qed.

Lemma is_dir_lookup t p :
  is_dir t p = true <-> exists m es, lookup t p = Some (Dir m es).
Proof.
  unfold is_dir. destruct (lookup t p) as [[m d|m es]|]; split;
    try discriminate; eauto; intros (m' & es' & H); discriminate.
Qed.

Lemma is_file_lookup t p :
  is_file t p = true <-> exists m d, lookup t p = Some (File m d).
Proof.
  unfold is_file. destruct (lookup t p) as [[m d|m es]|]; split;
    try discriminate; eauto; intros (m' & es' & H); discriminate.
Qed.

(** An entry that exists is listed in its directory. *)
Lemma exists_child t p s :
  exists_ t (p // s) = true ->
  exists m es, lookup t p = Some (Dir m es) /\ In s (map fst es).
Proof.
  unfold exists_, PurePath.joinpath. rewrite lookup_app.
  destruct (lookup t p) as [[m d|m es]|]; try discriminate.
  rewrite lookup_cons_dir. destruct (assoc s es) eqn:E; try discriminate.
  intros _. exists m, es. split; [reflexivity|]. eapply assoc_in; eauto.
Qed.

(** *** [set_at] *)

(** The frame of [set_at]: a path that is neither [p] nor below it
    resolves as before, up to the entries of the directories above [p]. *)
Lemma resolve_set_at_frame p v t q :
  PurePath.relative_to q p = None ->
  rshape (resolve (set_at p v t) q) = rshape (resolve t q).
Proof.
  revert t q. induction p as [|s p IH]; intros t q H; simpl in *.
  - discriminate.
  - destruct t as [m d|m es]; [reflexivity|].
    destruct q as [|s0 q].
    + destruct p; [reflexivity|]. now destruct (assoc s es).
    + destruct (String.eqb_spec s s0) as [->|Hne].
      * destruct p as [|s1 p]; [discriminate|].
        destruct (assoc s0 es) as [c|] eqn:E; [|reflexivity].
        simpl. rewrite assoc_set_entry_same, E. now apply IH.
      * assert (A : forall v', assoc s0 (set_entry s v' es) = assoc s0 es)
          by (intros; now apply assoc_set_entry_other).
        destruct p as [|s1 p].
        -- simpl. now rewrite A.
        -- destruct (assoc s es) as [c|]; [|reflexivity].
           simpl. now rewrite A.
Qed.

Lemma lookup_set_at_frame p v t q :
  PurePath.relative_to q p = None ->
  option_map shape (lookup (set_at p v t) q) = option_map shape (lookup t q).
Proof. intros H. apply lookup_rshape. now apply resolve_set_at_frame. Qed.

Lemma set_at_cons_dir s p v m es :
  p <> [] ->
  set_at (s :: p) v (Dir m es) =
  match assoc s es with
  | Some c => Dir m (set_entry s (Some (set_at p v c)) es)
  | None => Dir m es
  end.
Proof. intros H. destruct p; [contradiction|reflexivity]. Qed.

(** At the path itself and below it [set_at] shows what was put there,
    when the parent is a directory. *)
Lemma lookup_set_at_below d s v t r :
  is_dir t d = true ->
  lookup (set_at (d // s) v t) (d // s ++ r) =
  match v with
  | Some n => lookup n r
  | None => None
  end.
Proof.
  unfold PurePath.joinpath.
  revert t. induction d as [|s0 d IH]; intros t H.
  - apply is_dir_lookup in H. destruct H as (m & es & H).
    rewrite lookup_nil in H. inversion H; subst. simpl.
    rewrite lookup_cons_dir, assoc_set_entry_same. reflexivity.
  - apply is_dir_lookup in H. destruct H as (m & es & H).
    destruct t as [m0 d0|m0 es0]; [discriminate|].
    rewrite lookup_cons_dir in H.
    destruct (assoc s0 es0) as [c|] eqn:E; [|discriminate].
    rewrite <- !app_comm_cons, set_at_cons_dir, E by (now destruct d).
    rewrite lookup_cons_dir, assoc_set_entry_same.
    apply IH. apply is_dir_lookup. eauto.
Qed.

Lemma lookup_set_at_same d s v t :
  is_dir t d = true -> lookup (set_at (d // s) v t) (d // s) = v.
Proof.
  intros H. generalize (lookup_set_at_below d s v t [] H).
  rewrite app_nil_r. now destruct v.
Qed.

(** Files and directories keep their kind under the frame. *)
Lemma shape_file n m d : shape n = File m d -> n = File m d.
Proof. destruct n; simpl; congruence. Qed.

Lemma option_shape_file o m d :
  option_map shape o = Some (File m d) <-> o = Some (File m d).
Proof.
  destruct o as [[m' d'|m' es]|]; simpl; split; intros H;
    congruence.
Qed.

Lemma option_shape_none o : option_map shape o = None <-> o = None.
Proof. destruct o; simpl; split; congruence. Qed.

Lemma option_shape_eq_is_file t t' q :
  option_map shape (lookup t' q) = option_map shape (lookup t q) ->
  is_file t' q = is_file t q.
Proof.
  unfold is_file.
  destruct (lookup t' q) as [[]|], (lookup t q) as [[]|]; simpl;
    congruence.
Qed.

Lemma option_shape_eq_is_dir t t' q :
  option_map shape (lookup t' q) = option_map shape (lookup t q) ->
  is_dir t' q = is_dir t q.
Proof.
  unfold is_dir.
  destruct (lookup t' q) as [[]|], (lookup t q) as [[]|]; simpl;
    congruence.
Qed.

Lemma option_shape_eq_exists t t' q :
  option_map shape (lookup t' q) = option_map shape (lookup t q) ->
  exists_ t' q = exists_ t q.
Proof.
  unfold exists_.
  destruct (lookup t' q) as [[]|], (lookup t q) as [[]|]; simpl;
    congruence.
Qed.

End FSFacts.

(* ================================================================= *)
(** ** [unique_destination_path] *)

Section UniqueDestination.

Variable fs : node.
Variable dest : path.

Lemma candidate_parent (i : nat) :
  PurePath.parent (candidate dest i) = PurePath.parent dest.
Proof. unfold candidate. apply parent_join. Qed.

Lemma candidate_inj (i j : nat) : candidate dest i = candidate dest j -> i = j.
Proof.
  unfold candidate, PurePath.joinpath. intros H.
  apply app_inv_head in H. inversion H as [H'].
  apply append_cancel_l in H'. simpl in H'. inversion H' as [H''].
  apply append_cancel_r in H''.
  now apply str_of_nat_inj.
Qed.

(** What the loop gives after [fuel] rounds from round [i]: the first
    candidate that does not exist, or nothing when all of them exist. *)
Lemma probe_result (fuel i : nat) :
  match probe fs dest fuel i with
  | Some c =>
      exists k, i <= k < i + fuel /\ c = candidate dest k /\
        FS.exists_ fs c = false /\
        forall j, i <= j < k -> FS.exists_ fs (candidate dest j) = true
  | None => forall j, i <= j < i + fuel -> FS.exists_ fs (candidate dest j) = true
  end.
Proof.
  revert i. induction fuel as [|fuel IH]; intros i; simpl.
  - intros j Hj. lia.
  - destruct (FS.exists_ fs (candidate dest i)) eqn:E; simpl.
    + specialize (IH (S i)). destruct (probe fs dest fuel (S i)) as [c|].
      * destruct IH as (k & Hk & Hc & Hf & Hall).
        exists k. repeat split; try assumption; try lia.
        intros j Hj. destruct (Nat.eq_dec j i) as [->|]; [exact E|].
        apply Hall. lia.
      * intros j Hj. destruct (Nat.eq_dec j i) as [->|]; [exact E|].
        apply IH. lia.
    + exists i. repeat split; try assumption; lia.
Qed.

Lemma probe_more_fuel (fuel fuel' i : nat) (c : path) :
  probe fs dest fuel i = Some c -> fuel <= fuel' ->
  probe fs dest fuel' i = Some c.
Proof.
  revert fuel' i. induction fuel as [|fuel IH]; intros fuel' i H Hle;
    simpl in H; [discriminate|].
  destruct fuel' as [|fuel']; [lia|]. simpl.
  destruct (negb (FS.exists_ fs (candidate dest i))); [assumption|].
  apply IH; [assumption|lia].
Qed.

(** The candidates of a full directory cannot all exist: there are more of
    them than entries. *)
Lemma probe_enough : probe fs dest (probe_bound fs dest) 1 <> None.
Proof.
  intros H. generalize (probe_result (probe_bound fs dest) 1).
  rewrite H. intros Hall. unfold probe_bound in *.
  set (n := FS.entry_count fs (PurePath.parent dest)) in *.
  assert (Hdir : exists m es,
             FS.lookup fs (PurePath.parent dest) = Some (Dir m es)).
  { destruct (FSFacts.exists_child fs (PurePath.parent dest)
                (PurePath.name (candidate dest 1))) as (m & es & Hl & _).
    - rewrite <- (candidate_parent 1). rewrite <- parent_name.
      + apply Hall. lia.
      + unfold candidate, PurePath.joinpath. now destruct (PurePath.parent dest).
    - eauto. }
  destruct Hdir as (m & es & Hl).
  assert (Hn : n = List.length es).
  { unfold n, FS.entry_count. now rewrite Hl. }
  assert (Hincl : incl (map (fun j => PurePath.name (candidate dest j)) (seq 1 (S n)))
                    (map fst es)).
  { intros s Hs. apply in_map_iff in Hs. destruct Hs as (j & <- & Hj).
    apply in_seq in Hj.
    destruct (FSFacts.exists_child fs (PurePath.parent dest)
                (PurePath.name (candidate dest j))) as (m' & es' & Hl' & Hin).
    - unfold candidate. rewrite name_join. apply Hall. lia.
    - rewrite Hl in Hl'. inversion Hl'; subst. exact Hin. }
  apply NoDup_incl_length in Hincl.
  - rewrite !length_map, length_seq in Hincl. lia.
  - apply NoDup_map_NoDup_ForallPairs; [|apply seq_NoDup].
    intros i j _ _ Hij. apply candidate_inj.
    unfold candidate in *. rewrite !name_join in Hij. now rewrite Hij.
Qed.

End UniqueDestination.

(** The result on a path that exists. *)
Lemma unique_destination_existing (fs : node) (P : path) :
  FS.exists_ fs P = true ->
  exists i,
    1 <= i /\
    unique_destination_path fs P = candidate P i /\
    FS.exists_ fs (candidate P i) = false /\
    (forall j, 1 <= j < i -> FS.exists_ fs (candidate P j) = true) /\
    (forall fuel, probe_bound fs P <= fuel ->
       unique_destination_path_fuel fuel fs P = Some (candidate P i)).
Proof.
  intros E. unfold unique_destination_path, unique_destination_path_fuel.
  rewrite E. cbn [negb].
  generalize (probe_result fs P (probe_bound fs P) 1).
  generalize (probe_enough fs P).
  destruct (probe fs P (probe_bound fs P) 1) as [c|] eqn:Ep;
    [|congruence].
  intros _ (k & Hk & -> & Hfree & Hall).
  exists k. repeat split; try assumption; try lia.
  intros fuel Hfuel. eapply probe_more_fuel; eauto.
Qed.

(** The result does not exist and lies in the directory of the path. *)
Lemma unique_destination_fresh (fs : node) (P : path) :
  FS.exists_ fs (unique_destination_path fs P) = false /\
  PurePath.parent (unique_destination_path fs P) = PurePath.parent P /\
  (unique_destination_path fs P = P \/
   exists i, 1 <= i /\ unique_destination_path fs P = candidate P i).
Proof.
  destruct (FS.exists_ fs P) eqn:E.
  - destruct (unique_destination_existing fs P E)
      as (i & Hi & -> & Hfree & _).
    repeat split; [assumption|apply candidate_parent|eauto].
  - unfold unique_destination_path, unique_destination_path_fuel.
    rewrite E. simpl. auto.
Qed.

(** C2.  On a path that does not exist [unique_destination_path] returns the
    path itself.  On a path that exists it returns the candidate
    [parent / "stem (i)suffix"] of the first [i >= 1] for which that
    candidate does not exist: the result does not exist, every candidate
    of a smaller number does, it lies in the same parent directory, and the
    loop of the source reaches it (any number of rounds from the stated
    bound on gives this result).  So with [name.ext] and [name (1).ext]
    present and [name (2).ext] absent the result is [name (2).ext]. *)
Theorem unique_destination_path_first_free (fs : node) (P : path) :
  (FS.exists_ fs P = false -> unique_destination_path fs P = P) /\
  (FS.exists_ fs P = true ->
   exists i,
     1 <= i /\
     unique_destination_path fs P = candidate P i /\
     FS.exists_ fs (candidate P i) = false /\
     (forall j, 1 <= j < i -> FS.exists_ fs (candidate P j) = true) /\
     PurePath.parent (candidate P i) = PurePath.parent P /\
     PurePath.name (candidate P i) =
       PurePath.stem P ^^ " (" ^^ PyStr.str_of_nat i ^^ ")"
         ^^ PurePath.suffix P /\
     PurePath.stem P ^^ PurePath.suffix P = PurePath.name P /\
     (forall fuel, probe_bound fs P <= fuel ->
        unique_destination_path_fuel fuel fs P = Some (candidate P i))) /\
  (FS.exists_ fs P = true ->
   FS.exists_ fs (candidate P 1) = true ->
   FS.exists_ fs (candidate P 2) = false ->
   unique_destination_path fs P = candidate P 2).
Proof.
  pose proof (unique_destination_existing fs P) as Hex.
  split; [|split].
  - intros E. unfold unique_destination_path, unique_destination_path_fuel.
    now rewrite E.
  - intros E. destruct (Hex E) as (i & Hi & Hr & Hfree & Hall & Hfuel).
    exists i. repeat split; try assumption; try lia.
    + apply candidate_parent.
    + unfold candidate. apply name_join.
    + apply split_name_concat.
  - intros E E1 E2. destruct (Hex E) as (i & Hi & Hr & Hfree & Hall & _).
    rewrite Hr. f_equal.
    destruct (Nat.lt_trichotomy i 2) as [Hlt|[Heq|Hgt]]; [|assumption|].
    + assert (i = 1) by lia. subst. congruence.
    + rewrite (Hall 2) in E2; [discriminate|lia].
Qed.

(* ================================================================= *)
(** ** The scan *)


Section Scan.

Import FS.

Lemma all_chars_impl (f g : ascii -> bool) (s : string) :
  (forall c, f c = true -> g c = true) ->
  PyStr.all_chars f s = true -> PyStr.all_chars g s = true.
Proof.
  intros Hfg. induction s as [|c s IH]; simpl; [reflexivity|].
  intros H. apply andb_true_iff in H. destruct H as [Hc Hs].
  apply andb_true_iff. auto.
Qed.

(** A non-empty run of ASCII digits is a run of digits for [isdigit]. *)
Lemma ascii_digits_isdigit (s : string) :
  s <> EmptyString -> PyStr.ascii_digits s = true -> PyStr.isdigit s = true.
Proof.
  intros Hne H. unfold PyStr.isdigit. destruct s; [congruence|].
  revert H. apply all_chars_impl. intros c Hc.
  unfold PyStr.char_isdigit. now rewrite Hc.
Qed.

Lemma length_nonempty (s : string) (n : nat) :
  String.length s = S n -> s <> EmptyString.
Proof. destruct s; simpl; congruence. Qed.

(** The test of the source holds of every relative path under
    [<4 ASCII digits>/<2 ASCII digits>/...]. *)
Lemma under_year_month_ascii (rel : list string) :
  3 <= List.length rel ->
  String.length (nth 0 rel EmptyString) = 4 ->
  PyStr.ascii_digits (nth 0 rel EmptyString) = true ->
  String.length (nth 1 rel EmptyString) = 2 ->
  PyStr.ascii_digits (nth 1 rel EmptyString) = true ->
  under_year_month rel = true.
Proof.
  intros Hlen H0 D0 H1 D1. unfold under_year_month.
  rewrite H0, H1.
  rewrite (ascii_digits_isdigit _ (length_nonempty _ _ H0) D0).
  rewrite (ascii_digits_isdigit _ (length_nonempty _ _ H1) D1).
  apply Nat.leb_le in Hlen. now rewrite Hlen.
Qed.

Lemma in_gather_one (base root : path) (name : string) (p : path) :
  In p (gather_one base root name) ->
  p = root // name /\
  match PurePath.relative_to p base with
  | Some rel => under_year_month rel = false
  | None => True
  end.
Proof.
  unfold gather_one.
  destruct (PurePath.relative_to (root // name) base) as [rel|] eqn:E.
  - destruct (under_year_month rel) eqn:U; simpl; [tauto|].
    intros [<-|[]]. now rewrite E.
  - simpl. intros [<-|[]]. now rewrite E.
Qed.

Lemma in_gathered (base : path) (fs : node) (p : path) :
  In p (gathered base fs) <->
  exists root dirs files_ name,
    In (root, dirs, files_) (Os.walk keep_dir fs base) /\
    In name files_ /\ In p (gather_one base root name).
Proof.
  unfold gathered. rewrite in_flat_map. split.
  - intros ([[root dirs] files_] & Hw & Hp). apply in_flat_map in Hp.
    destruct Hp as (name & Hn & Hp). exists root, dirs, files_, name. auto.
  - intros (root & dirs & files_ & name & Hw & Hn & Hp).
    exists (root, dirs, files_). split; [assumption|].
    apply in_flat_map. eauto.
Qed.

End Scan.

(** Induction on a tree, with the hypothesis for every entry of a
    directory. *)
Section NodeInduction.

Variable P : node -> Prop.
Hypothesis on_file : forall m d, P (File m d).
Hypothesis on_dir :
  forall m es, Forall (fun e => P (snd e)) es -> P (Dir m es).

Lemma node_ind_entries : forall n, P n.
Proof.
  fix IH 1. intros [m d|m es].
  - apply on_file.
  - apply on_dir. induction es as [|[s c] es IHes]; constructor.
    + apply IH.
    + exact IHes.
Qed.

End NodeInduction.

Section Walk.

Variable keep : string -> bool.

(** Every directory the walk yields is reached from the top through
    directories that [keep] accepts, and the names it yields for the
    descent are accepted too. *)
Lemma walk_node_kept (n : node) :
  forall root r dirs fls,
    In (r, dirs, fls) (Os.walk_node keep root n) ->
    exists ds,
      r = root ++ ds /\
      Forall (fun d => keep d = true) ds /\
      Forall (fun d => keep d = true) dirs.
Proof.
  induction n as [m d|m es IH] using node_ind_entries;
    intros root r dirs fls Hin; simpl in Hin; [destruct Hin|].
  destruct (readable m); [|destruct Hin].
  destruct Hin as [Heq|Hin].
  - inversion Heq; subst. exists []. rewrite app_nil_r.
    repeat split; [constructor|].
    apply Forall_forall. intros x Hx. apply filter_In in Hx. tauto.
  - induction es as [|[s c] es IHes]; [destruct Hin|].
    apply in_app_or in Hin. destruct Hin as [Hin|Hin].
    + destruct (Os.is_dir_node c && keep s) eqn:E; [|destruct Hin].
      apply andb_true_iff in E. destruct E as [_ Hk].
      apply Forall_inv in IH. simpl in IH.
      destruct (IH _ _ _ _ Hin) as (ds & -> & Hds & Hdirs).
      exists (s :: ds). unfold PurePath.joinpath.
      rewrite <- app_assoc. simpl. repeat split; auto.
    + apply IHes; [|assumption]. now apply Forall_inv_tail in IH.
Qed.

Lemma walk_kept (fs : node) (top : path) :
  forall r dirs fls,
    In (r, dirs, fls) (Os.walk keep fs top) ->
    exists ds,
      r = top ++ ds /\
      Forall (fun d => keep d = true) ds /\
      Forall (fun d => keep d = true) dirs.
Proof.
  unfold Os.walk. intros r dirs fls Hin.
  destruct (FS.lookup fs top); [|destruct Hin].
  eapply walk_node_kept; eauto.
Qed.

End Walk.

Lemma gather_files_recursive_eq (base : path) (fs : node) :
  gather_files base true fs =
  (Return (filter (FS.is_file fs) (gathered base fs)), fs).
Proof. reflexivity. Qed.

(** The scan reads the filesystem and leaves it as it is. *)
Lemma gather_files_readonly (base : path) (rec : bool) (fs : node) :
  snd (gather_files base rec fs) = fs.
Proof.
  destruct rec; [reflexivity|].
  unfold gather_files, bind, gets, Os.iterdir.
  destruct (FS.resolve fs base) as [[m d|m es]| |]; try reflexivity.
  now destruct (readable m).
Qed.

(** C3.  In recursive mode [gather_files] returns, and returns no file whose
    path relative to the base directory has at least three segments, the
    first of exactly four ASCII digits and the second of exactly two.  A
    file whose path is not relative to the base directory is appended as
    it is by the handler of each file name, and, being a regular file, is
    in the result. *)
Theorem gather_files_recursive_skips_year_month (base : path) (fs : node) :
  exists files,
    gather_files base true fs = (Return files, fs) /\
    (forall p rel,
        In p files -> PurePath.relative_to p base = Some rel ->
        ~ (3 <= List.length rel /\
           String.length (nth 0 rel EmptyString) = 4 /\
           PyStr.ascii_digits (nth 0 rel EmptyString) = true /\
           String.length (nth 1 rel EmptyString) = 2 /\
           PyStr.ascii_digits (nth 1 rel EmptyString) = true)) /\
    (forall root name,
        PurePath.relative_to (root // name) base = None ->
        gather_one base root name = [root // name]) /\
    (forall root dirs files_ name,
        In (root, dirs, files_) (Os.walk keep_dir fs base) ->
        In name files_ ->
        PurePath.relative_to (root // name) base = None ->
        FS.is_file fs (root // name) = true ->
        In (root // name) files).
Proof.
  exists (filter (FS.is_file fs) (gathered base fs)).
  split; [apply gather_files_recursive_eq|]. split; [|split].
  - intros p rel Hin Hrel (Hlen & H0 & D0 & H1 & D1).
    apply filter_In in Hin. destruct Hin as [Hin _].
    apply in_gathered in Hin.
    destruct Hin as (root & dirs & files_ & name & _ & _ & Hp).
    apply in_gather_one in Hp. destruct Hp as [_ Hp].
    rewrite Hrel in Hp.
    rewrite (under_year_month_ascii rel Hlen H0 D0 H1 D1) in Hp.
    discriminate.
  - intros root name Hrel. unfold gather_one. now rewrite Hrel.
  - intros root dirs files_ name Hw Hn Hrel Hfile.
    apply filter_In. split; [|assumption].
    apply in_gathered. exists root, dirs, files_, name.
    repeat split; try assumption.
    unfold gather_one. rewrite Hrel. now left.
Qed.

(** C4, as amended.  In recursive mode [gather_files] returns; every
    directory the walk visits is reached from the base directory through
    directories whose names do not start with [FolderChronicle Backup], the
    names it keeps for the descent do not start with it either, and every
    file returned lies below the base directory under such directories
    only.  The name of the base directory and the names of the directories
    above it are not looked at. *)
Theorem gather_files_recursive_prunes_backups (base : path) (fs : node) :
  exists files,
    gather_files base true fs = (Return files, fs) /\
    (forall root dirs files_,
        In (root, dirs, files_) (Os.walk keep_dir fs base) ->
        exists ds,
          root = base ++ ds /\
          Forall (fun d => PyStr.startswith d backup_prefix = false) ds /\
          Forall (fun d => PyStr.startswith d backup_prefix = false) dirs) /\
    (forall p,
        In p files ->
        exists ds name,
          p = base ++ ds ++ [name] /\
          Forall (fun d => PyStr.startswith d backup_prefix = false) ds).
Proof.
  assert (K : forall l, Forall (fun d => keep_dir d = true) l ->
                   Forall (fun d => PyStr.startswith d backup_prefix = false) l).
  { intros l. apply Forall_impl. intros d. unfold keep_dir.
    now destruct (PyStr.startswith d backup_prefix). }
  exists (filter (FS.is_file fs) (gathered base fs)).
  split; [apply gather_files_recursive_eq|]. split.
  - intros root dirs files_ Hw.
    destruct (walk_kept _ _ _ _ _ _ Hw) as (ds & -> & Hds & Hdirs).
    exists ds. auto.
  - intros p Hin. apply filter_In in Hin. destruct Hin as [Hin _].
    apply in_gathered in Hin.
    destruct Hin as (root & dirs & files_ & name & Hw & _ & Hp).
    apply in_gather_one in Hp. destruct Hp as [-> _].
    destruct (walk_kept _ _ _ _ _ _ Hw) as (ds & -> & Hds & _).
    exists ds, name. unfold PurePath.joinpath. rewrite app_assoc. auto.
Qed.

(* ================================================================= *)
(** ** The scan of a tree without repeated names *)

Module ScanFacts.

Import FS FSFacts.

Lemma wf_dir m es :
  wf (Dir m es) <->
  NoDup (map fst es) /\ Forall (fun e => wf (snd e)) es.
Proof.
  simpl. split; intros [Hn He]; (split; [exact Hn|]).
  - clear Hn. induction es as [|[s c] es IH]; constructor.
    + apply He.
    + apply IH. apply He.
  - clear Hn. induction es as [|[s c] es IH]; [exact I|].
    split.
    + apply (Forall_inv He).
    + apply IH. apply (Forall_inv_tail He).
Qed.

Lemma assoc_in_entries s es c : assoc s es = Some c -> In (s, c) es.
Proof.
  induction es as [|[t x] es IH]; simpl; [discriminate|].
  destruct (String.eqb_spec s t).
  - intros H; inversion H; subst. now left.
  - intros H. right. auto.
Qed.

Lemma wf_lookup t p n : wf t -> lookup t p = Some n -> wf n.
Proof.
  revert t. induction p as [|s p IH]; intros t Hwf.
  - rewrite lookup_nil. intros H; inversion H; subst. exact Hwf.
  - destruct t as [m d|m es]; [discriminate|].
    rewrite lookup_cons_dir. destruct (assoc s es) as [c|] eqn:E;
      [|discriminate].
    apply IH. apply wf_dir in Hwf. destruct Hwf as [_ Hall].
    rewrite Forall_forall in Hall.
    apply (Hall (s, c)). now apply assoc_in_entries.
Qed.

Lemma walk_node_dir keep root m es :
  Os.walk_node keep root (Dir m es) =
  if readable m then
    (root, filter keep (Os.dir_names es), Os.file_names es)
    :: flat_map
         (fun e => if Os.is_dir_node (snd e) && keep (fst e)
                   then Os.walk_node keep (root // fst e) (snd e)
                   else []) es
  else [].
Proof.
  simpl. destruct (readable m); [|reflexivity]. f_equal.
  induction es as [|[s c] es IH]; simpl; [reflexivity|].
  now rewrite IH.
Qed.

Lemma walked_files_app ws1 ws2 :
  walked_files (ws1 ++ ws2) = walked_files ws1 ++ walked_files ws2.
Proof. unfold walked_files. apply flat_map_app. Qed.

(** Every walked file lies below the top, through kept directories. *)
Lemma walked_below keep n root p :
  In p (walked_files (Os.walk_node keep root n)) ->
  exists ds nm,
    p = root ++ ds ++ [nm] /\ Forall (fun d => keep d = true) ds.
Proof.
  unfold walked_files. intros H. apply in_flat_map in H.
  destruct H as ([[r dirs] fls] & Hw & Hp). simpl in Hp.
  apply in_map_iff in Hp. destruct Hp as (nm & <- & _).
  destruct (walk_node_kept keep n root r dirs fls Hw) as (ds & -> & Hds & _).
  exists ds, nm. unfold PurePath.joinpath. now rewrite app_assoc.
Qed.

Lemma names_nodup (f : string * node -> bool) es :
  NoDup (map fst es) -> NoDup (map fst (filter f es)).
Proof.
  induction es as [|[s c] es IH]; simpl; intros H; [constructor|].
  apply NoDup_cons_iff in H. destruct H as [Hnin Hnd].
  destruct (f (s, c)); simpl; [|auto].
  constructor; [|auto].
  intros Hin. apply Hnin. apply in_map_iff in Hin.
  destruct Hin as (e & He & Hin). apply filter_In in Hin.
  apply in_map_iff. exists e. tauto.
Qed.

Lemma join_nodup root names :
  NoDup names -> NoDup (map (fun nm => root // nm) names).
Proof.
  intros H. apply NoDup_map_NoDup_ForallPairs; [|exact H].
  intros a b _ _ E. unfold PurePath.joinpath in E.
  apply app_inv_head in E. now inversion E.
Qed.

(** On a tree without repeated names no file is walked twice. *)
Lemma walked_nodup keep n :
  wf n -> forall root, NoDup (walked_files (Os.walk_node keep root n)).
Proof.
  induction n as [m d|m es IH] using node_ind_entries; intros Hwf root.
  - constructor.
  - rewrite walk_node_dir. destruct (readable m); [|constructor].
    apply wf_dir in Hwf. destruct Hwf as [Hnames Hsub].
    change (NoDup (map (fun nm => root // nm) (Os.file_names es)
                   ++ walked_files
                        (flat_map
                           (fun e =>
                              if Os.is_dir_node (snd e) && keep (fst e)
                              then Os.walk_node keep (root // fst e) (snd e)
                              else []) es))).
    apply NoDup_app.
    + apply join_nodup. now apply names_nodup.
    + clear - IH Hnames Hsub.
      induction es as [|[s c] es IHes]; [constructor|].
      simpl. rewrite walked_files_app.
      apply NoDup_cons_iff in Hnames. destruct Hnames as [Hs Hnames].
      apply NoDup_app.
      * destruct (Os.is_dir_node c && keep s); [|constructor].
        apply (Forall_inv IH). apply (Forall_inv Hsub).
      * apply IHes; [now apply Forall_inv_tail in IH|assumption|
                     now apply Forall_inv_tail in Hsub].
      * intros p Hp Hq.
        destruct (Os.is_dir_node c && keep s); [|destruct Hp].
        apply walked_below in Hp. destruct Hp as (ds & nm & -> & _).
        unfold walked_files in Hq. apply in_flat_map in Hq.
        destruct Hq as (w & Hw & Hq). apply in_flat_map in Hw.
        destruct Hw as ([s' c'] & Hin & Hw). simpl in Hw.
        destruct (Os.is_dir_node c' && keep s'); [|destruct Hw].
        assert (Hq' : In (root // s ++ ds ++ [nm])
                        (walked_files (Os.walk_node keep (root // s') c'))).
        { unfold walked_files. apply in_flat_map. eauto. }
        apply walked_below in Hq'. destruct Hq' as (ds' & nm' & E & _).
        unfold PurePath.joinpath in E. rewrite <- !app_assoc in E.
        apply app_inv_head in E. simpl in E. inversion E; subst.
        apply Hs. apply in_map_iff. exists (s', c'). auto.
    + intros p Hp Hq. apply in_map_iff in Hp. destruct Hp as (nm & <- & _).
      unfold walked_files in Hq. apply in_flat_map in Hq.
      destruct Hq as (w & Hw & Hq). apply in_flat_map in Hw.
      destruct Hw as ([s' c'] & Hin & Hw). simpl in Hw.
      destruct (Os.is_dir_node c' && keep s'); [|destruct Hw].
      assert (Hq' : In (root // nm)
                      (walked_files (Os.walk_node keep (root // s') c'))).
      { unfold walked_files. apply in_flat_map. eauto. }
      apply walked_below in Hq'. destruct Hq' as (ds' & nm' & E & _).
      unfold PurePath.joinpath in E. rewrite <- !app_assoc in E.
      apply app_inv_head in E. simpl in E. inversion E as [[E1 E2]].
      destruct ds'; discriminate.
Qed.

(** What the recursive scan gathers: the walked files that pass the
    test. *)
Lemma gathered_filter base fs :
  gathered base fs =
  filter (gathered_test base) (walked_files (Os.walk keep_dir fs base)).
Proof.
  unfold gathered, walked_files.
  induction (Os.walk keep_dir fs base) as [|[[root dirs] fls] ws IH];
    simpl; [reflexivity|].
  rewrite filter_app, IH. f_equal. clear.
  induction fls as [|nm fls IH]; simpl; [reflexivity|].
  rewrite IH. unfold gather_one, gathered_test.
  destruct (PurePath.relative_to (root // nm) base) as [rel|];
    [|reflexivity].
  now destruct (under_year_month rel).
Qed.

(** On a tree without repeated names the scan returns no file twice. *)
Lemma gather_files_nodup base rec fs files fs0 :
  wf fs ->
  gather_files base rec fs = (Return files, fs0) ->
  NoDup files.
Proof.
  intros Hwf. unfold gather_files. destruct rec; unfold_m.
  - intros H; inversion H; subst files fs0. apply NoDup_filter.
    rewrite gathered_filter. apply NoDup_filter.
    unfold Os.walk. destruct (lookup fs base) as [n|] eqn:E;
      [|constructor].
    apply walked_nodup. eapply wf_lookup; eauto.
  - unfold Os.iterdir.
    destruct (resolve fs base) as [[m d|m es]| |] eqn:E; try discriminate.
    destruct (readable m); [|discriminate].
    intros H; inversion H; subst files fs0. apply NoDup_filter.
    apply lookup_resolve in E. apply (wf_lookup _ _ _ Hwf) in E.
    apply wf_dir in E. destruct E as [Hn _].
    rewrite <- (map_map fst (fun nm => base // nm)).
    now apply join_nodup.
Qed.

(** Every file of the scan lies below the base directory, through
    directories the scan keeps. *)
Lemma gather_files_below base rec fs files fs0 :
  gather_files base rec fs = (Return files, fs0) ->
  Forall (below_kept base) files.
Proof.
  unfold gather_files. destruct rec; unfold_m.
  - intros H; inversion H; subst files fs0. apply Forall_forall. intros q Hq.
    apply filter_In in Hq. destruct Hq as [Hq _].
    rewrite gathered_filter in Hq. apply filter_In in Hq.
    destruct Hq as [Hq _]. unfold Os.walk in Hq.
    destruct (lookup fs base) as [n|]; [|destruct Hq].
    apply walked_below in Hq. exact Hq.
  - unfold Os.iterdir.
    destruct (resolve fs base) as [[m d|m es]| |] eqn:E; try discriminate.
    destruct (readable m); [|discriminate].
    intros H; inversion H; subst files fs0. apply Forall_forall. intros q Hq.
    apply filter_In in Hq. destruct Hq as [Hq _].
    apply in_map_iff in Hq. destruct Hq as (e & <- & _).
    exists [], (fst e). split; [reflexivity|constructor].
Qed.

End ScanFacts.

(* ================================================================= *)
(** ** Facts about the operations *)

Module OpFacts.

Import FS FSFacts.

Lemma resolve_app t p q :
  resolve t (p ++ q) =
  match resolve t p with
  | Found n => resolve n q
  | other => other
  end.
Proof.
  revert t. induction p as [|s p IH]; intros t; simpl; [reflexivity|].
  destruct t as [m d|m es]; [reflexivity|].
  destruct (assoc s es); auto.
Qed.

(** A path that does not exist in a directory that does resolves with
    ENOENT. *)
Lemma fresh_resolve fs dst :
  exists_ fs dst = false -> is_dir fs (PurePath.parent dst) = true ->
  dst <> [] -> resolve fs dst = NoEnt.
Proof.
  intros Hex Hdir Hne. rewrite (parent_name dst Hne) in *.
  rewrite parent_join in Hdir. apply is_dir_lookup in Hdir.
  destruct Hdir as (m & es & Hl). apply lookup_resolve in Hl.
  unfold exists_, lookup in Hex. unfold PurePath.joinpath in *.
  rewrite resolve_app, Hl in *. simpl in *.
  destruct (assoc (PurePath.name dst) es); [discriminate|reflexivity].
Qed.

Lemma relative_to_deeper q p x r :
  PurePath.relative_to q (p ++ x) = Some r ->
  PurePath.relative_to q p = Some (x ++ r).
Proof.
  intros H. apply relative_to_some in H. subst.
  rewrite <- app_assoc. apply relative_to_app.
Qed.

Lemma relative_to_none_deeper q p x :
  PurePath.relative_to q p = None -> PurePath.relative_to q (p ++ x) = None.
Proof.
  intros H. destruct (PurePath.relative_to q (p ++ x)) eqn:E; [|reflexivity].
  apply relative_to_deeper in E. congruence.
Qed.

(** What exists is not below what does not. *)
Lemma relative_to_fresh fs q p :
  exists_ fs q = true -> exists_ fs p = false ->
  PurePath.relative_to q p = None.
Proof.
  intros Hq Hp. destruct (PurePath.relative_to q p) eqn:E; [|reflexivity].
  apply relative_to_some in E. subst. apply exists_prefix in Hq. congruence.
Qed.

(** Nothing is below a regular file. *)
Lemma relative_to_file fs q p m d :
  exists_ fs q = true -> lookup fs p = Some (File m d) -> q <> p ->
  PurePath.relative_to q p = None.
Proof.
  intros Hq Hp Hne. destruct (PurePath.relative_to q p) as [r|] eqn:E;
    [|reflexivity].
  apply relative_to_some in E. subst. unfold exists_ in Hq.
  rewrite lookup_app, Hp in Hq. destruct r; [|discriminate].
  now rewrite app_nil_r in Hne.
Qed.

(** *** [untouched] *)

Lemma untouched_refl fs q : untouched fs fs q.
Proof. reflexivity. Qed.

Lemma untouched_trans fs1 fs2 fs3 q :
  untouched fs1 fs2 q -> untouched fs2 fs3 q -> untouched fs1 fs3 q.
Proof. unfold untouched. congruence. Qed.

Lemma untouched_set_at fs p v q :
  PurePath.relative_to q p = None -> untouched fs (set_at p v fs) q.
Proof. intros H. now apply resolve_set_at_frame. Qed.

Lemma untouched_lookup fs fs' q :
  untouched fs fs' q ->
  option_map shape (lookup fs' q) = option_map shape (lookup fs q).
Proof. apply lookup_rshape. Qed.

Lemma untouched_file fs fs' q m d :
  untouched fs fs' q ->
  (lookup fs' q = Some (File m d) <-> lookup fs q = Some (File m d)).
Proof.
  intros H. apply untouched_lookup in H.
  rewrite <- !option_shape_file with (o := lookup _ q). now rewrite H.
Qed.

Lemma untouched_none fs fs' q :
  untouched fs fs' q -> (lookup fs' q = None <-> lookup fs q = None).
Proof.
  intros H. apply untouched_lookup in H.
  rewrite <- !option_shape_none with (o := lookup _ q). now rewrite H.
Qed.

Lemma untouched_is_dir fs fs' q :
  untouched fs fs' q -> is_dir fs' q = is_dir fs q.
Proof. intros H. now apply option_shape_eq_is_dir, untouched_lookup. Qed.

Lemma untouched_is_file fs fs' q :
  untouched fs fs' q -> is_file fs' q = is_file fs q.
Proof. intros H. now apply option_shape_eq_is_file, untouched_lookup. Qed.

Lemma untouched_exists fs fs' q :
  untouched fs fs' q -> exists_ fs' q = exists_ fs q.
Proof. intros H. now apply option_shape_eq_exists, untouched_lookup. Qed.

(** *** [grows] *)

Lemma grows_refl fs : grows fs fs.
Proof.
  intros q. destruct (lookup fs q) as [x|] eqn:E; rewrite ?E; auto.
Qed.

Lemma grows_trans fs1 fs2 fs3 : grows fs1 fs2 -> grows fs2 fs3 -> grows fs1 fs3.
Proof.
  intros H12 H23 q. specialize (H12 q). specialize (H23 q).
  destruct (lookup fs1 q) as [x|].
  - destruct (lookup fs2 q) as [y|]; [|discriminate].
    simpl in H12. rewrite H23. exact H12.
  - destruct (lookup fs2 q) as [[m d|m es]|]; try tauto.
    simpl in H23. destruct (lookup fs3 q) as [[]|]; simpl in *;
      try discriminate; exact I.
Qed.

Lemma grows_file fs fs' q m d :
  grows fs fs' ->
  (lookup fs' q = Some (File m d) <-> lookup fs q = Some (File m d)).
Proof.
  intros H. specialize (H q). destruct (lookup fs q) as [x|].
  - rewrite <- option_shape_file, H. destruct x; simpl; split; congruence.
  - destruct (lookup fs' q) as [[]|]; split; try tauto; discriminate.
Qed.

Lemma grows_is_file fs fs' q : grows fs fs' -> is_file fs' q = is_file fs q.
Proof.
  intros H. specialize (H q). unfold is_file.
  destruct (lookup fs q) as [x|].
  - destruct (lookup fs' q) as [y|]; [|discriminate].
    simpl in H. destruct x, y; simpl in *; congruence.
  - destruct (lookup fs' q) as [[]|]; tauto.
Qed.

Lemma grows_is_dir fs fs' q :
  grows fs fs' -> is_dir fs q = true -> is_dir fs' q = true.
Proof.
  intros H. specialize (H q). unfold is_dir.
  destruct (lookup fs q) as [[]|]; try discriminate.
  destruct (lookup fs' q) as [[]|]; simpl in *; congruence.
Qed.

Lemma grows_exists fs fs' q :
  grows fs fs' -> exists_ fs q = true -> exists_ fs' q = true.
Proof.
  intros H. specialize (H q). unfold exists_.
  destruct (lookup fs q); try discriminate.
  destruct (lookup fs' q); simpl in *; congruence.
Qed.

(** Existing nodes keep their metadata and, for files, their data. *)
Lemma grows_shape fs fs' q x :
  grows fs fs' -> lookup fs q = Some x ->
  option_map shape (lookup fs' q) = Some (shape x).
Proof. intros H E. specialize (H q). now rewrite E in H. Qed.

Lemma new_dir_grows fs p m :
  resolve fs p = NoEnt -> is_dir fs (PurePath.parent p) = true ->
  grows fs (set_at p (Some (Dir m [])) fs).
Proof.
  intros Hp Hd q.
  assert (Hne : p <> []) by (intros ->; discriminate).
  assert (Hnone : lookup fs p = None) by (unfold lookup; now rewrite Hp).
  remember (PurePath.parent p) as d eqn:Ed.
  remember (PurePath.name p) as s eqn:Es.
  assert (Ep : p = d // s) by (subst d s; now apply parent_name).
  clear Ed Es Hne Hp. subst p.
  destruct (PurePath.relative_to q (d // s)) as [r|] eqn:E.
  - apply relative_to_some in E. subst q.
    rewrite lookup_app, Hnone.
    rewrite lookup_set_at_below by assumption.
    destruct r; [exact I|]. now rewrite lookup_cons_dir.
  - generalize (lookup_set_at_frame (d // s) (Some (Dir m [])) fs q E).
    destruct (lookup fs q) as [x|]; simpl; [auto|].
    intros H. apply (proj1 (option_shape_none _)) in H. now rewrite H.
Qed.

End OpFacts.

Module MkdirFacts.

Import FS FSFacts OpFacts.

Lemma os_mkdir_inv env p fs r fs' :
  Os.mkdir env p fs = (r, fs') ->
  (r = Return tt /\ resolve fs p = NoEnt /\
   is_dir fs (PurePath.parent p) = true /\
   fs' = set_at p (Some (Dir (Os.fresh_meta env) [])) fs)
  \/ (exists e, r = Raise e /\ fs' = fs /\ is_oserror (kind e) = true).
Proof.
  unfold Os.mkdir. destruct (resolve fs p) eqn:E.
  - intros H; inversion H; subst. right. eauto.
  - destruct (is_dir fs (PurePath.parent p)) eqn:D;
      intros H; inversion H; subst; [left; auto|right; eauto].
  - intros H; inversion H; subst. right. eauto.
Qed.

Lemma os_mkdir_grows env p fs r fs' :
  Os.mkdir env p fs = (r, fs') -> grows fs fs'.
Proof.
  intros H. apply os_mkdir_inv in H.
  destruct H as [(_ & Hp & Hd & ->)|(e & _ & -> & _)].
  - now apply new_dir_grows.
  - apply grows_refl.
Qed.

Lemma os_mkdir_is_dir env p fs fs' :
  Os.mkdir env p fs = (Return tt, fs') -> is_dir fs' p = true.
Proof.
  intros H. apply os_mkdir_inv in H.
  destruct H as [(_ & Hp & Hd & ->)|(e & He & _)]; [|discriminate].
  assert (Hne : p <> []) by (intros ->; discriminate).
  rewrite (parent_name p Hne). unfold is_dir.
  rewrite lookup_set_at_same; [reflexivity|assumption].
Qed.

Lemma mkdir_one_spec env ok p fs r fs' :
  Pathlib.mkdir_one env ok p fs = (r, fs') ->
  grows fs fs' /\ (r = Return tt -> is_dir fs' p = true).
Proof.
  unfold Pathlib.mkdir_one. unfold_m.
  destruct (Os.mkdir env p fs) as [[[]|e] fs1] eqn:E.
  - intros H; inversion H; subst. split.
    + eapply os_mkdir_grows; eauto.
    + intros _. eapply os_mkdir_is_dir; eauto.
  - assert (fs1 = fs).
    { apply os_mkdir_inv in E.
      destruct E as [(? & _)|(? & _ & ? & _)]; [discriminate|assumption]. }
    subst fs1.
    destruct (is_file_not_found (kind e)).
    + intros H; inversion H; subst. split; [apply grows_refl|discriminate].
    + destruct (is_oserror (kind e)).
      * destruct (negb ok || negb (is_dir fs p)) eqn:B;
          intros H; inversion H; subst;
          (split; [apply grows_refl|]); [discriminate|].
        intros _. apply orb_false_iff in B. destruct B as [_ B].
        now apply negb_false_iff in B.
      * intros H; inversion H; subst. split; [apply grows_refl|discriminate].
Qed.

Lemma mkdir_parents_rev_eq env ok rp :
  Pathlib.mkdir_parents_rev env ok rp =
  try_except (Os.mkdir env (rev rp))
    (fun e =>
       if is_file_not_found (kind e) then
         match rp with
         | [] => raise e
         | _ :: rp' =>
             Pathlib.mkdir_parents_rev env true rp' ;;;
             Pathlib.mkdir_one env ok (rev rp)
         end
       else if is_oserror (kind e) then
         d <- gets (fun fs => is_dir fs (rev rp)) ;;
         if negb ok || negb d then raise e else ret tt
       else raise e).
Proof. destruct rp; reflexivity. Qed.

Lemma mkdir_parents_rev_spec env rp :
  forall ok fs r fs',
    Pathlib.mkdir_parents_rev env ok rp fs = (r, fs') ->
    grows fs fs' /\ (r = Return tt -> is_dir fs' (rev rp) = true).
Proof.
  induction rp as [|s rp IH]; intros ok fs r fs';
    rewrite mkdir_parents_rev_eq; unfold_m;
    destruct (Os.mkdir env _ fs) as [[[]|e] fs1] eqn:E.
  - intros H; inversion H; subst. split.
    + eapply os_mkdir_grows; eauto.
    + intros _. eapply os_mkdir_is_dir; eauto.
  - assert (fs1 = fs).
    { apply os_mkdir_inv in E.
      destruct E as [(? & _)|(? & _ & ? & _)]; [discriminate|assumption]. }
    subst fs1.
    destruct (is_file_not_found (kind e)).
    + intros H; inversion H; subst. split; [apply grows_refl|discriminate].
    + destruct (is_oserror (kind e)).
      * destruct (negb ok || negb (is_dir fs (rev []))) eqn:B;
          intros H; inversion H; subst;
          (split; [apply grows_refl|]); [discriminate|].
        intros _. apply orb_false_iff in B. destruct B as [_ B].
        now apply negb_false_iff in B.
      * intros H; inversion H; subst. split; [apply grows_refl|discriminate].
  - intros H; inversion H; subst. split.
    + eapply os_mkdir_grows; eauto.
    + intros _. eapply os_mkdir_is_dir; eauto.
  - assert (fs1 = fs).
    { apply os_mkdir_inv in E.
      destruct E as [(? & _)|(? & _ & ? & _)]; [discriminate|assumption]. }
    subst fs1.
    destruct (is_file_not_found (kind e)).
    + destruct (Pathlib.mkdir_parents_rev env true rp fs) as [[[]|e1] fs2]
        eqn:E1.
      * intros H. apply mkdir_one_spec in H. destruct H as [Hg Hd].
        apply IH in E1. destruct E1 as [Hg1 _].
        split; [eapply grows_trans; eauto|assumption].
      * intros H; inversion H; subst. apply IH in E1.
        destruct E1 as [Hg1 _]. split; [assumption|discriminate].
    + destruct (is_oserror (kind e)).
      * destruct (negb ok || negb (is_dir fs (rev (s :: rp)))) eqn:B;
          intros H; inversion H; subst;
          (split; [apply grows_refl|]); [discriminate|].
        intros _. apply orb_false_iff in B. destruct B as [_ B].
        now apply negb_false_iff in B.
      * intros H; inversion H; subst. split; [apply grows_refl|discriminate].
Qed.

(** [mkdir(parents=True, exist_ok=True)] only adds directories, and when it
    returns the path is a directory. *)
Lemma mkdir_p_spec env p fs r fs' :
  Pathlib.mkdir_p env p fs = (r, fs') ->
  grows fs fs' /\ (r = Return tt -> is_dir fs' p = true).
Proof.
  unfold Pathlib.mkdir_p. intros H. apply mkdir_parents_rev_spec in H.
  now rewrite rev_involutive in H.
Qed.

End MkdirFacts.

Module TransferFacts.

Import FS FSFacts OpFacts.

(** [copy2] either raises and changes nothing, or writes a copy of the
    regular file [src] at the destination, which is [dst] or, when [dst] is
    a directory, the entry of the same name in it. *)
Lemma copy2_cases env src dst fs r fs' :
  Shutil.copy2 env src dst fs = (r, fs') ->
  (exists e, r = Raise e /\ fs' = fs)
  \/ (r = Return tt /\
      exists m d,
        lookup fs src = Some (File m d) /\ readable m = true /\
        fs' = set_at (if is_dir fs dst then dst // PurePath.name src else dst)
                (Some (File (Shutil.copied_meta env m) d)) fs).
Proof.
  unfold Shutil.copy2.
  set (dst' := if is_dir fs dst then dst // PurePath.name src else dst).
  destruct (path_eqb src dst' && exists_ fs src).
  { intros H; inversion H; subst. left. eauto. }
  destruct (resolve fs src) as [[m d|m es]| |] eqn:Es;
    try (intros H; inversion H; subst; left; eauto; fail).
  destruct (readable m) eqn:R; simpl;
    [|intros H; inversion H; subst; left; eauto].
  apply lookup_resolve in Es.
  destruct (resolve fs dst') as [[m' d'|m' es']| |];
    try (intros H; inversion H; subst; left; eauto; fail).
  - intros H; inversion H; subst. right. split; eauto.
  - destruct (is_dir fs (PurePath.parent dst'));
      intros H; inversion H; subst; [right; split; eauto|left; eauto].
Qed.

Lemma copy2_frame env src dst fs r fs' q :
  Shutil.copy2 env src dst fs = (r, fs') ->
  PurePath.relative_to q dst = None -> untouched fs fs' q.
Proof.
  intros H Hq. apply copy2_cases in H.
  destruct H as [(e & _ & ->)|(_ & m & d & _ & _ & ->)].
  - apply untouched_refl.
  - apply untouched_set_at. destruct (is_dir fs dst); [|assumption].
    now apply relative_to_none_deeper.
Qed.

Lemma unlink_cases p fs r fs' :
  Os.unlink p fs = (r, fs') ->
  (exists e, r = Raise e /\ fs' = fs)
  \/ (r = Return tt /\ is_file fs p = true /\ fs' = set_at p None fs).
Proof.
  unfold Os.unlink. destruct (resolve fs p) as [[m d|m es]| |] eqn:E;
    intros H; inversion H; subst; try (left; eauto; fail).
  right. repeat split. apply lookup_resolve in E. unfold is_file.
  now rewrite E.
Qed.

(** [os.rename] to a path that does not exist, in a directory that does. *)
Lemma rename_fresh src dst fs :
  resolve fs dst = NoEnt -> is_dir fs (PurePath.parent dst) = true ->
  Os.rename src dst fs =
  match resolve fs src with
  | Found n =>
      if path_eqb src dst then (Return tt, fs)
      else
        match n, PurePath.relative_to dst src with
        | Dir _ _, Some _ =>
            (Raise (os_error2 OSError "[Errno 22] Invalid argument"
                      src dst), fs)
        | _, _ => (Return tt, set_at dst (Some n) (set_at src None fs))
        end
  | _ => (Raise (Os.rename_error fs src dst), fs)
  end.
Proof.
  intros Hd Hp. unfold Os.rename. rewrite Hd, Hp.
  destruct (resolve fs src) as [[m d|m es]| |]; try reflexivity;
    destruct (path_eqb src dst); try reflexivity;
    destruct (PurePath.relative_to dst src); reflexivity.
Qed.

(** Below an existing node that is not a directory no directory has a
    place for a new entry. *)
Lemma above_fresh_is_dir fs src dst n r :
  lookup fs src = Some n -> PurePath.relative_to dst src = Some r ->
  src <> dst -> is_dir fs (PurePath.parent dst) = true ->
  is_dir fs src = true.
Proof.
  intros Hs Hr Hne Hp. apply relative_to_some in Hr. subst dst.
  destruct r as [|x r]; [now rewrite app_nil_r in Hne|].
  unfold PurePath.parent in Hp. rewrite removelast_app in Hp by discriminate.
  destruct (removelast (x :: r)) as [|y r'] eqn:E.
  - now rewrite app_nil_r in Hp.
  - apply is_dir_lookup in Hp. destruct Hp as (m & es & Hp).
    eapply lookup_below; eauto.
Qed.

(** [shutil.move] to a path that does not exist, in a directory that does:
    it raises and changes nothing, or the node at [src] is at [dst] and no
    longer at [src]. *)
Lemma move_fresh env src dst fs r fs' :
  exists_ fs dst = false -> is_dir fs (PurePath.parent dst) = true ->
  dst <> [] ->
  Shutil.move env src dst fs = (r, fs') ->
  (exists e, r = Raise e /\ fs' = fs)
  \/ (r = Return tt /\
      exists n,
        lookup fs src = Some n /\ PurePath.relative_to dst src = None /\
        fs' = set_at dst (Some n) (set_at src None fs)).
Proof.
  intros Hex Hp Hne.
  assert (Hres : resolve fs dst = NoEnt) by now apply fresh_resolve.
  assert (Hnd : is_dir fs dst = false).
  { unfold is_dir, exists_ in *. now destruct (lookup fs dst). }
  unfold Shutil.move, Shutil.rename_or_copy. unfold_m. rewrite Hnd.
  rewrite (rename_fresh src dst fs Hres Hp).
  destruct (resolve fs src) as [n| |] eqn:Es.
  - pose proof (proj2 (lookup_resolve fs src n) Es) as Hl.
    destruct (path_eqb src dst) eqn:Eq.
    + apply path_eqb_eq in Eq. subst dst. unfold exists_ in Hex.
      now rewrite Hl in Hex.
    + apply path_eqb_neq in Eq.
      destruct (PurePath.relative_to dst src) as [x|] eqn:Er.
      * pose proof (above_fresh_is_dir fs src dst n x Hl Er Eq Hp) as Hdir.
        destruct n as [m d|m es].
        { unfold is_dir in Hdir. rewrite Hl in Hdir. discriminate. }
        simpl. rewrite Hdir.
        intros H; inversion H; subst. left. eauto.
      * destruct n as [m d|m es];
          intros H; inversion H; subst; right; split; eauto.
  - unfold Os.rename_error. rewrite Es. simpl.
    destruct (is_dir fs src) eqn:D.
    + intros H; inversion H; subst. left. eauto.
    + intros H.
      destruct (Shutil.copy2 env src dst fs) as [[[]|e] fs1] eqn:Ec.
      * apply copy2_cases in Ec.
        destruct Ec as [(e & He & _)|(_ & m & d & Hl & _)]; [discriminate|].
        apply lookup_resolve in Hl. congruence.
      * apply copy2_cases in Ec.
        destruct Ec as [(e' & He & ->)|(He & _)]; [|discriminate].
        inversion H; subst. left. eauto.
  - unfold Os.rename_error. rewrite Es. simpl.
    destruct (is_dir fs src) eqn:D.
    + intros H; inversion H; subst. left. eauto.
    + intros H.
      destruct (Shutil.copy2 env src dst fs) as [[[]|e] fs1] eqn:Ec.
      * apply copy2_cases in Ec.
        destruct Ec as [(e & He & _)|(_ & m & d & Hl & _)]; [discriminate|].
        apply lookup_resolve in Hl. congruence.
      * apply copy2_cases in Ec.
        destruct Ec as [(e' & He & ->)|(He & _)]; [|discriminate].
        inversion H; subst. left. eauto.
Qed.

(** After the move the destination holds the node and the source is
    gone. *)
Lemma moved_lookup fs src dst n :
  lookup fs src = Some n -> exists_ fs dst = false ->
  is_dir fs (PurePath.parent dst) = true -> dst <> [] ->
  PurePath.relative_to dst src = None ->
  let fs' := set_at dst (Some n) (set_at src None fs) in
  lookup fs' dst = Some n /\ lookup fs' src = None.
Proof.
  intros Hs Hex Hp Hne Hrel fs'.
  assert (Hsrc : src <> []).
  { intros ->. simpl in Hrel. discriminate. }
  assert (Hsd : PurePath.relative_to src dst = None).
  { apply (relative_to_fresh fs); [|assumption].
    unfold exists_. now rewrite Hs. }
  split_path dst Hne d s.
  assert (Hpd : PurePath.relative_to d src = None).
  { destruct (PurePath.relative_to d src) eqn:E; [|reflexivity].
    apply relative_to_some in E. rewrite E in Hrel.
    unfold PurePath.joinpath in Hrel.
    rewrite <- app_assoc, relative_to_app in Hrel. discriminate. }
  split.
  - apply lookup_set_at_same.
    rewrite (untouched_is_dir fs); [assumption|].
    now apply untouched_set_at.
  - apply (untouched_none (set_at src None fs)).
    + now apply untouched_set_at.
    + split_path src Hsrc d' s'. apply lookup_set_at_same.
      unfold PurePath.joinpath in Hs. eapply lookup_below; eauto.
Qed.

(** After writing a new file the destination holds it and every node that
    existed keeps its shape. *)
Lemma created_lookup fs dst f q x :
  exists_ fs dst = false -> is_dir fs (PurePath.parent dst) = true ->
  dst <> [] -> lookup fs q = Some x ->
  let fs' := set_at dst (Some f) fs in
  lookup fs' dst = Some f /\
  option_map shape (lookup fs' q) = Some (shape x).
Proof.
  intros Hex Hp Hne Hq fs'. split.
  - split_path dst Hne d s. now apply lookup_set_at_same.
  - unfold fs'. rewrite lookup_set_at_frame; [now rewrite Hq|].
    apply (relative_to_fresh fs); [|assumption].
    unfold exists_. now rewrite Hq.
Qed.

End TransferFacts.

(* ================================================================= *)
(** ** One file of the relocation loop *)

Module RelocateFacts.

Import FS FSFacts OpFacts MkdirFacts TransferFacts.

Lemma padded_years : forallb (padded_ok 4) (seq 1 (Z.to_nat 9999)) = true.
Proof. vm_compute. reflexivity. Qed.

Lemma padded_months : forallb (padded_ok 2) (seq 1 12) = true.
Proof. vm_compute. reflexivity. Qed.

Lemma padded_ok_spec (w n : nat) :
  padded_ok w n = true ->
  String.length (PyStr.zero_pad w n) = w /\
  PyStr.ascii_digits (PyStr.zero_pad w n) = true /\
  decimal_value (PyStr.zero_pad w n) = Some (Z.of_nat n).
Proof.
  unfold padded_ok. intros H.
  apply andb_true_iff in H. destruct H as [H H3].
  apply andb_true_iff in H. destruct H as [H1 H2].
  apply Nat.eqb_eq in H1.
  destruct (decimal_value (PyStr.zero_pad w n)); [|discriminate].
  apply Z.eqb_eq in H3. subst. auto.
Qed.

(** The year of a [datetime] prints as four ASCII digits that denote it,
    the month as two. *)
Lemma year_str_spec (dt : datetime) :
  (1 <= dt_year dt <= 9999)%Z ->
  String.length (year_str dt) = 4 /\
  PyStr.ascii_digits (year_str dt) = true /\
  decimal_value (year_str dt) = Some (dt_year dt).
Proof.
  intros H. unfold year_str.
  assert (Hin : In (Z.to_nat (dt_year dt)) (seq 1 (Z.to_nat 9999))).
  { apply in_seq. lia. }
  pose proof (proj1 (forallb_forall _ _) padded_years _ Hin) as Hok.
  apply padded_ok_spec in Hok. rewrite Z2Nat.id in Hok by lia. exact Hok.
Qed.

Lemma month_str_spec (dt : datetime) :
  (1 <= dt_month dt <= 12)%Z ->
  String.length (month_str dt) = 2 /\
  PyStr.ascii_digits (month_str dt) = true /\
  decimal_value (month_str dt) = Some (dt_month dt).
Proof.
  intros H. unfold month_str.
  assert (Hin : In (Z.to_nat (dt_month dt)) (seq 1 12)).
  { apply in_seq. lia. }
  pose proof (proj1 (forallb_forall _ _) padded_months _ Hin) as Hok.
  apply padded_ok_spec in Hok. rewrite Z2Nat.id in Hok by lia. exact Hok.
Qed.

Lemma fromtimestamp_cases env ts fs r fs' :
  fromtimestamp env ts fs = (r, fs') ->
  fs' = fs /\
  match r with
  | Return dt =>
      localtime env ts = Some (dt_year dt, dt_month dt) /\
      (1 <= dt_year dt <= 9999)%Z /\ (1 <= dt_month dt <= 12)%Z
  | Raise _ => True
  end.
Proof.
  unfold fromtimestamp. destruct (localtime env ts) as [[y m]|].
  - destruct ((1 <=? y)%Z && (y <=? 9999)%Z && (1 <=? m)%Z && (m <=? 12)%Z)
      eqn:B; intros H; inversion H; subst; split; auto.
    simpl. repeat (apply andb_true_iff in B; destruct B as [B ?]).
    repeat split; lia.
  - intros H; inversion H; subst. auto.
Qed.

Lemma stat_cases p fs r fs' :
  Os.stat p fs = (r, fs') ->
  fs' = fs /\
  match r with
  | Return st => exists n, lookup fs p = Some n /\ st = node_meta n
  | Raise _ => lookup fs p = None
  end.
Proof.
  unfold Os.stat, lookup. destruct (resolve fs p) as [n| |];
    intros H; inversion H; subst; split; eauto.
Qed.

(** The copy or the move to a destination that does not exist, in a
    directory that does. *)
Lemma transfer_fresh env options dt src dst fs r fs' :
  exists_ fs dst = false -> is_dir fs (PurePath.parent dst) = true ->
  dst <> [] ->
  transfer env options dt src dst fs = (r, fs') ->
  (exists e, r = Raise e /\ fs' = fs)
  \/ (exists line n,
        r = Return line /\ lookup fs src = Some n /\
        if copy_no_backup options then
          exists m d,
            n = File m d /\
            fs' = set_at dst (Some (File (Shutil.copied_meta env m) d)) fs
        else
          PurePath.relative_to dst src = None /\
          fs' = set_at dst (Some n) (set_at src None fs)).
Proof.
  intros Hex Hp Hne. unfold transfer. unfold_m.
  destruct (copy_no_backup options).
  - destruct (Shutil.copy2 env src dst fs) as [[[]|e] fs1] eqn:E;
      intros H; inversion H; subst; apply copy2_cases in E.
    + destruct E as [(e & He & _)|(_ & m & d & Hl & _ & ->)]; [discriminate|].
      right. do 2 eexists. repeat split; [eassumption|].
      exists m, d. split; [reflexivity|].
      assert (Hnd : is_dir fs dst = false).
      { unfold is_dir, exists_ in *. now destruct (lookup fs dst). }
      now rewrite Hnd.
    + destruct E as [(e' & _ & ->)|(He & _)]; [|discriminate].
      left. eauto.
  - destruct (Shutil.move env src dst fs) as [[[]|e] fs1] eqn:E;
      intros H; inversion H; subst;
      apply (move_fresh env src dst fs _ _ Hex Hp Hne) in E.
    + destruct E as [(e & He & _)|(_ & n & Hl & Hr & ->)]; [discriminate|].
      right. do 2 eexists. repeat split; eauto.
    + destruct E as [(e' & _ & ->)|(He & _)]; [|discriminate].
      left. eauto.
Qed.

(** The course of [relocate_one]: it fails before changing anything, or it
    makes the directory and then either fails there or runs the copy or the
    move to a destination that does not exist in that directory. *)
Lemma relocate_one_cases env options src fs r fs' :
  relocate_one env options src fs = (r, fs') ->
  (exists e, r = Raise e /\ fs' = fs)
  \/ exists n dt r1 fs1,
       lookup fs src = Some n /\
       localtime env (chosen_time options (node_meta n))
         = Some (dt_year dt, dt_month dt) /\
       (1 <= dt_year dt <= 9999)%Z /\ (1 <= dt_month dt <= 12)%Z /\
       Pathlib.mkdir_p env (dest_dir_of options dt) fs = (r1, fs1) /\
       ((exists e, r1 = Raise e /\ r = Raise e /\ fs' = fs1)
        \/ (r1 = Return tt /\
            transfer env options dt src
              (unique_destination_path fs1
                 (dest_dir_of options dt // PurePath.name src)) fs1
            = (r, fs'))).
Proof.
  unfold relocate_one. unfold bind at 1.
  destruct (Os.stat src fs) as [[st|e] fs0] eqn:Es;
    apply stat_cases in Es; destruct Es as [-> Es].
  2:{ intros H; inversion H; subst. left. eauto. }
  destruct Es as (n & Hl & ->). unfold bind at 1.
  destruct (fromtimestamp env (chosen_time options (node_meta n)) fs)
    as [[dt|e] fs0] eqn:Et;
    apply fromtimestamp_cases in Et; destruct Et as [-> Et].
  2:{ intros H; inversion H; subst. left. eauto. }
  destruct Et as (Hlt & Hy & Hm). unfold bind at 1.
  destruct (Pathlib.mkdir_p env (dest_dir_of options dt) fs)
    as [[[]|e] fs1] eqn:Em; intros H; right;
    exists n, dt; do 2 eexists; repeat split; try eassumption; try lia.
  - right. split; [reflexivity|]. exact H.
  - left. inversion H; subst. eauto.
Qed.

End RelocateFacts.

(* ================================================================= *)
(** ** The loops *)

Module LoopFacts.

#[local] Arguments relocate_step : simpl never.
#[local] Arguments backup_one : simpl never.

Lemma relocate_step_eq env options moved errors logs src fs :
  relocate_step env options (moved, errors, logs) src fs =
  match relocate_one env options src fs with
  | (Return line, fs') => (Return (S moved, errors, logs ++ [line]), fs')
  | (Raise e, fs') =>
      (Return (moved, S errors, logs ++ [error_line src e]), fs')
  end.
Proof.
  unfold relocate_step. unfold_m.
  now destruct (relocate_one env options src fs) as [[line|e] fs'].
Qed.

Lemma relocate_step_total env options acc src fs :
  exists acc' fs', relocate_step env options acc src fs = (Return acc', fs').
Proof.
  destruct acc as [[moved errors] logs]. rewrite relocate_step_eq.
  destruct (relocate_one env options src fs) as [[line|e] fs']; eauto.
Qed.

(** The loop never raises. *)
Lemma relocate_loop_total env options files :
  forall acc fs,
    exists acc' fs',
      relocate_loop env options files acc fs = (Return acc', fs').
Proof.
  induction files as [|src rest IH]; intros acc fs; simpl.
  - unfold ret. eauto.
  - unfold bind.
    destruct (relocate_step_total env options acc src fs) as (a & f & ->).
    apply IH.
Qed.

Lemma relocate_loop_app env options pre post :
  forall acc fs,
    relocate_loop env options (pre ++ post) acc fs =
    (acc1 <- relocate_loop env options pre acc ;;
     relocate_loop env options post acc1) fs.
Proof.
  induction pre as [|src pre IH]; intros acc fs; simpl.
  - reflexivity.
  - unfold bind at 1 2 3.
    destruct (relocate_step env options acc src fs) as [[a|e] f];
      [|reflexivity].
    apply IH.
Qed.

(** Each round adds one to one of the two counters and one line to the
    log. *)
Lemma relocate_loop_counts env options files :
  forall moved errors logs fs moved' errors' logs' fs',
    relocate_loop env options files (moved, errors, logs) fs
      = (Return (moved', errors', logs'), fs') ->
    moved' + errors' = moved + errors + List.length files /\
    List.length logs' = List.length logs + List.length files.
Proof.
  induction files as [|src rest IH];
    intros moved errors logs fs moved' errors' logs' fs'; simpl.
  - unfold ret. intros H; inversion H; subst. lia.
  - unfold bind. rewrite relocate_step_eq.
    destruct (relocate_one env options src fs) as [[line|e] f];
      intros H; apply IH in H; rewrite length_app in H; simpl in H; lia.
Qed.

Lemma backup_loop_total env base files :
  forall errors logs fs,
    exists errors' logs' fs',
      backup_loop env base files errors logs fs
        = (Return (errors', logs'), fs').
Proof.
  induction files as [|src rest IH]; intros errors logs fs; simpl.
  - unfold ret. eauto.
  - unfold_m. destruct (backup_one env base src fs) as [[[]|e] f];
      apply IH.
Qed.

Lemma backup_phase_total env options files fs :
  exists b_errors b_logs fsb,
    backup_phase env options files fs = (Return (b_errors, b_logs), fsb) /\
    (copy_no_backup options = true ->
     b_errors = 0 /\ b_logs = [] /\ fsb = fs).
Proof.
  unfold backup_phase, _backup_files.
  destruct (copy_no_backup options); simpl.
  - unfold ret. do 3 eexists. split; [reflexivity|auto].
  - destruct (backup_loop_total env (base_dir options) files 0 [] fs)
      as (e & l & f & ->).
    do 3 eexists. split; [reflexivity|discriminate].
Qed.

(** [sort_files] after a scan that found files. *)
Lemma sort_files_scanned env options fs files fs0 :
  gather_files (base_dir options) (include_subdirs options) fs
    = (Return files, fs0) ->
  files <> [] ->
  sort_files env options fs =
  (bk <- backup_phase env options files ;;
   relocate_loop env options files (0, 0 + fst bk, [] ++ snd bk)) fs0.
Proof.
  intros Hg Hne. unfold sort_files. unfold bind at 1. rewrite Hg.
  destruct files; [congruence|reflexivity].
Qed.

(** [sort_files] after a scan that found nothing. *)
Lemma sort_files_empty_scan env options fs :
  fst (gather_files (base_dir options) (include_subdirs options) fs)
    = Return [] ->
  sort_files env options fs = (Return (0, 0, [no_files_line]), fs).
Proof.
  intros Hg. unfold sort_files. unfold bind at 1.
  pose proof (gather_files_readonly (base_dir options)
                (include_subdirs options) fs) as Hro.
  destruct (gather_files (base_dir options) (include_subdirs options) fs)
    as [r f]. simpl in *. subst. reflexivity.
Qed.

(** The scan returns regular files only. *)
Lemma gather_files_regular base rec fs files fs0 :
  gather_files base rec fs = (Return files, fs0) ->
  Forall (fun p => FS.is_file fs p = true) files.
Proof.
  unfold gather_files. destruct rec; unfold_m.
  - intros H; inversion H; subst. apply Forall_forall.
    intros q Hq. apply filter_In in Hq. tauto.
  - destruct (Os.iterdir base fs) as [[ps|e] f] eqn:E; [|discriminate].
    assert (f = fs).
    { unfold Os.iterdir in E.
      destruct (FS.resolve fs base) as [[m d|m es]| |]; try discriminate.
      destruct (readable m); inversion E; reflexivity. }
    subst f. intros H; inversion H; subst. apply Forall_forall.
    intros q Hq. apply filter_In in Hq. tauto.
Qed.

(** The turn of a file in the loop. *)
Lemma relocate_loop_turn env options pre src post acc fs acc1 fs1 :
  relocate_loop env options pre acc fs = (Return acc1, fs1) ->
  relocate_loop env options (pre ++ src :: post) acc fs =
  (acc2 <- relocate_step env options acc1 src ;;
   relocate_loop env options post acc2) fs1.
Proof.
  intros Hpre. rewrite relocate_loop_app. unfold bind at 1. rewrite Hpre.
  reflexivity.
Qed.

(** The turn of a file in a run of [sort_files]: the scan, the backup
    stage, the files before it, then the file and the files after it. *)
Lemma sort_files_turn env options fs0 pre src post bk fsb acc1 fs1 :
  gather_files (base_dir options) (include_subdirs options) fs0
    = (Return (pre ++ src :: post), fs0) ->
  backup_phase env options (pre ++ src :: post) fs0 = (Return bk, fsb) ->
  relocate_loop env options pre (0, 0 + fst bk, [] ++ snd bk) fsb
    = (Return acc1, fs1) ->
  sort_files env options fs0 =
  (acc2 <- relocate_step env options acc1 src ;;
   relocate_loop env options post acc2) fs1.
Proof.
  intros Hg Hb Hpre.
  rewrite (sort_files_scanned env options fs0 _ fs0 Hg)
    by (now destruct pre).
  unfold bind at 1. rewrite Hb.
  now apply relocate_loop_turn.
Qed.

(** Only the scan can make [sort_files] raise. *)
Lemma sort_files_raise env options fs e fs' :
  sort_files env options fs = (Raise e, fs') ->
  gather_files (base_dir options) (include_subdirs options) fs
    = (Raise e, fs').
Proof.
  unfold sort_files. unfold bind at 1.
  destruct (gather_files _ _ fs) as [[files|e0] fs0] eqn:Hg;
    [|intros H; inversion H; reflexivity].
  destruct files as [|f files]; [discriminate|].
  unfold bind.
  destruct (backup_phase_total env options (f :: files) fs0)
    as (be & bl & fsb & -> & _).
  destruct (relocate_loop_total env options (f :: files)
              (0, 0 + fst (be, bl), [] ++ snd (be, bl)) fsb)
    as (acc & fs2 & ->).
  discriminate.
Qed.

End LoopFacts.

(* ================================================================= *)
(** ** The run *)

Import LoopFacts.

(** C5, the behaviour of the code.  When the base directory cannot be
    listed (it is missing, is not a directory, or may not be read) a
    non-recursive run raises the error of the listing and changes nothing,
    and a recursive run, whose walk skips such a directory in silence,
    returns the result of a scan that found no file. *)
Theorem sort_files_unlistable_base (env : Env) (options : SortOptions)
  (fs : node) :
  listable fs (base_dir options) = false ->
  (include_subdirs options = false ->
   exists e, sort_files env options fs = (Raise e, fs) /\
             is_oserror (kind e) = true) /\
  (include_subdirs options = true ->
   sort_files env options fs = (Return (0, 0, [no_files_line]), fs)).
Proof.
  intros Hl. unfold listable, FS.lookup in Hl. split; intros Hrec.
  - unfold sort_files, gather_files. rewrite Hrec. unfold bind at 1 2.
    unfold Os.iterdir, Os.resolve_error.
    destruct (FS.resolve fs (base_dir options)) as [[m d|m es]| |];
      try (eexists; split; [reflexivity|reflexivity]).
    rewrite Hl. eexists; split; reflexivity.
  - unfold sort_files, gather_files. rewrite Hrec. unfold bind, gets.
    unfold gathered, Os.walk, FS.lookup.
    destruct (FS.resolve fs (base_dir options)) as [[m d|m es]| |];
      try reflexivity.
    simpl. rewrite Hl. reflexivity.
Qed.

(** C6.  In a run of [sort_files], when the turn of a candidate file comes
    and its relocation raises, the run goes on with the files after it
    from the filesystem the failed attempt left, with the error counter
    one higher and the line [Error moving <name>: <kind>: <message>]
    appended to the log; the run returns; and [sort_files] raises only
    what the scan raised. *)
Theorem relocation_errors_are_caught (env : Env) (options : SortOptions)
  (fs0 fsb fs1 fs2 : node) (pre post : list path) (src : path)
  (bk : nat * list string) (moved errors : nat) (logs : list string)
  (e : exn) :
  gather_files (base_dir options) (include_subdirs options) fs0
    = (Return (pre ++ src :: post), fs0) ->
  backup_phase env options (pre ++ src :: post) fs0 = (Return bk, fsb) ->
  relocate_loop env options pre (0, 0 + fst bk, [] ++ snd bk) fsb
    = (Return (moved, errors, logs), fs1) ->
  relocate_one env options src fs1 = (Raise e, fs2) ->
  sort_files env options fs0 =
    relocate_loop env options post
      (moved, S errors,
       logs ++ ["Error moving " ^^ PurePath.name src ^^ ": "
                  ^^ kind_name (kind e) ^^ ": " ^^ message e]) fs2 /\
  (exists t fs3, sort_files env options fs0 = (Return t, fs3)) /\
  (forall fs e0 fs',
      sort_files env options fs = (Raise e0, fs') ->
      gather_files (base_dir options) (include_subdirs options) fs
        = (Raise e0, fs')).
Proof.
  intros Hg Hb Hpre Hone.
  assert (Hrun : sort_files env options fs0 =
                 relocate_loop env options post
                   (moved, S errors, logs ++ [error_line src e]) fs2).
  { rewrite (sort_files_turn _ _ _ _ _ _ _ _ _ _ Hg Hb Hpre).
    unfold bind at 1. rewrite relocate_step_eq, Hone. reflexivity. }
  split; [exact Hrun|]. split.
  - rewrite Hrun. apply relocate_loop_total.
  - intros fs e0 fs'. apply sort_files_raise.
Qed.

(** C7, as amended.  In a run that reaches the relocation phase the two
    counts add up to the number of candidate files plus the number of
    errors of the backup stage, which [sort_files] adds to its error
    count; without a backup stage they add up to the number of candidate
    files. *)
Theorem counts_cover_candidates_and_backup_errors (env : Env)
  (options : SortOptions) (fs fs0 : node) (files : list path) :
  gather_files (base_dir options) (include_subdirs options) fs
    = (Return files, fs0) ->
  files <> [] ->
  exists b_errors b_logs fsb moved errors logs fs',
    backup_phase env options files fs0 = (Return (b_errors, b_logs), fsb) /\
    sort_files env options fs = (Return (moved, errors, logs), fs') /\
    moved + errors = List.length files + b_errors /\
    (copy_no_backup options = true ->
     b_errors = 0 /\ moved + errors = List.length files).
Proof.
  intros Hg Hne. rewrite (sort_files_scanned env options fs files fs0 Hg Hne).
  unfold bind.
  destruct (backup_phase_total env options files fs0)
    as (be & bl & fsb & Hb & Hcopy).
  rewrite Hb.
  destruct (relocate_loop_total env options files
              (0, 0 + fst (be, bl), [] ++ snd (be, bl)) fsb)
    as ([[moved errors] logs] & fs' & Hloop).
  exists be, bl, fsb, moved, errors, logs, fs'.
  pose proof (relocate_loop_counts _ _ _ _ _ _ _ _ _ _ _ Hloop) as [Hc _].
  simpl in Hc. repeat split; try assumption; try lia.
  - destruct (Hcopy H) as [-> _]. reflexivity.
  - destruct (Hcopy H) as [-> _]. lia.
Qed.

(** C8.  When the scan returns no file [sort_files] returns zero moved,
    zero errors and the single line [No files found.], and the filesystem
    is as it was: no directory made, no backup. *)
Theorem sort_files_nothing_to_do (env : Env) (options : SortOptions)
  (fs : node) :
  fst (gather_files (base_dir options) (include_subdirs options) fs)
    = Return [] ->
  sort_files env options fs = (Return (0, 0, ["No files found."]), fs).
Proof. apply sort_files_empty_scan. Qed.

(* ================================================================= *)
(** ** A file that is relocated *)

Module SuccessFacts.

Import FS FSFacts OpFacts MkdirFacts TransferFacts RelocateFacts.

(** The destination chosen in a directory: the name or a numbered name. *)
Lemma unique_destination_name fs d nm :
  exists nm',
    unique_destination_path fs (d // nm) = d // nm' /\
    (nm' = nm \/
     exists i, 1 <= i /\
       nm' = fst (PurePath.split_name nm) ^^ " (" ^^ PyStr.str_of_nat i
               ^^ ")" ^^ snd (PurePath.split_name nm)).
Proof.
  destruct (unique_destination_fresh fs (d // nm)) as (_ & _ & [H|H]).
  - exists nm. auto.
  - destruct H as (i & Hi & H). rewrite H. unfold candidate.
    rewrite parent_join. unfold PurePath.stem, PurePath.suffix.
    rewrite name_join. eexists. split; [reflexivity|]. right. eauto.
Qed.

Lemma dest_dir_nonempty options dt : dest_dir_of options dt <> [].
Proof.
  unfold dest_dir_of, PurePath.joinpath.
  intros H. apply app_eq_nil in H. destruct H; discriminate.
Qed.

(** The destination chosen in the directory just made does not exist, and
    its parent is that directory. *)
Lemma destination_fresh options dt src fsd :
  is_dir fsd (dest_dir_of options dt) = true ->
  exists_ fsd (unique_destination_path fsd
                 (dest_dir_of options dt // PurePath.name src)) = false /\
  is_dir fsd (PurePath.parent
                (unique_destination_path fsd
                   (dest_dir_of options dt // PurePath.name src))) = true /\
  unique_destination_path fsd (dest_dir_of options dt // PurePath.name src)
    <> [].
Proof.
  intros Hd.
  set (P := dest_dir_of options dt // PurePath.name src) in *.
  destruct (unique_destination_fresh fsd P) as (Hfresh & Hpar & _).
  unfold P in Hpar. rewrite parent_join in Hpar. fold P in Hpar.
  split; [exact Hfresh|]. split; [now rewrite Hpar|].
  intros E. rewrite E in Hpar. simpl in Hpar. symmetry in Hpar.
  now apply dest_dir_nonempty in Hpar.
Qed.

(** What a successful [relocate_one] did. *)
Lemma relocate_one_success env options src fs line fs2 :
  relocate_one env options src fs = (Return line, fs2) ->
  exists n dt fsd n1,
    lookup fs src = Some n /\
    localtime env (chosen_time options (node_meta n))
      = Some (dt_year dt, dt_month dt) /\
    (1 <= dt_year dt <= 9999)%Z /\ (1 <= dt_month dt <= 12)%Z /\
    Pathlib.mkdir_p env (dest_dir_of options dt) fs = (Return tt, fsd) /\
    grows fs fsd /\
    is_dir fsd (dest_dir_of options dt) = true /\
    exists_ fsd (unique_destination_path fsd
                   (dest_dir_of options dt // PurePath.name src)) = false /\
    lookup fsd src = Some n1 /\ shape n1 = shape n /\
    if copy_no_backup options then
      exists m d,
        n1 = File m d /\
        fs2 = set_at (unique_destination_path fsd
                        (dest_dir_of options dt // PurePath.name src))
                (Some (File (Shutil.copied_meta env m) d)) fsd
    else
      PurePath.relative_to
        (unique_destination_path fsd
           (dest_dir_of options dt // PurePath.name src)) src = None /\
      fs2 = set_at (unique_destination_path fsd
                      (dest_dir_of options dt // PurePath.name src))
              (Some n1) (set_at src None fsd).
Proof.
  intros H. apply relocate_one_cases in H.
  destruct H as [(e & He & _)|H]; [discriminate|].
  destruct H as (n & dt & r1 & fsd & Hl & Hlt & Hy & Hm & Hmk & H).
  destruct H as [(e & _ & He & _)|(-> & Ht)]; [discriminate|].
  pose proof (mkdir_p_spec _ _ _ _ _ Hmk) as [Hg Hd].
  specialize (Hd eq_refl).
  set (P := dest_dir_of options dt // PurePath.name src) in *.
  destruct (unique_destination_fresh fsd P) as (Hfresh & Hpar & _).
  unfold P in Hpar. rewrite parent_join in Hpar. fold P in Hpar.
  assert (Hne : unique_destination_path fsd P <> []).
  { intros E. rewrite E in Hpar. simpl in Hpar. symmetry in Hpar.
    now apply dest_dir_nonempty in Hpar. }
  assert (Hpd : is_dir fsd (PurePath.parent (unique_destination_path fsd P))
                = true) by now rewrite Hpar.
  apply (transfer_fresh _ _ _ _ _ _ _ _ Hfresh Hpd Hne) in Ht.
  destruct Ht as [(e & He & _)|(l & n1 & Hr & Hl1 & Hbody)]; [discriminate|].
  exists n, dt, fsd, n1. repeat split; try assumption; try lia.
  pose proof (grows_shape _ _ _ _ Hg Hl) as Hs. rewrite Hl1 in Hs.
  simpl in Hs. congruence.
Qed.

End SuccessFacts.

Import SuccessFacts.

(* ================================================================= *)
(** ** What a run leaves alone *)

Module RunFacts.

Import FS FSFacts OpFacts MkdirFacts TransferFacts RelocateFacts ScanFacts.

#[local] Arguments relocate_step : simpl never.
#[local] Arguments backup_one : simpl never.

Lemma prefix_append (p x : string) : String.prefix p (p ^^ x) = true.
Proof.
  induction p as [|c p IH]; simpl; [now destruct x|].
  destruct (Ascii.ascii_dec c c); [exact IH|congruence].
Qed.

(** The backup root is a directory the scan does not keep. *)
Lemma backup_root_not_kept env :
  keep_dir (backup_prefix ^^ " " ^^ now_stamp env) = false.
Proof.
  unfold keep_dir, PyStr.startswith. now rewrite prefix_append.
Qed.

(** No file of the scan lies in the backup of a file of the scan. *)
Lemma candidate_outside_backup env base q rel :
  below_kept base q -> rel <> [] ->
  PurePath.relative_to q (backup_root env base ++ rel) = None.
Proof.
  intros (ds & name & -> & Hds) Hrel.
  destruct (PurePath.relative_to _ _) as [r|] eqn:E; [|reflexivity].
  exfalso. apply relative_to_some in E.
  unfold backup_root, PurePath.joinpath in E. rewrite <- !app_assoc in E.
  apply app_inv_head in E. cbn [app] in E.
  destruct ds as [|d0 ds]; cbn [app] in E.
  - destruct rel; [congruence|discriminate].
  - assert (E1 : d0 = backup_prefix ^^ " " ^^ now_stamp env) by congruence.
    apply Forall_inv in Hds. rewrite E1, backup_root_not_kept in Hds.
    discriminate.
Qed.

Lemma backup_one_keeps env base src fs r fs' q m d :
  below_kept base src -> below_kept base q ->
  lookup fs q = Some (File m d) ->
  backup_one env base src fs = (r, fs') ->
  lookup fs' q = Some (File m d).
Proof.
  intros (ds & name & -> & Hds) Hq Hl. unfold backup_one.
  rewrite relative_to_app. unfold_m.
  destruct (Pathlib.mkdir_p env _ fs) as [[[]|e] fs1] eqn:Em;
    apply mkdir_p_spec in Em; destruct Em as [Hg _].
  - intros Hc. apply (copy2_frame _ _ _ _ _ _ q) in Hc.
    + apply (untouched_file _ _ _ m d) in Hc. apply Hc.
      now apply (grows_file fs fs1).
    + apply candidate_outside_backup; [assumption|].
      now destruct ds.
  - intros H; inversion H; subst. now apply (grows_file fs fs').
Qed.

Lemma backup_loop_keeps env base files q m d :
  Forall (below_kept base) files -> below_kept base q ->
  forall errors logs fs r fs',
    lookup fs q = Some (File m d) ->
    backup_loop env base files errors logs fs = (r, fs') ->
    lookup fs' q = Some (File m d).
Proof.
  intros Hall Hq. induction files as [|src rest IH];
    intros errors logs fs r fs' Hl; simpl.
  - unfold ret. intros H; inversion H; subst. exact Hl.
  - apply Forall_cons_iff in Hall. destruct Hall as [Hsrc Hall].
    unfold_m.
    destruct (backup_one env base src fs) as [[[]|e] f] eqn:E;
      apply (backup_one_keeps _ _ _ _ _ _ q m d Hsrc Hq Hl) in E;
      now apply IH.
Qed.

(** The backup stage leaves the files of the scan as they are. *)
Lemma backup_phase_keeps env options files fs bk fsb q m d :
  Forall (below_kept (base_dir options)) files ->
  below_kept (base_dir options) q ->
  lookup fs q = Some (File m d) ->
  backup_phase env options files fs = (Return bk, fsb) ->
  lookup fsb q = Some (File m d).
Proof.
  intros Hall Hq Hl. unfold backup_phase, _backup_files.
  destruct (copy_no_backup options); cbn [negb].
  - unfold ret. intros H; inversion H; subst. exact Hl.
  - now apply backup_loop_keeps.
Qed.

(** The filesystem [relocate_one] leaves: new directories, and then
    nothing more, or a new file at a path that did not exist, or the
    node of the source at such a path and nothing at the source. *)
Lemma relocate_one_effect env options src fs r fs' :
  relocate_one env options src fs = (r, fs') ->
  exists fsd,
    grows fs fsd /\
    (fs' = fsd
     \/ exists dst,
          exists_ fsd dst = false /\
          ((exists f, fs' = set_at dst (Some f) fsd)
           \/ (exists n n1,
                 lookup fs src = Some n /\ lookup fsd src = Some n1 /\
                 fs' = set_at dst (Some n1) (set_at src None fsd)))).
Proof.
  intros H. apply relocate_one_cases in H.
  destruct H as [(e & _ & ->)|H].
  { exists fs. split; [apply grows_refl|now left]. }
  destruct H as (n & dt & r1 & fsd & Hl & _ & _ & _ & Hmk & H).
  pose proof (mkdir_p_spec _ _ _ _ _ Hmk) as [Hg Hd].
  exists fsd. split; [exact Hg|].
  destruct H as [(e & _ & _ & ->)|(-> & Ht)]; [now left|].
  specialize (Hd eq_refl).
  destruct (SuccessFacts.destination_fresh options dt src fsd Hd)
    as (Hfresh & Hpd & Hne).
  apply (transfer_fresh _ _ _ _ _ _ _ _ Hfresh Hpd Hne) in Ht.
  destruct Ht as [(e & _ & ->)|(l & n1 & _ & Hl1 & Hbody)]; [now left|].
  right. eexists. split; [exact Hfresh|].
  destruct (copy_no_backup options).
  - destruct Hbody as (m & d & _ & ->). left. eauto.
  - destruct Hbody as (_ & ->). right. exists n, n1. auto.
Qed.

(** [relocate_one] leaves alone what is not its source, when the source is
    a regular file or is missing. *)
Lemma relocate_one_keeps env options src fs r fs' q x :
  lookup fs q = Some x -> q <> src ->
  is_file fs src = true \/ lookup fs src = None ->
  relocate_one env options src fs = (r, fs') ->
  option_map shape (lookup fs' q) = Some (shape x).
Proof.
  intros Hq Hne Hsrc H. apply relocate_one_effect in H.
  destruct H as (fsd & Hg & H).
  pose proof (grows_shape _ _ _ _ Hg Hq) as Hqd.
  destruct H as [->|(dst & Hfresh & H)]; [exact Hqd|].
  assert (Hex : exists_ fsd q = true).
  { unfold exists_. destruct (lookup fsd q); [reflexivity|discriminate]. }
  pose proof (relative_to_fresh fsd q dst Hex Hfresh) as Hrel.
  destruct H as [(f & ->)|(n & n1 & Hl & Hl1 & ->)].
  - now rewrite lookup_set_at_frame.
  - rewrite lookup_set_at_frame by assumption.
    rewrite lookup_set_at_frame; [exact Hqd|].
    destruct Hsrc as [Hfile|Hnone]; [|congruence].
    apply is_file_lookup in Hfile. destruct Hfile as (m & d & Hfile).
    apply (grows_file fs fsd src m d Hg) in Hfile.
    eapply relative_to_file; eauto.
Qed.

Lemma relocate_step_keeps env options acc src fs r fs' q x :
  lookup fs q = Some x -> q <> src ->
  is_file fs src = true \/ lookup fs src = None ->
  relocate_step env options acc src fs = (r, fs') ->
  option_map shape (lookup fs' q) = Some (shape x).
Proof.
  intros Hq Hne Hsrc. destruct acc as [[moved errors] logs].
  rewrite LoopFacts.relocate_step_eq.
  destruct (relocate_one env options src fs) as [[line|e] f] eqn:E;
    intros H; inversion H; subst;
    eapply relocate_one_keeps; eauto.
Qed.

Lemma shape_is_file fs q m d :
  lookup fs q = Some (File m d) -> is_file fs q = true.
Proof. unfold is_file. now intros ->. Qed.

Lemma kept_file fs' q m d :
  option_map shape (lookup fs' q) = Some (shape (File m d)) ->
  lookup fs' q = Some (File m d).
Proof. intros H. exact (proj1 (option_shape_file _ _ _) H). Qed.

(** The loop over files that are regular and listed once leaves alone
    what is not in the list. *)
Lemma relocate_loop_keeps env options files :
  NoDup files ->
  forall acc fs r fs' q x,
    (forall p, In p files -> is_file fs p = true) ->
    lookup fs q = Some x -> ~ In q files ->
    relocate_loop env options files acc fs = (r, fs') ->
    option_map shape (lookup fs' q) = Some (shape x).
Proof.
  induction files as [|src rest IH]; intros Hnd acc fs r fs' q x Hreg Hq Hnin;
    simpl.
  - unfold ret. intros H; inversion H; subst. now rewrite Hq.
  - apply NoDup_cons_iff in Hnd. destruct Hnd as [Hsrc Hnd].
    unfold bind.
    destruct (LoopFacts.relocate_step_total env options acc src fs)
      as (acc' & f & Hstep).
    rewrite Hstep. intros Hloop.
    assert (Hfile : is_file fs src = true) by (apply Hreg; now left).
    assert (Hqf : option_map shape (lookup f q) = Some (shape x)).
    { eapply relocate_step_keeps; eauto.
      intros ->. apply Hnin. now left. }
    destruct (lookup f q) as [y|] eqn:Ey; [|discriminate].
    assert (Hs : shape y = shape x) by (simpl in Hqf; congruence).
    rewrite <- Hs.
    eapply (IH Hnd acc' f r fs' q y); eauto.
    + intros p Hp.
      assert (Hp' : is_file fs p = true) by (apply Hreg; now right).
      apply is_file_lookup in Hp'. destruct Hp' as (m & d & Hp').
      eapply shape_is_file, kept_file.
      eapply relocate_step_keeps; eauto.
      intros ->. contradiction.
    + intros Hin. apply Hnin. now right.
Qed.

Lemma nodup_app_disjoint (A : Type) (l1 l2 : list A) (a : A) :
  NoDup (l1 ++ l2) -> In a l2 -> ~ In a l1.
Proof.
  induction l1 as [|b l1 IH]; simpl; intros Hnd Hin; [tauto|].
  apply NoDup_cons_iff in Hnd. destruct Hnd as [Hb Hnd].
  intros [->|H]; [|now apply IH].
  apply Hb. apply in_or_app. now right.
Qed.

(** When its turn comes a file of the scan is what it was when the loop
    started. *)
Lemma relocate_loop_turn_file env options pre rest acc fs acc1 fs1 :
  NoDup (pre ++ rest) ->
  (forall p, In p (pre ++ rest) -> is_file fs p = true) ->
  relocate_loop env options pre acc fs = (Return acc1, fs1) ->
  forall p, In p rest -> lookup fs1 p = lookup fs p.
Proof.
  intros Hnd Hreg Hloop p Hp.
  assert (Hfile : is_file fs p = true).
  { apply Hreg. apply in_or_app. now right. }
  apply is_file_lookup in Hfile. destruct Hfile as (m & d & Hfile).
  rewrite Hfile. apply kept_file.
  eapply (relocate_loop_keeps env options pre); eauto.
  - now apply NoDup_app_remove_r in Hnd.
  - intros q Hq. apply Hreg. apply in_or_app. now left.
  - eapply nodup_app_disjoint; eauto.
Qed.

(** The files of a scan of a tree without repeated names, when the loop
    starts: listed once, below the base directory, and regular files as
    they were scanned. *)
Lemma scanned_files_at_loop env options fs0 files bk fsb :
  wf fs0 ->
  gather_files (base_dir options) (include_subdirs options) fs0
    = (Return files, fs0) ->
  backup_phase env options files fs0 = (Return bk, fsb) ->
  NoDup files /\
  (forall p, In p files -> is_file fsb p = true) /\
  (forall p, In p files -> lookup fsb p = lookup fs0 p).
Proof.
  intros Hwf Hg Hb.
  pose proof (gather_files_nodup _ _ _ _ _ Hwf Hg) as Hnd.
  pose proof (gather_files_below _ _ _ _ _ Hg) as Hbelow.
  pose proof (LoopFacts.gather_files_regular _ _ _ _ _ Hg) as Hreg.
  rewrite Forall_forall in Hbelow, Hreg.
  assert (Hsame : forall p, In p files -> lookup fsb p = lookup fs0 p).
  { intros p Hp. specialize (Hreg p Hp). apply is_file_lookup in Hreg.
    destruct Hreg as (m & d & Hl). rewrite Hl.
    apply (backup_phase_keeps env options files fs0 bk fsb p m d);
      [apply Forall_forall; exact Hbelow|now apply Hbelow|exact Hl|exact Hb]. }
  split; [exact Hnd|]. split; [|exact Hsame].
  intros p Hp. unfold is_file. rewrite (Hsame p Hp).
  exact (Hreg p Hp).
Qed.

End RunFacts.

(** A failed copy or move after the directory was made. *)
Lemma failed_transfer_keeps_directory env options src fs1 fsd fs2 st dt e :
  Os.stat src fs1 = (Return st, fs1) ->
  fromtimestamp env (chosen_time options st) fs1 = (Return dt, fs1) ->
  Pathlib.mkdir_p env (dest_dir_of options dt) fs1 = (Return tt, fsd) ->
  transfer env options dt src
    (unique_destination_path fsd (dest_dir_of options dt // PurePath.name src))
    fsd = (Raise e, fs2) ->
  fs2 = fsd /\
  FS.is_dir fsd (base_dir options // year_str dt // month_str dt) = true /\
  FS.is_dir fsd (base_dir options // year_str dt) = true /\
  FS.is_dir fsd (base_dir options) = true /\
  relocate_one env options src fs1 = (Raise e, fs2).
Proof.
  intros Hst Hts Hmk Htr.
  pose proof (MkdirFacts.mkdir_p_spec _ _ _ _ _ Hmk) as [Hg Hd].
  specialize (Hd eq_refl).
  set (P := dest_dir_of options dt // PurePath.name src) in *.
  destruct (unique_destination_fresh fsd P) as (Hfresh & Hpar & _).
  unfold P in Hpar. rewrite parent_join in Hpar. fold P in Hpar.
  assert (Hne : unique_destination_path fsd P <> []).
  { intros E. rewrite E in Hpar. simpl in Hpar. symmetry in Hpar.
    now apply dest_dir_nonempty in Hpar. }
  assert (Hpd : FS.is_dir fsd (PurePath.parent (unique_destination_path fsd P))
                = true) by now rewrite Hpar.
  assert (Hsame : fs2 = fsd).
  { apply (RelocateFacts.transfer_fresh _ _ _ _ _ _ _ _ Hfresh Hpd Hne) in Htr.
    destruct Htr as [(e' & _ & ->)|(l & n1 & Hr & _)];
      [reflexivity|discriminate]. }
  subst fs2.
  assert (Hy : FS.is_dir fsd (base_dir options // year_str dt) = true).
  { apply FSFacts.is_dir_lookup in Hd. destruct Hd as (m & es & Hd).
    unfold dest_dir_of, PurePath.joinpath in Hd.
    eapply FSFacts.lookup_below; eauto. }
  assert (Hb : FS.is_dir fsd (base_dir options) = true).
  { apply FSFacts.is_dir_lookup in Hy. destruct Hy as (m & es & Hy).
    unfold PurePath.joinpath in Hy.
    eapply FSFacts.lookup_below; eauto. }
  repeat split; try assumption.
  unfold relocate_one. unfold bind at 1. rewrite Hst.
  unfold bind at 1. rewrite Hts. unfold bind at 1. rewrite Hmk.
  unfold bind at 1. unfold gets. exact Htr.
Qed.

(** C10.  In a run of [sort_files], when the turn of a candidate file
    comes, its timestamp is read and converted, the directory
    [base/YYYY/MM] is made and the copy or the move then raises, that
    directory and the directories above it exist in the filesystem the
    copy or the move started from and in the one it left; the attempt
    counts as one error, its line is logged, and the run goes on from the
    filesystem with the directory in it.  On a filesystem where no
    directory lists a name twice the directory is still there when the
    run returns. *)
Theorem destination_directory_outlives_failed_transfer (env : Env)
  (options : SortOptions) (fs0 fsb fs1 fsd fs2 : node)
  (pre post : list path) (src : path) (bk : nat * list string)
  (moved errors : nat) (logs : list string)
  (st : meta) (dt : datetime) (e : exn) :
  gather_files (base_dir options) (include_subdirs options) fs0
    = (Return (pre ++ src :: post), fs0) ->
  backup_phase env options (pre ++ src :: post) fs0 = (Return bk, fsb) ->
  relocate_loop env options pre (0, 0 + fst bk, [] ++ snd bk) fsb
    = (Return (moved, errors, logs), fs1) ->
  Os.stat src fs1 = (Return st, fs1) ->
  fromtimestamp env (chosen_time options st) fs1 = (Return dt, fs1) ->
  Pathlib.mkdir_p env (base_dir options // year_str dt // month_str dt) fs1
    = (Return tt, fsd) ->
  transfer env options dt src
    (unique_destination_path fsd
       (base_dir options // year_str dt // month_str dt // PurePath.name src))
    fsd = (Raise e, fs2) ->
  FS.is_dir fsd (base_dir options // year_str dt // month_str dt) = true /\
  FS.is_dir fsd (base_dir options // year_str dt) = true /\
  FS.is_dir fsd (base_dir options) = true /\
  FS.is_dir fs2 (base_dir options // year_str dt // month_str dt) = true /\
  FS.is_dir fs2 (base_dir options // year_str dt) = true /\
  FS.is_dir fs2 (base_dir options) = true /\
  relocate_one env options src fs1 = (Raise e, fs2) /\
  sort_files env options fs0 =
    relocate_loop env options post
      (moved, S errors, logs ++ [error_line src e]) fs2 /\
  (wf fs0 ->
   forall t fs3,
     sort_files env options fs0 = (Return t, fs3) ->
     FS.is_dir fs3 (base_dir options // year_str dt // month_str dt) = true).
Proof.
  intros Hg Hb Hpre Hst Hts Hmk Htr.
  destruct (failed_transfer_keeps_directory env options src fs1 fsd fs2 st dt
              e Hst Hts Hmk Htr) as (-> & Hd & Hy & Hbase & Hone).
  assert (Hrun : sort_files env options fs0 =
                 relocate_loop env options post
                   (moved, S errors, logs ++ [error_line src e]) fsd).
  { rewrite (sort_files_turn _ _ _ _ _ _ _ _ _ _ Hg Hb Hpre).
    unfold bind at 1. rewrite relocate_step_eq, Hone. reflexivity. }
  repeat split; try assumption.
  intros Hwf t fs3 Hend. rewrite Hrun in Hend.
  destruct (RunFacts.scanned_files_at_loop env options fs0 _ bk fsb
              Hwf Hg Hb) as (Hnd & Hregb & Hsame).
  pose proof (RunFacts.relocate_loop_turn_file env options pre
                (src :: post) _ fsb _ fs1 Hnd Hregb Hpre) as Hturn.
  pose proof (MkdirFacts.mkdir_p_spec _ _ _ _ _ Hmk) as [Hgrow _].
  assert (Hndp : NoDup post).
  { apply NoDup_app_remove_l in Hnd. now apply NoDup_cons_iff in Hnd. }
  assert (Hfile : forall p, In p post -> FS.is_file fsd p = true).
  { intros p Hp. rewrite (OpFacts.grows_is_file fs1 fsd p Hgrow).
    unfold FS.is_file. rewrite (Hturn p (or_intror Hp)).
    apply Hregb. apply in_or_app. right. now right. }
  apply FSFacts.is_dir_lookup in Hd. destruct Hd as (m & es & Hd).
  assert (Hnin : ~ In (base_dir options // year_str dt // month_str dt) post).
  { intros Hin. apply Hfile in Hin. unfold FS.is_file in Hin.
    now rewrite Hd in Hin. }
  pose proof (RunFacts.relocate_loop_keeps env options post Hndp _ _ _ _ _ _
                Hfile Hd Hnin Hend) as Hkeep.
  unfold FS.is_dir.
  destruct (FS.lookup fs3 (base_dir options // year_str dt // month_str dt))
    as [[m' d'|m' es']|]; [discriminate|reflexivity|discriminate].
Qed.

(** A successful relocation: where the file is afterwards. *)
Lemma relocated_at_destination env options src fs1 line fs2 :
  relocate_one env options src fs1 = (Return line, fs2) ->
  exists n dt nm,
    FS.lookup fs1 src = Some n /\
    localtime env (if use_ctime options then st_ctime (node_meta n)
                   else st_mtime (node_meta n))
      = Some (dt_year dt, dt_month dt) /\
    String.length (year_str dt) = 4 /\
    PyStr.ascii_digits (year_str dt) = true /\
    decimal_value (year_str dt) = Some (dt_year dt) /\
    String.length (month_str dt) = 2 /\
    PyStr.ascii_digits (month_str dt) = true /\
    decimal_value (month_str dt) = Some (dt_month dt) /\
    (nm = PurePath.name src \/
     exists i, 1 <= i /\
       nm = PurePath.stem src ^^ " (" ^^ PyStr.str_of_nat i ^^ ")"
              ^^ PurePath.suffix src) /\
    FS.exists_ fs1 (base_dir options // year_str dt // month_str dt // nm)
      = false /\
    (if copy_no_backup options then
       exists m d,
         n = File m d /\
         FS.lookup fs2 (base_dir options // year_str dt // month_str dt // nm)
           = Some (File (Shutil.copied_meta env m) d) /\
         FS.lookup fs2 src = Some (File m d)
     else
       exists n',
         FS.lookup fs2 (base_dir options // year_str dt // month_str dt // nm)
           = Some n' /\
         shape n' = shape n /\
         FS.lookup fs2 src = None).
Proof.
  intros Hone.
  pose proof (relocate_one_success _ _ _ _ _ _ Hone) as H.
  destruct H as (n & dt & fsd & n1 & Hl & Hlt & Hy & Hm & Hmk & Hg & Hd
                   & Hfresh & Hl1 & Hs & Hbody).
  fold (dest_dir_of options dt).
  destruct (unique_destination_name fsd (dest_dir_of options dt)
              (PurePath.name src)) as (nm & Hdest & Hnm).
  rewrite Hdest in *.
  assert (Hpd : FS.is_dir fsd (PurePath.parent (dest_dir_of options dt // nm))
                = true) by now rewrite parent_join.
  assert (Hne : dest_dir_of options dt // nm <> []).
  { unfold PurePath.joinpath. intros E. apply app_eq_nil in E.
    destruct E; discriminate. }
  destruct (RelocateFacts.year_str_spec dt Hy) as (Y1 & Y2 & Y3).
  destruct (RelocateFacts.month_str_spec dt Hm) as (M1 & M2 & M3).
  exists n, dt, nm.
  split; [exact Hl|]. split; [exact Hlt|].
  split; [exact Y1|]. split; [exact Y2|]. split; [exact Y3|].
  split; [exact M1|]. split; [exact M2|]. split; [exact M3|].
  split; [exact Hnm|]. split.
  { change (FS.exists_ fs1 (dest_dir_of options dt // nm) = false).
    destruct (FS.exists_ fs1 (dest_dir_of options dt // nm)) eqn:E;
      [|reflexivity].
    apply (OpFacts.grows_exists _ _ _ Hg) in E. congruence. }
  destruct (copy_no_backup options).
  - destruct Hbody as (m & d & -> & ->).
    simpl in Hs. symmetry in Hs. apply FSFacts.shape_file in Hs. subst n.
    exists m, d. split; [reflexivity|].
    destruct (TransferFacts.created_lookup fsd (dest_dir_of options dt // nm)
                (File (Shutil.copied_meta env m) d) src (File m d)
                Hfresh Hpd Hne Hl1) as [Hdst Hsrc].
    split; [exact Hdst|]. simpl in Hsrc.
    exact (proj1 (FSFacts.option_shape_file _ _ _) Hsrc).
  - destruct Hbody as (Hrel & ->).
    destruct (TransferFacts.moved_lookup fsd src
                (dest_dir_of options dt // nm) n1 Hl1 Hfresh Hpd Hne Hrel)
      as [Hdst Hsrc].
    exists n1. auto.
Qed.

(** C1.  In a run of [sort_files], when the turn of a candidate file (a
    regular file when scanned) comes and its relocation succeeds, the
    destination is [base/YYYY/MM/<name or "stem (i)suffix">], where [YYYY]
    is four ASCII digits that denote the year and [MM] two that denote the
    month of the creation time ([st_ctime]) when [use_ctime] is set and of
    the modification time otherwise, in local time; nothing was at the
    destination before.  With [copy_no_backup] the source is a regular
    file, the destination holds a copy of it and the source is as it was,
    and the backup stage did nothing: no error, no line, the filesystem
    as scanned.  Otherwise the destination holds what was at the source
    (the same kind, metadata and data) and nothing is at the source path
    any more.  The run goes on with one more success and the line of the
    copy or the move logged.  On a filesystem where no directory lists a
    name twice the file relocated is the file as it was scanned, and what
    the destination holds it still holds when the run returns. *)
Theorem relocated_file_is_under_year_month (env : Env)
  (options : SortOptions) (fs0 fsb fs1 fs2 : node)
  (pre post : list path) (src : path) (bk : nat * list string)
  (moved errors : nat) (logs : list string) (line : string) :
  gather_files (base_dir options) (include_subdirs options) fs0
    = (Return (pre ++ src :: post), fs0) ->
  backup_phase env options (pre ++ src :: post) fs0 = (Return bk, fsb) ->
  relocate_loop env options pre (0, 0 + fst bk, [] ++ snd bk) fsb
    = (Return (moved, errors, logs), fs1) ->
  relocate_one env options src fs1 = (Return line, fs2) ->
  FS.is_file fs0 src = true /\
  (exists n dt nm,
    FS.lookup fs1 src = Some n /\
    localtime env (if use_ctime options then st_ctime (node_meta n)
                   else st_mtime (node_meta n))
      = Some (dt_year dt, dt_month dt) /\
    String.length (year_str dt) = 4 /\
    PyStr.ascii_digits (year_str dt) = true /\
    decimal_value (year_str dt) = Some (dt_year dt) /\
    String.length (month_str dt) = 2 /\
    PyStr.ascii_digits (month_str dt) = true /\
    decimal_value (month_str dt) = Some (dt_month dt) /\
    (nm = PurePath.name src \/
     exists i, 1 <= i /\
       nm = PurePath.stem src ^^ " (" ^^ PyStr.str_of_nat i ^^ ")"
              ^^ PurePath.suffix src) /\
    FS.exists_ fs1 (base_dir options // year_str dt // month_str dt // nm)
      = false /\
    (if copy_no_backup options then
       exists m d,
         n = File m d /\
         FS.lookup fs2 (base_dir options // year_str dt // month_str dt // nm)
           = Some (File (Shutil.copied_meta env m) d) /\
         FS.lookup fs2 src = Some (File m d)
     else
       exists n',
         FS.lookup fs2 (base_dir options // year_str dt // month_str dt // nm)
           = Some n' /\
         shape n' = shape n /\
         FS.lookup fs2 src = None) /\
    (wf fs0 ->
     FS.lookup fs0 src = Some n /\
     forall t fs3,
       sort_files env options fs0 = (Return t, fs3) ->
       FS.lookup fs3 (base_dir options // year_str dt // month_str dt // nm)
       = FS.lookup fs2 (base_dir options // year_str dt // month_str dt // nm)))
  /\
  (copy_no_backup options = true -> bk = (0, []) /\ fsb = fs0) /\
  sort_files env options fs0 =
    relocate_loop env options post (S moved, errors, logs ++ [line]) fs2.
Proof.
  intros Hg Hb Hpre Hone.
  assert (Hrun : sort_files env options fs0 =
                 relocate_loop env options post
                   (S moved, errors, logs ++ [line]) fs2).
  { rewrite (sort_files_turn _ _ _ _ _ _ _ _ _ _ Hg Hb Hpre).
    unfold bind at 1. rewrite relocate_step_eq, Hone. reflexivity. }
  assert (Hscan : FS.is_file fs0 src = true).
  { pose proof (gather_files_regular _ _ _ _ _ Hg) as Hreg.
    rewrite Forall_forall in Hreg. apply Hreg.
    apply in_or_app. right. now left. }
  split; [exact Hscan|]. split; [|split; [|exact Hrun]].
  - destruct (relocated_at_destination env options src fs1 line fs2 Hone)
      as (n & dt & nm & Hl & Hlt & Y1 & Y2 & Y3 & M1 & M2 & M3 & Hnm
            & Hfresh & Hbody).
    exists n, dt, nm.
    split; [exact Hl|]. split; [exact Hlt|].
    split; [exact Y1|]. split; [exact Y2|]. split; [exact Y3|].
    split; [exact M1|]. split; [exact M2|]. split; [exact M3|].
    split; [exact Hnm|]. split; [exact Hfresh|]. split; [exact Hbody|].
    intros Hwf.
    set (dest := base_dir options // year_str dt // month_str dt // nm) in *.
    destruct (RunFacts.scanned_files_at_loop env options fs0 _ bk fsb
                Hwf Hg Hb) as (Hnd & Hregb & Hsame).
    pose proof (RunFacts.relocate_loop_turn_file env options pre
                  (src :: post) _ fsb _ fs1 Hnd Hregb Hpre) as Hturn.
    assert (Hsrc : In src (pre ++ src :: post))
      by (apply in_or_app; right; now left).
    assert (Hl0 : FS.lookup fs0 src = Some n).
    { rewrite <- (Hsame src Hsrc), <- (Hturn src (or_introl eq_refl)).
      exact Hl. }
    split; [exact Hl0|].
    intros t fs3 Hend. rewrite Hrun in Hend.
    apply FSFacts.is_file_lookup in Hscan. destruct Hscan as (m & d & Hmd).
    assert (Hn : n = File m d) by congruence. subst n.
    assert (Hnd' : NoDup (src :: post)) by now apply NoDup_app_remove_l in Hnd.
    apply NoDup_cons_iff in Hnd'. destruct Hnd' as [Hsp Hndp].
    assert (Hfile1 : forall p, In p (src :: post) -> FS.is_file fs1 p = true).
    { intros p Hp. unfold FS.is_file. rewrite (Hturn p Hp).
      apply Hregb. apply in_or_app. now right. }
    assert (Hx : exists md dd, FS.lookup fs2 dest = Some (File md dd)).
    { destruct (copy_no_backup options).
      - destruct Hbody as (m' & d' & _ & Hd & _). eauto.
      - destruct Hbody as (n' & Hd & Hs & _). simpl in Hs.
        apply FSFacts.shape_file in Hs. subst n'. eauto. }
    destruct Hx as (md & dd & Hx). rewrite Hx.
    apply RunFacts.kept_file.
    eapply (RunFacts.relocate_loop_keeps env options post Hndp); eauto.
    + intros p Hp.
      pose proof (Hfile1 p (or_intror Hp)) as Hp1.
      apply FSFacts.is_file_lookup in Hp1. destruct Hp1 as (mp & dp & Hp1).
      eapply RunFacts.shape_is_file, RunFacts.kept_file.
      eapply RunFacts.relocate_one_keeps; eauto.
      * intros ->. contradiction.
      * left. apply Hfile1. now left.
    + intros Hin. pose proof (Hfile1 dest (or_intror Hin)) as Hd1.
      unfold FS.is_file, FS.exists_ in *.
      destruct (FS.lookup fs1 dest); discriminate.
  - intros Hcopy.
    destruct (backup_phase_total env options (pre ++ src :: post) fs0)
      as (be & bl & f & Hb' & Hskip).
    rewrite Hb in Hb'. inversion Hb'; subst.
    destruct (Hskip Hcopy) as (-> & -> & ->). auto.
Qed.

(* ================================================================= *)
(** ** A second run *)

Module SecondRunFacts.

Import FS FSFacts OpFacts MkdirFacts TransferFacts RelocateFacts.

#[local] Arguments relocate_step : simpl never.
#[local] Arguments backup_one : simpl never.

Lemma kept_refl fs q : kept fs fs q.
Proof.
  split; [reflexivity|]. intros x H. now rewrite H.
Qed.

Lemma kept_trans fs1 fs2 fs3 q :
  kept fs1 fs2 q -> kept fs2 fs3 q -> kept fs1 fs3 q.
Proof.
  intros [F12 S12] [F23 S23]. split; [congruence|].
  intros x Hx. specialize (S12 x Hx).
  destruct (lookup fs2 q) as [y|]; [|discriminate].
  simpl in S12. rewrite (S23 y eq_refl). exact S12.
Qed.

Lemma grows_kept fs fs' q : grows fs fs' -> kept fs fs' q.
Proof.
  intros H. split; [now apply grows_is_file|].
  intros x Hx. eapply grows_shape; eauto.
Qed.

Lemma untouched_kept fs fs' q : untouched fs fs' q -> kept fs fs' q.
Proof.
  intros H. split; [now apply untouched_is_file|].
  intros x Hx. apply untouched_lookup in H. now rewrite H, Hx.
Qed.

Lemma iterdir_cases p fs ps fs' :
  Os.iterdir p fs = (Return ps, fs') ->
  fs' = fs /\
  exists m es,
    lookup fs p = Some (Dir m es) /\ readable m = true /\
    ps = map (fun e => p // fst e) es.
Proof.
  unfold Os.iterdir. destruct (resolve fs p) as [[m d|m es]| |] eqn:E;
    try discriminate.
  destruct (readable m) eqn:R; [|discriminate].
  intros H; inversion H; subst. split; [reflexivity|].
  exists m, es. apply lookup_resolve in E. auto.
Qed.

(** The non-recursive scan: the regular files among the entries of the
    base directory, which can be listed. *)
Lemma gather_flat base fs files fs0 :
  gather_files base false fs = (Return files, fs0) ->
  fs0 = fs /\
  exists m es,
    lookup fs base = Some (Dir m es) /\ readable m = true /\
    files = filter (is_file fs) (map (fun e => base // fst e) es).
Proof.
  unfold gather_files. unfold_m.
  destruct (Os.iterdir base fs) as [[ps|e] f] eqn:E; [|discriminate].
  apply iterdir_cases in E. destruct E as (-> & m & es & Hl & Hr & ->).
  intros H; inversion H; subst. split; [reflexivity|].
  exists m, es. auto.
Qed.

Lemma gather_flat_children base fs files fs0 :
  gather_files base false fs = (Return files, fs0) ->
  Forall (fun src => exists s, src = base // s) files /\
  (forall s, is_file fs (base // s) = true -> In (base // s) files).
Proof.
  intros H. apply gather_flat in H.
  destruct H as (_ & m & es & Hl & _ & ->). split.
  - apply Forall_forall. intros src Hin. apply filter_In in Hin.
    destruct Hin as [Hin _]. apply in_map_iff in Hin.
    destruct Hin as (e & <- & _). eauto.
  - intros s Hs. apply filter_In. split; [|assumption].
    unfold is_file, PurePath.joinpath in Hs. rewrite lookup_app, Hl in Hs.
    rewrite lookup_cons_dir in Hs.
    destruct (assoc s es) as [c|] eqn:E; [|discriminate].
    apply assoc_in in E. apply in_map_iff in E.
    destruct E as (e & <- & He). apply in_map_iff. eauto.
Qed.

(** A scan of a directory without regular files among its entries. *)
Lemma gather_flat_empty base fs m es :
  lookup fs base = Some (Dir m es) -> readable m = true ->
  (forall s, is_file fs (base // s) = false) ->
  gather_files base false fs = (Return [], fs).
Proof.
  intros Hl Hr Hnone. unfold gather_files. unfold_m. unfold Os.iterdir.
  apply lookup_resolve in Hl. rewrite Hl, Hr. f_equal. f_equal.
  clear Hl. induction es as [|e es IH]; simpl; [reflexivity|].
  now rewrite Hnone.
Qed.

(** *** The backup stage and the entries of the base directory *)

Lemma shallow_frame (base q dst : path) :
  List.length q <= List.length base + 1 ->
  List.length base + 2 <= List.length dst ->
  PurePath.relative_to q dst = None.
Proof. intros Hq Hd. apply relative_to_shorter. lia. Qed.

Lemma backup_one_kept env base s fs r fs' q :
  backup_one env base (base // s) fs = (r, fs') ->
  List.length q <= List.length base + 1 ->
  kept fs fs' q.
Proof.
  unfold backup_one. unfold PurePath.joinpath.
  rewrite relative_to_app. unfold_m.
  destruct (Pathlib.mkdir_p env _ fs) as [[[]|e] fs1] eqn:Em.
  - intros Hc Hq. apply mkdir_p_spec in Em. destruct Em as [Hg _].
    eapply kept_trans; [apply grows_kept; eassumption|].
    apply untouched_kept. eapply copy2_frame; [eassumption|].
    apply (shallow_frame base); [assumption|].
    unfold backup_root, PurePath.joinpath. rewrite !length_app. simpl. lia.
  - intros H Hq. inversion H; subst. apply mkdir_p_spec in Em.
    destruct Em as [Hg _]. now apply grows_kept.
Qed.

Lemma backup_loop_kept env base files :
  Forall (fun src => exists s, src = base // s) files ->
  forall errors logs fs r fs' q,
    backup_loop env base files errors logs fs = (r, fs') ->
    List.length q <= List.length base + 1 ->
    kept fs fs' q.
Proof.
  induction files as [|src rest IH]; intros Hall errors logs fs r fs' q;
    simpl.
  - unfold ret. intros H _; inversion H; subst. apply kept_refl.
  - apply Forall_cons_iff in Hall. destruct Hall as [(s & ->) Hall].
    unfold_m.
    destruct (backup_one env base (base // s) fs) as [[[]|e] f] eqn:E;
      intros H Hq;
      (eapply kept_trans;
       [eapply backup_one_kept; eassumption|eapply IH; eassumption]).
Qed.

(** *** The relocation loop and the entries of the base directory *)

Lemma relocate_loop_errors_grow env options files :
  forall moved errors logs fs moved' errors' logs' fs',
    relocate_loop env options files (moved, errors, logs) fs
      = (Return (moved', errors', logs'), fs') ->
    errors <= errors'.
Proof.
  induction files as [|src rest IH];
    intros moved errors logs fs moved' errors' logs' fs'; simpl.
  - unfold ret. intros H; inversion H; subst. lia.
  - unfold bind. rewrite LoopFacts.relocate_step_eq.
    destruct (relocate_one env options src fs) as [[line|e] f];
      intros H; apply IH in H; lia.
Qed.

(** A successful move of an entry of the base directory: afterwards the
    regular files among the entries of the base directory are those there
    were, less the one moved, and the base directory keeps its shape. *)
Lemma moved_child env options s0 fs line fs2 :
  copy_no_backup options = false ->
  relocate_one env options (base_dir options // s0) fs = (Return line, fs2) ->
  (forall s, is_file fs2 (base_dir options // s) = true ->
             is_file fs (base_dir options // s) = true /\ s <> s0) /\
  kept fs fs2 (base_dir options).
Proof.
  intros Hmove Hone.
  apply SuccessFacts.relocate_one_success in Hone.
  destruct Hone as (n & dt & fsd & n1 & Hl & _ & _ & _ & _ & Hg & Hd
                      & Hfresh & Hl1 & _ & Hbody).
  rewrite Hmove in Hbody. destruct Hbody as (Hrel & ->).
  destruct (SuccessFacts.unique_destination_name fsd (dest_dir_of options dt)
              (PurePath.name (base_dir options // s0))) as (nm & Hdest & _).
  rewrite Hdest in *.
  set (base := base_dir options) in *.
  set (src := base // s0) in *.
  set (dest := dest_dir_of options dt // nm) in *.
  assert (Hlen : List.length base + 2 <= List.length dest).
  { unfold dest, dest_dir_of, PurePath.joinpath. fold base.
    rewrite !length_app. simpl. lia. }
  assert (Hbase : is_dir fsd base = true).
  { unfold src, PurePath.joinpath in Hl1. eapply lookup_below; eauto. }
  assert (Hgone : lookup (set_at src None fsd) src = None).
  { unfold src. now apply lookup_set_at_same. }
  assert (Hdst : forall q, List.length q <= List.length base + 1 ->
                      untouched (set_at src None fsd)
                        (set_at dest (Some n1) (set_at src None fsd)) q).
  { intros q Hq. apply untouched_set_at.
    now apply (shallow_frame base). }
  split.
  - intros s Hs.
    assert (Hq : List.length (base // s) <= List.length base + 1).
    { unfold PurePath.joinpath. rewrite length_app. simpl. lia. }
    rewrite (untouched_is_file _ _ _ (Hdst _ Hq)) in Hs.
    destruct (string_dec s s0) as [->|Hne].
    + fold src in Hs. unfold is_file in Hs. now rewrite Hgone in Hs.
    + split; [|assumption].
      rewrite (untouched_is_file fsd) in Hs.
      * now rewrite (grows_is_file fs fsd) in Hs.
      * apply untouched_set_at. now apply relative_to_sibling.
  - eapply kept_trans; [apply grows_kept; eassumption|].
    apply (kept_trans _ (set_at src None fsd)); apply untouched_kept.
    + apply untouched_set_at. apply relative_to_shorter.
      unfold src, PurePath.joinpath. rewrite length_app. simpl. lia.
    + apply Hdst. lia.
Qed.

(** A relocation loop in move mode over entries of the base directory
    that ends with the error count it started with: every regular file
    left among the entries of the base directory was there before and was
    not in the list. *)
Lemma relocate_loop_clears env options files :
  copy_no_backup options = false ->
  Forall (fun src => exists s, src = base_dir options // s) files ->
  forall moved errors logs fs moved' logs' fs',
    relocate_loop env options files (moved, errors, logs) fs
      = (Return (moved', errors, logs'), fs') ->
    (forall s, is_file fs' (base_dir options // s) = true ->
               is_file fs (base_dir options // s) = true /\
               ~ In (base_dir options // s) files) /\
    kept fs fs' (base_dir options).
Proof.
  intros Hmove. induction files as [|src rest IH];
    intros Hall moved errors logs fs moved' logs' fs'; simpl.
  - unfold ret. intros H; inversion H; subst. split; [auto|apply kept_refl].
  - apply Forall_cons_iff in Hall. destruct Hall as [(s0 & ->) Hall].
    unfold bind. rewrite LoopFacts.relocate_step_eq.
    destruct (relocate_one env options (base_dir options // s0) fs)
      as [[line|e] f] eqn:Hone; intros Hloop.
    + destruct (moved_child env options s0 fs line f Hmove Hone)
        as [Hstep Hkept].
      destruct (IH Hall _ _ _ _ _ _ _ Hloop) as [Hrest Hkept'].
      split; [|eapply kept_trans; eassumption].
      intros s Hs. destruct (Hrest s Hs) as [Hf Hnin].
      destruct (Hstep s Hf) as [Hfs Hne]. split; [assumption|].
      intros [Heq|Hin]; [|contradiction].
      unfold PurePath.joinpath in Heq. apply app_inv_head in Heq.
      inversion Heq. congruence.
    + apply relocate_loop_errors_grow in Hloop. lia.
Qed.

End SecondRunFacts.

(** C9.  After a non-recursive run in move mode that returned with no
    error, a second non-recursive run over the same base directory, at any
    later time and with any choice of timestamp and mode, finds no file:
    it returns zero moved, zero errors and the single line
    [No files found.], and leaves the filesystem as it found it. *)
Theorem second_run_finds_nothing (env env2 : Env)
  (options options2 : SortOptions) (fs fs' : node) (moved : nat)
  (logs : list string) :
  include_subdirs options = false ->
  copy_no_backup options = false ->
  sort_files env options fs = (Return (moved, 0, logs), fs') ->
  base_dir options2 = base_dir options ->
  include_subdirs options2 = false ->
  sort_files env2 options2 fs' = (Return (0, 0, ["No files found."]), fs').
Proof.
  intros Hflat Hmove Hrun Hbase Hflat2.
  apply sort_files_empty_scan. rewrite Hbase, Hflat2.
  destruct (gather_files (base_dir options) false fs) as [[files|e] fs0]
    eqn:Hg.
  2:{ unfold sort_files in Hrun. unfold bind at 1 in Hrun.
      rewrite Hflat, Hg in Hrun. discriminate. }
  pose proof (SecondRunFacts.gather_flat _ _ _ _ Hg)
    as (-> & m & es & Hl & Hr & Hfiles).
  destruct files as [|f files].
  - unfold sort_files in Hrun. unfold bind at 1 in Hrun.
    rewrite Hflat, Hg in Hrun. unfold ret in Hrun.
    inversion Hrun; subst fs'. now rewrite Hg.
  - rewrite <- Hflat in Hg.
    rewrite (sort_files_scanned env options fs (f :: files) fs Hg) in Hrun
      by discriminate.
    rewrite Hflat in Hg.
    unfold bind in Hrun.
    destruct (backup_phase env options (f :: files) fs)
      as [[[be bl]|e] fsb] eqn:Hb; [|discriminate].
    cbn [fst snd Nat.add app] in Hrun.
    pose proof (SecondRunFacts.relocate_loop_errors_grow _ _ _ _ _ _ _ _ _ _ _
                  Hrun) as Hle.
    assert (be = 0) by lia. subst be.
    destruct (SecondRunFacts.gather_flat_children _ _ _ _ Hg)
      as [Hchildren Hall].
    destruct (SecondRunFacts.relocate_loop_clears env options (f :: files)
                Hmove Hchildren _ _ _ _ _ _ _ Hrun) as [Hclear Hkept].
    assert (Hbk : forall q,
               List.length q <= List.length (base_dir options) + 1 ->
               kept fs fsb q).
    { intros q Hq. unfold backup_phase, _backup_files in Hb.
      rewrite Hmove in Hb. cbn [negb] in Hb.
      eapply SecondRunFacts.backup_loop_kept; eauto. }
    assert (Hnone : forall s,
               FS.is_file fs' (base_dir options // s) = false).
    { intros s. destruct (FS.is_file fs' (base_dir options // s)) eqn:E;
        [|reflexivity].
      destruct (Hclear s E) as [Hfb Hnin]. exfalso. apply Hnin. apply Hall.
      destruct (Hbk (base_dir options // s)) as [Hf _].
      - unfold PurePath.joinpath. rewrite length_app. simpl. lia.
      - congruence. }
    assert (Hdir : option_map shape (FS.lookup fs' (base_dir options))
                   = Some (Dir m [])).
    { destruct (Hbk (base_dir options)) as [_ Hs]; [lia|].
      specialize (Hs _ Hl).
      destruct (FS.lookup fsb (base_dir options)) as [y|] eqn:Ey;
        [|discriminate].
      destruct Hkept as [_ Hk]. rewrite (Hk y Ey).
      simpl in Hs. exact Hs. }
    destruct (FS.lookup fs' (base_dir options)) as [[m' d'|m' es']|] eqn:El;
      try discriminate.
    simpl in Hdir. inversion Hdir; subst m'.
    now rewrite (SecondRunFacts.gather_flat_empty _ _ _ _ El Hr Hnone).
Qed.

(* ================================================================= *)
(** ** More about the scan *)

Module ScanMore.

Import FS FSFacts ScanFacts OpFacts SecondRunFacts.

Lemma listable_iff fs p :
  listable fs p = true <->
  exists m es, lookup fs p = Some (Dir m es) /\ readable m = true.
Proof.
  unfold listable. split.
  - destruct (lookup fs p) as [[m d|m es]|]; try discriminate. eauto.
  - intros (m & es & -> & H). exact H.
Qed.

(** The errors of [iterdir] on a base that cannot be listed. *)
Lemma iterdir_unlistable fs p :
  listable fs p = false ->
  exists e,
    Os.iterdir p fs = (Raise e, fs) /\
    kind e =
      match resolve fs p with
      | Found (Dir _ _) => PermissionError
      | Found (File _ _) => NotADirectoryError
      | NotDir => NotADirectoryError
      | NoEnt => FileNotFoundError
      end.
Proof.
  unfold listable, lookup, Os.iterdir, Os.resolve_error.
  destruct (resolve fs p) as [[m d|m es]| |] eqn:E; intros H.
  - eexists; split; reflexivity.
  - rewrite H. eexists; split; reflexivity.
  - eexists; split; reflexivity.
  - eexists; split; reflexivity.
Qed.

Lemma file_child_in_names fs base m es s :
  lookup fs base = Some (Dir m es) ->
  is_file fs (base // s) = true -> In s (Os.file_names es).
Proof.
  intros Hl Hs. unfold is_file, PurePath.joinpath in Hs.
  rewrite lookup_app, Hl, lookup_cons_dir in Hs.
  destruct (assoc s es) as [c|] eqn:E; [|discriminate].
  rewrite lookup_nil in Hs. destruct c as [m0 d0|]; [|discriminate].
  apply assoc_in_entries in E. unfold Os.file_names.
  apply in_map_iff. exists (s, File m0 d0). split; [reflexivity|].
  apply filter_In. split; [assumption|reflexivity].
Qed.

Lemma under_year_month_short (rel : list string) :
  List.length rel < 3 -> under_year_month rel = false.
Proof.
  intros H. unfold under_year_month.
  destruct (Nat.leb_spec 3 (List.length rel)); [lia|reflexivity].
Qed.

Lemma walk_listable fs base m es :
  lookup fs base = Some (Dir m es) -> readable m = true ->
  exists ws,
    Os.walk keep_dir fs base
    = (base, filter keep_dir (Os.dir_names es), Os.file_names es) :: ws.
Proof.
  intros Hl Hr. unfold Os.walk. rewrite Hl, walk_node_dir, Hr. eauto.
Qed.


Lemma in_entries_assoc s c es :
  NoDup (map fst es) -> In (s, c) es -> assoc s es = Some c.
Proof.
  induction es as [|[t x] es IH]; simpl; intros Hn Hin; [destruct Hin|].
  apply NoDup_cons_iff in Hn. destruct Hn as [Hnin Hn].
  destruct Hin as [E|Hin].
  - inversion E; subst. now rewrite String.eqb_refl.
  - destruct (String.eqb_spec s t) as [->|_]; [|auto].
    exfalso. apply Hnin. apply in_map_iff. exists (t, c). auto.
Qed.

Lemma reached_iff keep ds :
  forall n,
    reached keep n ds = true <->
    Forall (fun d => keep d = true) ds /\
    forall k, k <= List.length ds -> listable n (firstn k ds) = true.
Proof.
  induction ds as [|d ds IH]; intros n.
  - destruct n as [m x|m es]; simpl.
    + split; [discriminate|]. intros [_ H]. apply (H 0). lia.
    + rewrite andb_true_r. split.
      * intros H. split; [constructor|]. intros k _.
        now destruct k.
      * intros [_ H]. apply (H 0). lia.
  - destruct n as [m x|m es].
    + simpl. split; [discriminate|]. intros [_ H]. apply (H 0). lia.
    + cbn [reached]. rewrite !andb_true_iff. split.
      * intros (Hr & Hk & H).
        destruct (assoc d es) as [c|] eqn:E; [|discriminate].
        apply IH in H. destruct H as [Hds Hl]. split; [now constructor|].
        intros [|k] Hle; [exact Hr|].
        cbn [firstn]. unfold listable. rewrite lookup_cons_dir, E.
        apply Hl. simpl in Hle. lia.
      * intros [Hds Hl]. split; [apply (Hl 0); simpl; lia|].
        split; [now apply Forall_inv in Hds|].
        assert (H1 := Hl 1 ltac:(simpl; lia)).
        cbn [firstn] in H1. unfold listable in H1.
        rewrite lookup_cons_dir in H1.
        destruct (assoc d es) as [c|] eqn:E; [|discriminate].
        apply IH. split; [now apply Forall_inv_tail in Hds|].
        intros k Hle. specialize (Hl (S k) ltac:(simpl; lia)).
        cbn [firstn] in Hl. unfold listable in Hl.
        now rewrite lookup_cons_dir, E in Hl.
Qed.

(** Every directory the walk can reach is yielded, with its files. *)
Lemma walk_node_complete keep ds :
  forall n root m es,
    reached keep n ds = true -> lookup n ds = Some (Dir m es) ->
    In (root ++ ds, filter keep (Os.dir_names es), Os.file_names es)
       (Os.walk_node keep root n).
Proof.
  induction ds as [|d ds IH]; intros n root m es Hr Hl.
  - rewrite lookup_nil in Hl. inversion Hl; subst.
    rewrite walk_node_dir. simpl in Hr. rewrite andb_true_r in Hr.
    rewrite Hr, app_nil_r. now left.
  - destruct n as [m0 x|m0 es0]; [discriminate|].
    cbn [reached] in Hr. rewrite !andb_true_iff in Hr.
    destruct Hr as (Hr & Hk & Hc).
    rewrite lookup_cons_dir in Hl.
    destruct (assoc d es0) as [c|] eqn:E; [|discriminate].
    rewrite walk_node_dir, Hr. right. apply in_flat_map.
    exists (d, c). split; [now apply assoc_in_entries|].
    cbn [fst snd]. rewrite Hk.
    assert (Hd : Os.is_dir_node c = true).
    { destruct c; [|reflexivity]. destruct ds; discriminate. }
    rewrite Hd. cbn [andb].
    replace (root ++ d :: ds) with (root // d ++ ds)
      by (unfold PurePath.joinpath; now rewrite <- app_assoc).
    now apply (IH c (root // d) m es).
Qed.

(** On a tree without repeated names the walk yields only directories it
    can reach, each with its own files. *)
Lemma walk_node_sound keep n :
  wf n ->
  forall root r dirs fls,
    In (r, dirs, fls) (Os.walk_node keep root n) ->
    exists ds m es,
      r = root ++ ds /\ reached keep n ds = true /\
      lookup n ds = Some (Dir m es) /\ fls = Os.file_names es.
Proof.
  induction n as [m d|m es IH] using node_ind_entries;
    intros Hwf root r dirs fls Hin; [destruct Hin|].
  rewrite walk_node_dir in Hin.
  destruct (readable m) eqn:R; [|destruct Hin].
  apply wf_dir in Hwf. destruct Hwf as [Hn Hsub].
  destruct Hin as [E|Hin].
  - inversion E; subst. exists [], m, es. rewrite app_nil_r.
    simpl. rewrite R. auto.
  - apply in_flat_map in Hin. destruct Hin as ([s c] & Hin & Hw).
    cbn [fst snd] in Hw.
    destruct (Os.is_dir_node c && keep s) eqn:K; [|destruct Hw].
    apply andb_true_iff in K. destruct K as [_ K].
    rewrite Forall_forall in IH, Hsub.
    destruct (IH _ Hin (Hsub _ Hin) _ _ _ _ Hw)
      as (ds & m1 & es1 & -> & Hr & Hl & ->).
    exists (s :: ds), m1, es1.
    assert (A : assoc s es = Some c) by now apply in_entries_assoc.
    repeat split.
    + unfold PurePath.joinpath. now rewrite <- app_assoc.
    + cbn [reached]. now rewrite R, K, A.
    + now rewrite lookup_cons_dir, A.
Qed.

Lemma in_walked_files p ws :
  In p (walked_files ws) <->
  exists root dirs fls nm,
    In (root, dirs, fls) ws /\ In nm fls /\ p = root // nm.
Proof.
  unfold walked_files. rewrite in_flat_map. split.
  - intros ([[root dirs] fls] & Hw & Hp). apply in_map_iff in Hp.
    destruct Hp as (nm & <- & Hnm). exists root, dirs, fls, nm. auto.
  - intros (root & dirs & fls & nm & Hw & Hnm & ->).
    exists (root, dirs, fls). split; [assumption|].
    apply in_map_iff. eauto.
Qed.

Lemma in_deep_scan base fs p :
  In p (filter (is_file fs) (gathered base fs)) <->
  In p (walked_files (Os.walk keep_dir fs base)) /\
  gathered_test base p = true /\ is_file fs p = true.
Proof.
  rewrite filter_In, gathered_filter, filter_In. tauto.
Qed.

Lemma gathered_test_below base rel :
  gathered_test base (base ++ rel) = negb (under_year_month rel).
Proof. unfold gathered_test. now rewrite relative_to_app. Qed.

(** The recursive scan, read on paths: what it must return, and on a tree
    without repeated names what it can return. *)
Lemma deep_scan_complete base fs ds nm :
  Forall (fun d => keep_dir d = true) ds ->
  (forall k, k <= List.length ds ->
             listable fs (base ++ firstn k ds) = true) ->
  is_file fs (base ++ ds ++ [nm]) = true ->
  under_year_month (ds ++ [nm]) = false ->
  In (base ++ ds ++ [nm]) (filter (is_file fs) (gathered base fs)).
Proof.
  intros Hk Hl Hf Hy. apply in_deep_scan.
  split; [|split; [|exact Hf]].
  - pose proof (Hl 0 ltac:(lia)) as H0. simpl in H0.
    rewrite app_nil_r in H0. apply listable_iff in H0.
    destruct H0 as (m & es & Hb & Hr).
    unfold Os.walk. rewrite Hb.
    assert (Hreach : reached keep_dir (Dir m es) ds = true).
    { apply reached_iff. split; [exact Hk|].
      intros k Hle. specialize (Hl k Hle). unfold listable in *.
      now rewrite lookup_app, Hb in Hl. }
    pose proof (Hl (List.length ds) ltac:(lia)) as Hd.
    rewrite firstn_all in Hd. apply listable_iff in Hd.
    destruct Hd as (m1 & es1 & Hd & _).
    apply in_walked_files.
    exists (base ++ ds), (filter keep_dir (Os.dir_names es1)),
      (Os.file_names es1), nm.
    split; [|split].
    + apply walk_node_complete with (m := m1); [exact Hreach|].
      now rewrite lookup_app, Hb in Hd.
    + apply (file_child_in_names fs (base ++ ds) m1 es1 nm Hd).
      unfold PurePath.joinpath. now rewrite <- app_assoc.
    + unfold PurePath.joinpath. now rewrite <- app_assoc.
  - rewrite gathered_test_below. now rewrite Hy.
Qed.

Lemma deep_scan_sound base fs p :
  wf fs ->
  In p (filter (is_file fs) (gathered base fs)) ->
  exists ds nm,
    p = base ++ ds ++ [nm] /\
    Forall (fun d => keep_dir d = true) ds /\
    (forall k, k <= List.length ds ->
               listable fs (base ++ firstn k ds) = true) /\
    is_file fs p = true /\
    under_year_month (ds ++ [nm]) = false.
Proof.
  intros Hwf Hin. apply in_deep_scan in Hin.
  destruct Hin as (Hw & Ht & Hf).
  apply in_walked_files in Hw.
  destruct Hw as (root & dirs & fls & nm & Hw & Hnm & ->).
  unfold Os.walk in Hw.
  destruct (lookup fs base) as [top|] eqn:Hb; [|destruct Hw].
  assert (Hwt : wf top) by (eapply wf_lookup; eauto).
  destruct (walk_node_sound _ _ Hwt _ _ _ _ Hw)
    as (ds & m & es & -> & Hr & Hl & ->).
  apply reached_iff in Hr. destruct Hr as [Hk Hlist].
  exists ds, nm. unfold PurePath.joinpath in *.
  rewrite <- app_assoc in *. split; [reflexivity|]. split; [exact Hk|].
  split; [|split; [exact Hf|]].
  - intros k Hle. specialize (Hlist k Hle). unfold listable in *.
    now rewrite lookup_app, Hb.
  - rewrite gathered_test_below in Ht. now apply negb_true_iff in Ht.
Qed.

Lemma keep_dir_iff d :
  keep_dir d = true <-> PyStr.startswith d backup_prefix = false.
Proof. unfold keep_dir. apply negb_true_iff. Qed.

End ScanMore.

Import ScanMore.


(** X2.  Every path the scan yields lies below the base directory, so that
    neither the [except ValueError] of [gather_files] nor the one of
    [_backup_files] is ever entered for it: the backup of a scanned file
    goes to the backup folder under the path of the file relative to the
    base. *)
Theorem scanned_paths_are_below_base (base : path) (rec : bool)
  (fs fs0 : node) (files : list path) :
  gather_files base rec fs = (Return files, fs0) ->
  (forall root dirs files_ name,
      In (root, dirs, files_) (Os.walk keep_dir fs base) ->
      In name files_ ->
      exists rel,
        PurePath.relative_to (root // name) base = Some rel /\ rel <> []) /\
  (forall p,
      In p files ->
      exists rel,
        PurePath.relative_to p base = Some rel /\ rel <> [] /\
        p = base ++ rel /\
        forall env,
          backup_one env base p =
          (Pathlib.mkdir_p env
             (PurePath.parent (backup_root env base ++ rel)) ;;;
           Shutil.copy2 env p (backup_root env base ++ rel))).
Proof.
  intros G. split.
  - intros root dirs files_ name Hw _.
    destruct (walk_kept _ _ _ _ _ _ Hw) as (ds & -> & _).
    exists (ds ++ [name]). unfold PurePath.joinpath.
    rewrite <- app_assoc, relative_to_app.
    split; [reflexivity|]. now destruct ds.
  - intros p Hin.
    pose proof (ScanFacts.gather_files_below _ _ _ _ _ G) as Hb.
    rewrite Forall_forall in Hb. destruct (Hb _ Hin) as (ds & nm & -> & _).
    exists (ds ++ [nm]).
    assert (R : PurePath.relative_to (base ++ ds ++ [nm]) base
                = Some (ds ++ [nm])) by apply relative_to_app.
    split; [exact R|]. split; [now destruct ds|]. split; [reflexivity|].
    intros env. unfold backup_one. now rewrite R.
Qed.



(* ================================================================= *)
(** ** More about names and their extensions *)

Module NameFacts.

Lemma rfind_dot_append (a b : string) :
  PyStr.rfind_dot (a ^^ b) =
  match PyStr.rfind_dot b with
  | Some j => Some (String.length a + j)
  | None => PyStr.rfind_dot a
  end.
Proof.
  induction a as [|c a IH]; simpl.
  - now destruct (PyStr.rfind_dot b).
  - rewrite IH. destruct (PyStr.rfind_dot b); [reflexivity|].
    reflexivity.
Qed.

(** The last dot of a string cuts it in two. *)
Lemma rfind_dot_some (s : string) (k : nat) :
  PyStr.rfind_dot s = Some k ->
  exists a b,
    s = a ^^ String "." b /\ String.length a = k /\
    PyStr.rfind_dot b = None.
Proof.
  revert k. induction s as [|c s IH]; simpl; intros k H; [discriminate|].
  destruct (PyStr.rfind_dot s) as [j|] eqn:E.
  - inversion H; subst. destruct (IH j eq_refl) as (a & b & -> & Hl & Hb).
    exists (String c a), b. simpl. auto.
  - destruct (Ascii.eqb_spec c ".") as [->|]; [|discriminate].
    inversion H; subst. exists EmptyString, s. auto.
Qed.

Lemma substring_prefix (a b : string) :
  substring 0 (String.length a) (a ^^ b) = a.
Proof.
  induction a as [|c a IH]; simpl.
  - now destruct b.
  - now rewrite IH.
Qed.

Lemma substring_all (b : string) : substring 0 (String.length b) b = b.
Proof. induction b as [|c b IH]; simpl; congruence. Qed.

Lemma substring_suffix (a b : string) :
  substring (String.length a) (String.length b) (a ^^ b) = b.
Proof.
  induction a as [|c a IH]; simpl; [apply substring_all|exact IH].
Qed.

(** A name with a dot that is neither first nor last, and no dot after
    it, splits at that dot. *)
Lemma split_name_at_dot (a b : string) :
  a <> EmptyString -> b <> EmptyString -> PyStr.rfind_dot b = None ->
  PurePath.split_name (a ^^ String "." b) = (a, String "." b).
Proof.
  intros Ha Hb Hd. unfold PurePath.split_name.
  rewrite rfind_dot_append. simpl. rewrite Hd. simpl.
  rewrite Nat.add_0_r, append_length. simpl.
  assert (La : 0 < String.length a) by (destruct a; simpl; [congruence|lia]).
  assert (Lb : 0 < String.length b) by (destruct b; simpl; [congruence|lia]).
  destruct (Nat.ltb_spec 0 (String.length a)); [|lia].
  destruct (Nat.ltb_spec (String.length a)
              (String.length a + S (String.length b) - 1)); [|lia].
  simpl. f_equal.
  - apply substring_prefix.
  - replace (String.length a + S (String.length b) - String.length a)
      with (String.length (String "." b)) by (simpl; lia).
    apply substring_suffix.
Qed.

(** A name that has a suffix is such a name. *)
Lemma split_name_suffix (nm : string) :
  snd (PurePath.split_name nm) <> EmptyString ->
  exists a b,
    nm = a ^^ String "." b /\ a <> EmptyString /\ b <> EmptyString /\
    PyStr.rfind_dot b = None /\
    PurePath.split_name nm = (a, String "." b).
Proof.
  unfold PurePath.split_name.
  destruct (PyStr.rfind_dot nm) as [k|] eqn:E; [|simpl; congruence].
  destruct (Nat.ltb_spec 0 k); [|simpl; congruence].
  destruct (Nat.ltb_spec k (String.length nm - 1)); [|simpl; congruence].
  intros _. simpl.
  destruct (rfind_dot_some _ _ E) as (a & b & -> & Hl & Hb).
  rewrite append_length in *. simpl in *.
  exists a, b. repeat split; try assumption.
  - destruct a; simpl in *; [lia|congruence].
  - destruct b; simpl in *; [lia|congruence].
  - subst k. f_equal.
    + apply substring_prefix.
    + replace (String.length a + S (String.length b) - String.length a)
        with (String.length (String "." b)) by (simpl; lia).
      apply substring_suffix.
Qed.

Lemma append_nonempty (a b : string) :
  a <> EmptyString -> a ^^ b <> EmptyString.
Proof. destruct a; simpl; congruence. Qed.

(** The decimal digits of a number hold no dot. *)
Lemma str_of_nat_no_dot (i : nat) :
  PyStr.rfind_dot (PyStr.str_of_nat i) = None.
Proof.
  unfold PyStr.str_of_nat. generalize (Nat.to_uint i). intros u.
  induction u; simpl; try rewrite IHu; reflexivity.
Qed.

Lemma numbered_no_dot (i : nat) :
  PyStr.rfind_dot (" (" ^^ PyStr.str_of_nat i ^^ ")") = None.
Proof.
  rewrite rfind_dot_append, rfind_dot_append. simpl.
  now rewrite str_of_nat_no_dot.
Qed.

End NameFacts.

Import NameFacts.

(** X5.  The numbering of [unique_destination_path] goes before the
    extension and keeps it: for a path with a suffix the result has the
    same suffix, its stem is the stem of the path, followed by the number
    in brackets when the path exists; and the result of a path whose name
    holds no dot has no suffix either. *)
Theorem unique_destination_keeps_extension (fs : node) (P : path) :
  (PurePath.suffix P <> EmptyString ->
   PurePath.suffix (unique_destination_path fs P) = PurePath.suffix P /\
   (FS.exists_ fs P = true ->
    exists i,
      1 <= i /\
      PurePath.stem (unique_destination_path fs P)
      = PurePath.stem P ^^ " (" ^^ PyStr.str_of_nat i ^^ ")")) /\
  (PyStr.rfind_dot (PurePath.name P) = None ->
   PurePath.suffix (unique_destination_path fs P) = EmptyString).
Proof.
  split.
  - intros Hs.
    destruct (split_name_suffix _ Hs) as (a & b & Hnm & Ha & Hb & Hd & Hsp).
    assert (Hc : forall i,
               PurePath.split_name (PurePath.name (candidate P i))
               = (a ^^ " (" ^^ PyStr.str_of_nat i ^^ ")", String "." b)).
    { intros i. unfold candidate. rewrite name_join.
      unfold PurePath.stem, PurePath.suffix. rewrite Hsp. cbn [fst snd].
      rewrite <- (split_name_at_dot
                    (a ^^ " (" ^^ PyStr.str_of_nat i ^^ ")") b);
        [|now apply append_nonempty|assumption|assumption].
      f_equal. now rewrite !append_assoc. }
    destruct (FS.exists_ fs P) eqn:E.
    + destruct (unique_destination_existing fs P E) as (i & Hi & -> & _).
      unfold PurePath.suffix, PurePath.stem. rewrite Hc, Hsp. cbn [fst snd].
      split; [reflexivity|]. intros _. exists i. auto.
    + destruct (unique_destination_fresh fs P) as (_ & _ & [->|(i & _ & Hu)]).
      * split; [reflexivity|discriminate].
      * rewrite Hu. unfold PurePath.suffix. rewrite Hc, Hsp.
        split; [reflexivity|discriminate].
  - intros Hn.
    assert (Hp : PurePath.split_name (PurePath.name P)
                 = (PurePath.name P, EmptyString)).
    { unfold PurePath.split_name. now rewrite Hn. }
    destruct (unique_destination_fresh fs P) as (_ & _ & [->|(i & _ & ->)]).
    + unfold PurePath.suffix. now rewrite Hp.
    + unfold PurePath.suffix at 1. unfold candidate. rewrite name_join.
      unfold PurePath.stem, PurePath.suffix. rewrite Hp. cbn [fst snd].
      unfold PurePath.split_name.
      rewrite !rfind_dot_append. simpl.
      now rewrite str_of_nat_no_dot, Hn.
Qed.

Module UseFacts.

Import FS FSFacts OpFacts.

Lemma candidate_sibling (P : path) (i k : nat) :
  i <> k -> PurePath.relative_to (candidate P k) (candidate P i) = None.
Proof.
  intros H. unfold candidate. apply relative_to_sibling.
  intros E. apply H.
  apply (candidate_inj P). unfold candidate. now rewrite E.
Qed.

Lemma exists_parent_is_dir fs P :
  exists_ fs P = true -> P <> [] -> is_dir fs (PurePath.parent P) = true.
Proof.
  intros E Hne. split_path P Hne d s. unfold exists_ in E.
  destruct (lookup fs (d // s)) as [n|] eqn:L; [|discriminate].
  unfold PurePath.joinpath in L. eapply lookup_below. exact L.
Qed.

End UseFacts.

Import UseFacts.

(** X6.  Once the path that [unique_destination_path] returned for an
    existing path is taken, the next call for the same path returns a
    candidate of a larger number: the first one after it that was free
    before.  Nothing is proposed twice. *)
Theorem unique_destination_after_use (fs : node) (P : path) (f : node) :
  FS.exists_ fs P = true -> P <> [] ->
  exists i j,
    1 <= i /\ i < j /\
    unique_destination_path fs P = candidate P i /\
    unique_destination_path
      (FS.set_at (unique_destination_path fs P) (Some f) fs) P
    = candidate P j /\
    FS.exists_ fs (candidate P j) = false /\
    (forall k, i < k -> k < j -> FS.exists_ fs (candidate P k) = true).
Proof.
  intros E Hne.
  destruct (unique_destination_existing fs P E)
    as (i & Hi & Hu & Hfree & Hbelow & _).
  rewrite Hu. set (fs' := FS.set_at (candidate P i) (Some f) fs).
  assert (Hd : FS.is_dir fs (PurePath.parent (candidate P i)) = true).
  { rewrite candidate_parent. now apply exists_parent_is_dir. }
  assert (Hc : candidate P i <> []).
  { unfold candidate, PurePath.joinpath. now destruct (PurePath.parent P). }
  assert (Hsame : forall q, FS.exists_ fs q = true -> FS.exists_ fs' q = true).
  { intros q Hq. unfold FS.exists_ in Hq.
    destruct (FS.lookup fs q) as [x|] eqn:L; [|discriminate].
    destruct (TransferFacts.created_lookup fs (candidate P i) f q x
                Hfree Hd Hc L) as [_ Hs].
    fold fs' in Hs. unfold FS.exists_.
    now destruct (FS.lookup fs' q). }
  assert (Hnew : FS.exists_ fs' (candidate P i) = true).
  { destruct (TransferFacts.created_lookup fs (candidate P i) f [] fs
                Hfree Hd Hc (FSFacts.lookup_nil fs)) as [Hl _].
    fold fs' in Hl. unfold FS.exists_. now rewrite Hl. }
  assert (Hother : forall k, k <> i ->
             FS.exists_ fs' (candidate P k) = FS.exists_ fs (candidate P k)).
  { intros k Hk. apply FSFacts.option_shape_eq_exists.
    apply FSFacts.lookup_set_at_frame. apply candidate_sibling. congruence. }
  destruct (unique_destination_existing fs' P (Hsame _ E))
    as (j & Hj & Hu' & Hfree' & Hbelow' & _).
  exists i, j.
  assert (Hij : i < j).
  { destruct (Nat.lt_ge_cases i j) as [|Hle]; [assumption|].
    destruct (Nat.eq_dec j i) as [->|Hji]; [congruence|].
    rewrite Hother in Hfree' by assumption.
    rewrite Hbelow in Hfree' by lia. discriminate. }
  repeat split; try assumption.
  - rewrite <- Hother by lia. exact Hfree'.
  - intros k Hik Hkj. rewrite <- Hother by lia. apply Hbelow'. lia.
Qed.

(* ================================================================= *)
(** ** What [mkdir(parents=True)] changes *)

Module MkdirFrame.

Import FS FSFacts OpFacts MkdirFacts.

(** A new directory changes nothing at a path that is not above it. *)
Lemma lookup_new_dir p m :
  forall t q,
    resolve t p = NoEnt -> PurePath.relative_to p q = None ->
    lookup (set_at p (Some (Dir m [])) t) q = lookup t q.
Proof.
  induction p as [|s p IH]; intros t q Hp Hq; [discriminate|].
  destruct t as [m0 d0|m0 es]; [reflexivity|].
  destruct q as [|s0 q]; [discriminate|].
  cbn [PurePath.relative_to] in Hq. cbn [resolve] in Hp.
  destruct (String.eqb_spec s0 s) as [->|Hne].
  - destruct p as [|s1 p].
    + destruct (assoc s es) eqn:E; [discriminate|].
      cbn [set_at]. rewrite !lookup_cons_dir, assoc_set_entry_same, E.
      destruct q; [discriminate|reflexivity].
    + rewrite set_at_cons_dir by discriminate.
      destruct (assoc s es) as [c|] eqn:E; [|reflexivity].
      rewrite !lookup_cons_dir, assoc_set_entry_same, E.
      now apply IH.
  - assert (A : forall v', assoc s0 (set_entry s v' es) = assoc s0 es)
      by (intros; apply assoc_set_entry_other; congruence).
    destruct p as [|s1 p].
    + cbn [set_at]. now rewrite !lookup_cons_dir, A.
    + rewrite set_at_cons_dir by discriminate.
      destruct (assoc s es) as [c|]; [|reflexivity].
      now rewrite !lookup_cons_dir, A.
Qed.

Lemma relative_to_prefix_none (p r q : path) :
  PurePath.relative_to (p ++ r) q = None -> PurePath.relative_to p q = None.
Proof.
  intros H. destruct (PurePath.relative_to p q) as [x|] eqn:E; [|reflexivity].
  apply relative_to_some in E. subst p. rewrite <- app_assoc in H.
  now rewrite relative_to_app in H.
Qed.

(** A relation between the filesystem before and after that every new
    directory on the way to [target] respects holds of
    [mkdir(parents=True)] on a prefix of [target]. *)
Section Along.

Variable env : Env.
Variable target : path.
Variable R : node -> node -> Prop.
Hypothesis R_refl : forall fs, R fs fs.
Hypothesis R_trans : forall fs1 fs2 fs3, R fs1 fs2 -> R fs2 fs3 -> R fs1 fs3.
Hypothesis R_new :
  forall fs p r,
    target = p ++ r -> resolve fs p = NoEnt ->
    is_dir fs (PurePath.parent p) = true ->
    R fs (set_at p (Some (Dir (Os.fresh_meta env) [])) fs).

Lemma os_mkdir_along p tail fs r fs' :
  target = p ++ tail -> Os.mkdir env p fs = (r, fs') -> R fs fs'.
Proof.
  intros Ht H. apply os_mkdir_inv in H.
  destruct H as [(_ & Hp & Hd & ->)|(e & _ & -> & _)]; [|apply R_refl].
  eapply R_new; eauto.
Qed.

Lemma mkdir_one_along ok p tail fs r fs' :
  target = p ++ tail -> Pathlib.mkdir_one env ok p fs = (r, fs') -> R fs fs'.
Proof.
  intros Ht. unfold Pathlib.mkdir_one. unfold_m.
  destruct (Os.mkdir env p fs) as [[[]|e] fs1] eqn:E;
    pose proof (os_mkdir_along _ _ _ _ _ Ht E) as HR.
  - intros [= <- <-]. exact HR.
  - destruct (is_file_not_found (kind e)).
    + intros [= <- <-]. exact HR.
    + destruct (is_oserror (kind e)).
      * destruct (negb ok || negb (is_dir fs1 p));
          intros [= <- <-]; exact HR.
      * intros [= <- <-]. exact HR.
Qed.

Lemma mkdir_parents_rev_along rp :
  forall ok tail fs r fs',
    target = rev rp ++ tail ->
    Pathlib.mkdir_parents_rev env ok rp fs = (r, fs') -> R fs fs'.
Proof.
  induction rp as [|s rp IH]; intros ok tail fs r fs' Ht;
    rewrite mkdir_parents_rev_eq; unfold_m;
    destruct (Os.mkdir env _ fs) as [[[]|e] fs1] eqn:E;
    pose proof (os_mkdir_along _ _ _ _ _ Ht E) as HR.
  - intros [= <- <-]. exact HR.
  - destruct (is_file_not_found (kind e)).
    + intros [= <- <-]. exact HR.
    + destruct (is_oserror (kind e)).
      * destruct (negb ok || negb (is_dir fs1 (rev [])));
          intros [= <- <-]; exact HR.
      * intros [= <- <-]. exact HR.
  - intros [= <- <-]. exact HR.
  - destruct (is_file_not_found (kind e)).
    + destruct (Pathlib.mkdir_parents_rev env true rp fs1) as [[[]|e1] fs2]
        eqn:E1.
      * intros H. apply (mkdir_one_along _ _ tail) in H; [|exact Ht].
        eapply R_trans; [exact HR|]. eapply R_trans; [|exact H].
        apply (IH true ([s] ++ tail) _ _ _) in E1; [exact E1|].
        rewrite Ht. cbn [rev]. now rewrite <- app_assoc.
      * intros [= <- <-].
        eapply R_trans; [exact HR|].
        apply (IH true ([s] ++ tail) _ _ _) in E1; [exact E1|].
        rewrite Ht. cbn [rev]. now rewrite <- app_assoc.
    + destruct (is_oserror (kind e)).
      * destruct (negb ok || negb (is_dir fs1 (rev (s :: rp))));
          intros [= <- <-]; exact HR.
      * intros [= <- <-]. exact HR.
Qed.

Lemma mkdir_p_along p tail fs r fs' :
  target = p ++ tail -> Pathlib.mkdir_p env p fs = (r, fs') -> R fs fs'.
Proof.
  unfold Pathlib.mkdir_p. intros Ht H.
  apply (mkdir_parents_rev_along _ _ tail) in H; [exact H|].
  now rewrite rev_involutive.
Qed.

End Along.

(** [mkdir(parents=True)] changes nothing at a path that is not above the
    directory it is asked for. *)
Lemma mkdir_p_frame env p fs r fs' q :
  Pathlib.mkdir_p env p fs = (r, fs') ->
  PurePath.relative_to p q = None ->
  lookup fs' q = lookup fs q.
Proof.
  intros H Hq.
  apply (mkdir_p_along env p (fun a b => lookup b q = lookup a q)
           ltac:(reflexivity) ltac:(intros; congruence)) with (tail := [])
    in H; [exact H| |now rewrite app_nil_r].
  intros fs1 p1 r1 Ht Hp _. apply lookup_new_dir; [exact Hp|].
  subst p. eapply relative_to_prefix_none; eauto.
Qed.

End MkdirFrame.

(* ================================================================= *)
(** ** The backup folder *)

Module BackupFacts.

Import FS FSFacts OpFacts MkdirFacts TransferFacts RunFacts MkdirFrame UseFacts.

#[local] Arguments backup_one : simpl never.

Section Backup.

Variable env : Env.
Variable fs0 : node.
Variable base : path.

#[local] Abbreviation root := (backup_root env base).

Hypothesis root_fresh : exists_ fs0 root = false.

#[local] Abbreviation source := (is_source fs0 base).
#[local] Abbreviation backup_inv := (backup_invariant env fs0 base).

Lemma backup_inv_start : backup_inv fs0.
Proof.
  split; [|auto]. intros r.
  destruct (lookup fs0 (root ++ r)) eqn:E; [|exact I].
  exfalso. assert (H : exists_ fs0 (root ++ r) = true)
    by (unfold exists_; now rewrite E).
  apply exists_prefix in H. congruence.
Qed.

Lemma above_source_is_dir src rel x y :
  source src rel -> rel = x ++ y -> y <> [] -> is_dir fs0 (base ++ x) = true.
Proof.
  intros (-> & _ & Hf) -> Hy. apply is_file_lookup in Hf.
  destruct Hf as (m & d & Hf). destruct y as [|s y]; [congruence|].
  rewrite app_assoc in Hf. eapply lookup_below; eauto.
Qed.

Lemma mirrors_shape fs fs' :
  mirrors env fs0 base root fs ->
  (forall r,
     option_map shape (lookup fs' (root ++ r))
     = option_map shape (lookup fs (root ++ r)) \/
     match lookup fs' (root ++ r) with
     | Some (Dir _ _) => is_dir fs0 (base ++ r) = true
     | Some (File m' d') =>
         exists m,
           lookup fs0 (base ++ r) = Some (File m d') /\
           m' = Shutil.copied_meta env m
     | None => True
     end) ->
  mirrors env fs0 base root fs'.
Proof.
  intros Hm H r. destruct (H r) as [E|E]; [|exact E].
  specialize (Hm r).
  destruct (lookup fs (root ++ r)) as [[m d|m es]|],
    (lookup fs' (root ++ r)) as [[m' d'|m' es']|];
    simpl in E; try discriminate; try exact I; try exact Hm.
  inversion E; subst. exact Hm.
Qed.

Lemma removelast_nonempty (rel : path) :
  rel <> [] -> rel = removelast rel ++ [last rel EmptyString].
Proof. intros H. now apply app_removelast_last. Qed.

Lemma parent_of_backup (rel : path) :
  rel <> [] -> PurePath.parent (root ++ rel) = root ++ removelast rel.
Proof. intros H. unfold PurePath.parent. now apply removelast_app. Qed.

(** The directories made for the backup of a source keep the invariant. *)
Lemma backup_dirs_inv src rel fs r fs1 :
  source src rel -> backup_inv fs ->
  Pathlib.mkdir_p env (PurePath.parent (root ++ rel)) fs = (r, fs1) ->
  backup_inv fs1 /\ grows fs fs1.
Proof.
  intros Hs [Hm Hk] H.
  pose proof (mkdir_p_spec _ _ _ _ _ H) as [Hg _].
  split; [|exact Hg]. split.
  - apply (mirrors_shape fs); [exact Hm|]. intros x.
    destruct (PurePath.relative_to (PurePath.parent (root ++ rel)) (root ++ x))
      as [y|] eqn:E.
    + right. apply relative_to_some in E.
      destruct Hs as (Hsrc & Hrel & Hf).
      rewrite parent_of_backup in E by assumption.
      rewrite <- app_assoc in E. apply app_inv_head in E.
      assert (Hd : is_dir fs0 (base ++ x) = true).
      { apply (above_source_is_dir src rel x (y ++ [last rel EmptyString])).
        - repeat split; assumption.
        - rewrite app_assoc, <- E. now apply removelast_nonempty.
        - now destruct y. }
      destruct (lookup fs1 (root ++ x)) as [[m' d'|m' es']|] eqn:L; auto.
      apply (grows_file fs fs1 _ m' d' Hg) in L.
      specialize (Hm x). now rewrite L in Hm.
    + left. now rewrite (mkdir_p_frame _ _ _ _ _ _ H E).
  - intros q m d Hq. apply (grows_file fs fs1 _ m d Hg). auto.
Qed.

(** The backup of one source. *)
Lemma backup_one_inv src rel fs r fs' :
  source src rel -> backup_inv fs ->
  backup_one env base src fs = (r, fs') ->
  backup_inv fs' /\
  (forall x, is_file fs (root ++ x) = true -> is_file fs' (root ++ x) = true)
  /\ (r = Return tt -> is_file fs' (root ++ rel) = true).
Proof.
  intros Hs Hinv. pose proof Hs as (Hsrc & Hrel & Hf).
  unfold backup_one. rewrite Hsrc, relative_to_app.
  rewrite <- Hsrc. unfold_m.
  destruct (Pathlib.mkdir_p env _ fs) as [[[]|e] fs1] eqn:Em.
  - pose proof (mkdir_p_spec _ _ _ _ _ Em) as [_ Hd].
    specialize (Hd eq_refl).
    destruct (backup_dirs_inv _ _ _ _ _ Hs Hinv Em) as [[Hm1 Hk1] Hg].
    apply is_file_lookup in Hf. destruct Hf as (m & d & Hf).
    assert (Hnd : is_dir fs1 (root ++ rel) = false).
    { specialize (Hm1 rel). unfold is_dir.
      destruct (lookup fs1 (root ++ rel)) as [[m' d'|m' es']|];
        try reflexivity.
      rewrite <- Hsrc in Hm1. unfold is_dir in Hm1. now rewrite Hf in Hm1. }
    intros Hc. apply copy2_cases in Hc. rewrite Hnd in Hc.
    destruct Hc as [(e & -> & ->)|(-> & m1 & d1 & Hl1 & _ & ->)].
    + split; [split; assumption|]. split; [|discriminate].
      intros x Hx. now rewrite (grows_is_file fs fs1 _ Hg).
    + rewrite (Hk1 _ _ _ Hf) in Hl1. inversion Hl1; subst m1 d1. clear Hl1.
      assert (Hne : root ++ rel <> []).
      { unfold backup_root, PurePath.joinpath.
        now destruct base. }
      assert (Hsame : lookup (set_at (root ++ rel)
                                (Some (File (Shutil.copied_meta env m) d)) fs1)
                        (root ++ rel)
                      = Some (File (Shutil.copied_meta env m) d)).
      { rewrite (parent_name _ Hne). now apply lookup_set_at_same. }
      assert (Hbelow : forall y, y <> [] ->
                lookup (set_at (root ++ rel)
                          (Some (File (Shutil.copied_meta env m) d)) fs1)
                  ((root ++ rel) ++ y) = None).
      { intros y Hy. rewrite (parent_name _ Hne).
        rewrite lookup_set_at_below by assumption.
        destruct y; [congruence|reflexivity]. }
      split; [split|split].
      * apply (mirrors_shape fs1); [exact Hm1|]. intros x.
        destruct (PurePath.relative_to (root ++ x) (root ++ rel))
          as [y|] eqn:E.
        -- right. apply relative_to_some in E. rewrite E.
           destruct y as [|s y].
           ++ rewrite app_nil_r, Hsame. exists m. split; [|reflexivity].
              rewrite app_nil_r in E. apply app_inv_head in E. subst x.
              now rewrite <- Hsrc.
           ++ now rewrite Hbelow.
        -- left. now apply lookup_set_at_frame.
      * intros q m2 d2 Hq. apply kept_file.
        rewrite lookup_set_at_frame.
        -- now rewrite (Hk1 _ _ _ Hq).
        -- apply relative_to_none_deeper.
           apply (relative_to_fresh fs0); [|exact root_fresh].
           unfold exists_. now rewrite Hq.
      * intros x Hx. rewrite <- (grows_is_file fs fs1 _ Hg) in Hx.
        destruct (PurePath.relative_to (root ++ x) (root ++ rel))
          as [y|] eqn:E.
        -- apply relative_to_some in E. destruct y as [|s y].
           ++ rewrite E, app_nil_r. unfold is_file. now rewrite Hsame.
           ++ exfalso. apply is_file_lookup in Hx.
              destruct Hx as (m2 & d2 & Hx).
              specialize (Hm1 x). rewrite Hx in Hm1.
              destruct Hm1 as (m3 & Hm3 & _).
              rewrite <- app_assoc in E. apply app_inv_head in E. subst x.
              rewrite app_assoc, <- Hsrc, lookup_app, Hf in Hm3.
              discriminate.
        -- apply (lookup_set_at_frame _
                    (Some (File (Shutil.copied_meta env m) d)) fs1) in E.
           rewrite <- Hx. now apply option_shape_eq_is_file.
      * intros _. unfold is_file. now rewrite Hsame.
  - intros [= <- <-].
    destruct (backup_dirs_inv _ _ _ _ _ Hs Hinv Em) as [Hinv1 Hg].
    split; [exact Hinv1|]. split; [|discriminate].
    intros x Hx. now rewrite (grows_is_file fs fs1 _ Hg).
Qed.

(** The loop over the sources. *)
Lemma backup_loop_inv files :
  (forall src, In src files -> exists rel, source src rel) ->
  forall errors logs fs errors' logs' fs',
    backup_inv fs ->
    backup_loop env base files errors logs fs = (Return (errors', logs'), fs')
    ->
    backup_inv fs' /\
    (forall x, is_file fs (root ++ x) = true ->
               is_file fs' (root ++ x) = true) /\
    (forall src rel,
        In src files -> source src rel ->
        is_file fs' (root ++ rel) = true
        \/ exists e, In (backup_error_line src e) logs') /\
    exists new,
      logs' = logs ++ new /\ errors' = errors + List.length new /\
      List.length new <= List.length files /\
      Forall (fun l => exists src e, In src files /\ l = backup_error_line src e)
        new.
Proof.
  induction files as [|src rest IH];
    intros Hsrc errors logs fs errors' logs' fs' Hinv; cbn [backup_loop].
  - unfold ret. intros [= <- <- <-]. split; [exact Hinv|].
    split; [auto|]. split; [intros ? ? []|].
    exists []. rewrite app_nil_r. simpl. repeat split; auto.
  - destruct (Hsrc src (or_introl eq_refl)) as (rel & Hs).
    unfold_m. destruct (backup_one env base src fs) as [r fs1] eqn:E.
    destruct (backup_one_inv _ _ _ _ _ Hs Hinv E) as (Hinv1 & Hp1 & Hr1).
    assert (Hrest : forall s, In s rest -> exists rel0, source s rel0)
      by (intros s Hin; apply Hsrc; now right).
    destruct r as [[]|e]; intros Hl;
      destruct (IH Hrest _ _ _ _ _ _ Hinv1 Hl)
        as (Hinv' & Hp' & Hall & new & Hlogs & Herr & Hlen & Hnew).
    + split; [exact Hinv'|]. split; [auto|]. split.
      * intros s rl [<-|Hin] Hsr; [|now apply Hall].
        left. destruct Hs as (Es & _), Hsr as (Es' & _).
        rewrite Es' in Es. apply app_inv_head in Es. subst rl.
        apply Hp'. now apply Hr1.
      * exists new. repeat split; try assumption.
        -- simpl. lia.
        -- eapply Forall_impl; [|exact Hnew].
           intros l (s & e & Hin & ->). exists s, e. split; [now right|].
           reflexivity.
    + split; [exact Hinv'|]. split; [auto|]. split.
      * intros s rl [<-|Hin] Hsr; [|now apply Hall].
        right. exists e. rewrite Hlogs. apply in_or_app. left.
        apply in_or_app. right. now left.
      * exists (backup_error_line src e :: new). repeat split.
        -- rewrite Hlogs, <- app_assoc. reflexivity.
        -- simpl. lia.
        -- simpl. lia.
        -- constructor.
           ++ exists src, e. split; [now left|reflexivity].
           ++ eapply Forall_impl; [|exact Hnew].
              intros l (s & e0 & Hin & ->). exists s, e0.
              split; [now right|reflexivity].
Qed.

End Backup.

End BackupFacts.

(* ================================================================= *)
(** ** The log of a run *)

Module LogFacts.

Import FS FSFacts OpFacts MkdirFacts TransferFacts RelocateFacts LoopFacts.

#[local] Arguments relocate_step : simpl never.

Lemma transfer_line env options dt src dst fs line fs' :
  transfer env options dt src dst fs = (Return line, fs') ->
  line = success_line options src dt.
Proof.
  unfold transfer, success_line. destruct (copy_no_backup options); unfold_m.
  - destruct (Shutil.copy2 env src dst fs) as [[[]|e] f]; congruence.
  - destruct (Shutil.move env src dst fs) as [[[]|e] f]; congruence.
Qed.

Lemma relocate_one_line env options src fs line fs' :
  relocate_one env options src fs = (Return line, fs') ->
  exists dt, line = success_line options src dt.
Proof.
  intros H. apply relocate_one_cases in H.
  destruct H as [(e & He & _)|(n & dt & r1 & fs1 & _ & _ & _ & _ & _ & H)];
    [discriminate|].
  destruct H as [(e & _ & He & _)|(_ & H)]; [discriminate|].
  exists dt. eapply transfer_line; eauto.
Qed.

Lemma success_is_not_error options src dt :
  is_error_line (success_line options src dt) = false.
Proof. unfold success_line. now destruct (copy_no_backup options). Qed.

Lemma error_is_error src e : is_error_line (error_line src e) = true.
Proof. apply RunFacts.prefix_append. Qed.

(** The loop appends one line for each file, in order, and counts the
    lines of each kind. *)
Lemma relocate_loop_log env options files :
  forall moved errors logs fs moved' errors' logs' fs',
    relocate_loop env options files (moved, errors, logs) fs
      = (Return (moved', errors', logs'), fs') ->
    exists new,
      logs' = logs ++ new /\
      Forall2 (relocation_line options) files new /\
      moved' = moved + List.length (filter (fun l => negb (is_error_line l)) new)
      /\ errors' = errors + List.length (filter is_error_line new).
Proof.
  induction files as [|src rest IH];
    intros moved errors logs fs moved' errors' logs' fs'; cbn [relocate_loop].
  - unfold ret. intros [= <- <- <- <-]. exists []. rewrite app_nil_r.
    simpl. repeat split; auto.
  - unfold bind. rewrite relocate_step_eq.
    destruct (relocate_one env options src fs) as [[line|e] fs1] eqn:E;
      intros H; apply IH in H; destruct H as (new & -> & Hall & -> & ->).
    + destruct (relocate_one_line _ _ _ _ _ _ E) as (dt & ->).
      exists (success_line options src dt :: new). rewrite <- app_assoc.
      split; [reflexivity|]. split.
      * constructor; [left; eauto|assumption].
      * cbn [filter]. rewrite success_is_not_error. simpl. lia.
    + exists (error_line src e :: new). rewrite <- app_assoc.
      split; [reflexivity|]. split.
      * constructor; [right; eauto|assumption].
      * cbn [filter]. rewrite error_is_error. simpl. lia.
Qed.

(** The backup loop appends its error lines and counts them. *)
Lemma backup_loop_log env base files :
  forall errors logs fs errors' logs' fs',
    backup_loop env base files errors logs fs = (Return (errors', logs'), fs')
    ->
    exists new,
      logs' = logs ++ new /\ errors' = errors + List.length new /\
      List.length new <= List.length files /\
      Forall (fun l => PyStr.startswith l "Backup error " = true) new.
Proof.
  induction files as [|src rest IH]; intros errors logs fs errors' logs' fs';
    cbn [backup_loop].
  - unfold ret. intros [= <- <- <-]. exists []. rewrite app_nil_r.
    simpl. repeat split; auto.
  - unfold_m. destruct (backup_one env base src fs) as [[[]|e] fs1];
      intros H; apply IH in H; destruct H as (new & -> & -> & Hlen & Hall).
    + exists new. split; [reflexivity|]. split; [reflexivity|].
      split; [simpl; lia|assumption].
    + exists (backup_error_line src e :: new). rewrite <- app_assoc.
      split; [reflexivity|]. split; [simpl; lia|]. split; [simpl; lia|].
      constructor; [apply RunFacts.prefix_append|assumption].
Qed.

Lemma backup_phase_log env options files fs b_errors b_logs fsb :
  backup_phase env options files fs = (Return (b_errors, b_logs), fsb) ->
  b_errors = List.length b_logs /\ b_errors <= List.length files /\
  Forall (fun l => PyStr.startswith l "Backup error " = true) b_logs /\
  (copy_no_backup options = true -> b_logs = [] /\ fsb = fs).
Proof.
  unfold backup_phase, _backup_files.
  destruct (copy_no_backup options); cbn [negb].
  - unfold ret. intros [= <- <- <-]. simpl.
    split; [reflexivity|]. split; [lia|]. split; [constructor|auto].
  - intros H. apply backup_loop_log in H.
    destruct H as (new & -> & -> & Hlen & Hall). simpl.
    split; [reflexivity|]. split; [exact Hlen|]. split; [exact Hall|].
    discriminate.
Qed.

End LogFacts.

Import BackupFacts LogFacts.

(** What the backup stage returns and leaves behind. *)
Lemma backup_stage_result (env : Env) (base : path) (rec : bool)
  (fs0 : node) (files : list path) :
  gather_files base rec fs0 = (Return files, fs0) ->
  FS.exists_ fs0 (backup_root env base) = false ->
  exists errors logs fs',
    _backup_files env files base fs0 = (Return (errors, logs), fs') /\
    errors = List.length logs /\ errors <= List.length files /\
    Forall (fun l => exists src e, In src files /\ l = backup_error_line src e)
      logs /\
    (forall src m d rel,
        In src files -> FS.lookup fs0 src = Some (File m d) ->
        PurePath.relative_to src base = Some rel ->
        FS.lookup fs' src = Some (File m d) /\
        (FS.lookup fs' (backup_root env base ++ rel)
         = Some (File (Shutil.copied_meta env m) d)
         \/ exists e, In (backup_error_line src e) logs)) /\
    mirrors env fs0 base (backup_root env base) fs'.
Proof.
  intros G Hroot. unfold _backup_files.
  destruct (LoopFacts.backup_loop_total env base files 0 [] fs0)
    as (errors & logs & fs' & Hl).
  exists errors, logs, fs'. split; [exact Hl|].
  assert (Hsrc : forall src, In src files ->
             exists rel, is_source fs0 base src rel).
  { intros src Hin.
    pose proof (ScanFacts.gather_files_below _ _ _ _ _ G) as Hb.
    pose proof (LoopFacts.gather_files_regular _ _ _ _ _ G) as Hr.
    rewrite Forall_forall in Hb, Hr.
    destruct (Hb _ Hin) as (ds & nm & -> & _). exists (ds ++ [nm]).
    repeat split; [now destruct ds|now apply Hr]. }
  destruct (backup_loop_inv env fs0 base Hroot files Hsrc _ _ _ _ _ _
              (backup_inv_start env fs0 base Hroot) Hl)
    as ([Hm Hk] & _ & Hall & new & Hlogs & Herr & Hlen & Hnew).
  simpl in Hlogs, Herr. subst logs errors.
  split; [reflexivity|]. split; [exact Hlen|]. split; [exact Hnew|].
  split; [|exact Hm].
  intros src m d rel Hin Hsrc0 Hrel0. split; [now apply Hk|].
  destruct (Hsrc _ Hin) as (rel0 & Hs).
  assert (rel0 = rel).
  { destruct Hs as (Es & _). rewrite Es, relative_to_app in Hrel0.
    congruence. }
  subst rel0. destruct (Hall _ _ Hin Hs) as [Hf|He]; [left|now right].
  apply FSFacts.is_file_lookup in Hf. destruct Hf as (m' & d' & Hf).
  destruct Hs as (Es & Hrel & _).
  specialize (Hm rel). rewrite Hf in Hm.
  destruct Hm as (m0 & Hm0 & ->). rewrite <- Es, Hsrc0 in Hm0.
  inversion Hm0; subst. exact Hf.
Qed.


(** What the backup stage leaves for each file of the scan. *)
Lemma backup_files_copies_or_logs_aux (env : Env) (base : path) (rec : bool)
  (fs0 : node) (files : list path) :
  gather_files base rec fs0 = (Return files, fs0) ->
  FS.exists_ fs0 (backup_root env base) = false ->
  exists errors logs fs',
    _backup_files env files base fs0 = (Return (errors, logs), fs') /\
    forall src m d rel,
      In src files -> FS.lookup fs0 src = Some (File m d) ->
      PurePath.relative_to src base = Some rel ->
      FS.lookup fs' (backup_root env base ++ rel)
      = Some (File (Shutil.copied_meta env m) d)
      \/ exists e, In (backup_error_line src e) logs.
Proof.
  intros G Hroot.
  destruct (backup_stage_result env base rec fs0 files G Hroot)
    as (errors & logs & fs' & Hl & _ & _ & _ & Hall & _).
  exists errors, logs, fs'. split; [exact Hl|].
  intros src m d rel Hin Hs Hr. now apply (Hall src m d rel).
Qed.


(** X8.  A run that moves keeps the originals.  On a tree without repeated
    names, when the backup folder of the run does not exist yet, the run
    returns, and at its end every file of the scan has in the backup
    folder, under its path relative to the base, a copy with the content
    and the modification time it had before the run, unless the log holds
    the [Backup error] line of that file. *)
Theorem originals_survive_in_backup (env : Env) (options : SortOptions)
  (fs0 : node) (files : list path) :
  wf fs0 ->
  copy_no_backup options = false ->
  FS.exists_ fs0 (backup_root env (base_dir options)) = false ->
  gather_files (base_dir options) (include_subdirs options) fs0
    = (Return files, fs0) ->
  exists moved errors logs fs3,
    sort_files env options fs0 = (Return (moved, errors, logs), fs3) /\
    forall src m d rel,
      In src files -> FS.lookup fs0 src = Some (File m d) ->
      PurePath.relative_to src (base_dir options) = Some rel ->
      FS.lookup fs3 (backup_root env (base_dir options) ++ rel)
      = Some (File (Shutil.copied_meta env m) d)
      \/ exists e, In (backup_error_line src e) logs.
Proof.
  intros Hwf Hmove Hroot G.
  destruct files as [|f0 rest].
  { exists 0, 0, [no_files_line], fs0. split.
    - apply LoopFacts.sort_files_empty_scan. now rewrite G.
    - intros src m d rel []. }
  set (files := f0 :: rest) in *.
  assert (Hne : files <> []) by discriminate.
  destruct (backup_files_copies_or_logs_aux env (base_dir options)
              (include_subdirs options) fs0 files G Hroot)
    as (b_errors & b_logs & fsb & Hb & Hcopies).
  assert (Hbp : backup_phase env options files fs0
                = (Return (b_errors, b_logs), fsb)).
  { unfold backup_phase. now rewrite Hmove. }
  rewrite (LoopFacts.sort_files_scanned _ _ _ _ _ G Hne).
  unfold bind at 1. rewrite Hbp. cbn [fst snd app Nat.add].
  destruct (LoopFacts.relocate_loop_total env options files
              (0, b_errors, b_logs) fsb) as ([[moved errors] logs] & fs3 & Hl).
  exists moved, errors, logs, fs3. split; [exact Hl|].
  intros src m d rel Hin Hsrc Hrel.
  destruct (Hcopies _ _ _ _ Hin Hsrc Hrel) as [Hc|(e & He)].
  - left.
    destruct (RunFacts.scanned_files_at_loop _ _ _ _ _ _ Hwf G Hbp)
      as (Hnd & Hfiles & _).
    apply RunFacts.kept_file.
    eapply (RunFacts.relocate_loop_keeps env options files Hnd
              (0, b_errors, b_logs) fsb _ fs3 _ _ Hfiles Hc); [|exact Hl].
    intros Hq.
    pose proof (LoopFacts.gather_files_regular _ _ _ _ _ G) as Hr.
    rewrite Forall_forall in Hr. specialize (Hr _ Hq).
    apply FSFacts.is_file_lookup in Hr. destruct Hr as (m1 & d1 & Hr).
    assert (Hex : FS.exists_ fs0 (backup_root env (base_dir options) ++ rel)
                  = true) by (unfold FS.exists_; now rewrite Hr).
    apply FSFacts.exists_prefix in Hex. congruence.
  - right. exists e.
    destruct (relocate_loop_log _ _ _ _ _ _ _ _ _ _ _ Hl)
      as (new & -> & _).
    apply in_or_app. now left.
Qed.

(* ================================================================= *)
(** ** The footprint of a run *)

Module FootprintFacts.

Import FS FSFacts OpFacts MkdirFacts TransferFacts RelocateFacts LoopFacts
  SuccessFacts RunFacts MkdirFrame.

#[local] Arguments relocate_step : simpl never.
#[local] Arguments backup_one : simpl never.

(** The steps of [relocate_one]: nothing, or the directories of the
    destination, and then nothing more, or the copy or the move to a path
    of that directory that did not exist. *)
Lemma relocate_one_steps env options src fs r fs' :
  relocate_one env options src fs = (r, fs') ->
  fs' = fs \/
  exists dt r1 fsd,
    Pathlib.mkdir_p env (dest_dir_of options dt) fs = (r1, fsd) /\
    (fs' = fsd \/
     exists nm,
       r1 = Return tt /\
       exists_ fsd (dest_dir_of options dt // nm) = false /\
       is_dir fsd (dest_dir_of options dt) = true /\
       if copy_no_backup options then
         exists m d,
           lookup fsd src = Some (File m d) /\
           fs' = set_at (dest_dir_of options dt // nm)
                   (Some (File (Shutil.copied_meta env m) d)) fsd
       else
         exists n1,
           lookup fsd src = Some n1 /\
           PurePath.relative_to (dest_dir_of options dt // nm) src = None /\
           fs' = set_at (dest_dir_of options dt // nm) (Some n1)
                   (set_at src None fsd)).
Proof.
  intros H. apply relocate_one_cases in H.
  destruct H as [(e & _ & ->)|H]; [now left|]. right.
  destruct H as (n & dt & r1 & fsd & Hl & _ & _ & _ & Hmk & H).
  exists dt, r1, fsd. split; [exact Hmk|].
  destruct H as [(e & _ & _ & ->)|(-> & Ht)]; [now left|].
  pose proof (mkdir_p_spec _ _ _ _ _ Hmk) as [Hg Hd].
  specialize (Hd eq_refl).
  destruct (destination_fresh options dt src fsd Hd) as (Hfresh & Hpd & Hne).
  destruct (unique_destination_name fsd (dest_dir_of options dt)
              (PurePath.name src)) as (nm & Hu & _).
  rewrite Hu in *.
  apply (transfer_fresh _ _ _ _ _ _ _ _ Hfresh Hpd Hne) in Ht.
  destruct Ht as [(e & _ & ->)|(l & n1 & _ & Hl1 & Hbody)]; [now left|].
  right. exists nm. split; [reflexivity|]. split; [exact Hfresh|].
  split; [exact Hd|].
  destruct (copy_no_backup options).
  - destruct Hbody as (m & d & -> & ->). eauto.
  - destruct Hbody as (Hrel & ->). eauto.
Qed.

(** *** What existed stays: the relation of a run that only adds *)

Lemma stays_refl fs : stays fs fs.
Proof. intros q x H. now rewrite H. Qed.

Lemma stays_trans fs1 fs2 fs3 : stays fs1 fs2 -> stays fs2 fs3 -> stays fs1 fs3.
Proof.
  intros H12 H23 q x Hx. specialize (H12 q x Hx).
  destruct (lookup fs2 q) as [y|] eqn:E; [|discriminate].
  simpl in H12. rewrite (H23 q y E). exact H12.
Qed.

Lemma grows_stays fs fs' : grows fs fs' -> stays fs fs'.
Proof. intros H q x Hx. eapply grows_shape; eauto. Qed.

Lemma relocate_one_copy_stays env options src fs r fs' :
  copy_no_backup options = true ->
  relocate_one env options src fs = (r, fs') -> stays fs fs'.
Proof.
  intros Hc H. apply relocate_one_steps in H. rewrite Hc in H.
  destruct H as [->|(dt & r1 & fsd & Hmk & H)]; [apply stays_refl|].
  pose proof (mkdir_p_spec _ _ _ _ _ Hmk) as [Hg _].
  destruct H as [->|(nm & -> & Hfresh & Hd & m & d & _ & ->)];
    [now apply grows_stays|].
  apply (stays_trans _ fsd); [now apply grows_stays|].
  intros q x Hx.
  apply (created_lookup fsd (dest_dir_of options dt // nm)
           (File (Shutil.copied_meta env m) d) q x); try assumption.
  - now rewrite parent_join.
  - unfold PurePath.joinpath. now destruct (dest_dir_of options dt).
Qed.

Lemma relocate_loop_copy_stays env options files :
  copy_no_backup options = true ->
  forall acc fs r fs',
    relocate_loop env options files acc fs = (r, fs') -> stays fs fs'.
Proof.
  intros Hc. induction files as [|src rest IH]; intros acc fs r fs';
    cbn [relocate_loop].
  - unfold ret. intros [= <- <-]. apply stays_refl.
  - unfold bind. destruct acc as [[moved errors] logs].
    rewrite relocate_step_eq.
    destruct (relocate_one env options src fs) as [[line|e] fs1] eqn:E;
      intros H; apply IH in H;
      (eapply stays_trans; [|exact H]);
      eapply relocate_one_copy_stays; eauto.
Qed.

(** *** Nothing outside the base directory changes *)

Lemma same_outside_refl base fs : same_outside base fs fs.
Proof. intros q _. reflexivity. Qed.

Lemma same_outside_trans base fs1 fs2 fs3 :
  same_outside base fs1 fs2 -> same_outside base fs2 fs3 ->
  same_outside base fs1 fs3.
Proof. intros H12 H23 q Hq. now rewrite (H23 q Hq), (H12 q Hq). Qed.

Lemma outside_base base : outside base base.
Proof.
  intros rel H. apply relative_to_some in H.
  rewrite <- (app_nil_r base) in H at 1. now apply app_inv_head in H.
Qed.

Lemma same_outside_is_dir base fs fs' :
  same_outside base fs fs' -> is_dir fs' base = is_dir fs base.
Proof.
  intros H. apply option_shape_eq_is_dir. apply H. apply outside_base.
Qed.

Lemma outside_not_below base r q :
  outside base q -> r <> [] -> PurePath.relative_to q (base ++ r) = None.
Proof.
  intros Hq Hr. destruct (PurePath.relative_to q (base ++ r)) as [y|] eqn:E;
    [|reflexivity].
  apply relative_to_deeper in E. apply Hq in E.
  apply app_eq_nil in E. destruct E; congruence.
Qed.

Lemma set_at_outside base r v fs :
  r <> [] -> same_outside base fs (set_at (base ++ r) v fs).
Proof.
  intros Hr q Hq. apply lookup_set_at_frame. now apply outside_not_below.
Qed.

Lemma mkdir_p_outside env base r fs res fs' :
  is_dir fs base = true ->
  Pathlib.mkdir_p env (base ++ r) fs = (res, fs') ->
  same_outside base fs fs'.
Proof.
  intros Hb H q Hq.
  destruct (PurePath.relative_to (base ++ r) q) as [y|] eqn:E.
  - apply relative_to_some in E.
    assert (Hp : exists l, base = q ++ l).
    { apply app_eq_app in E. destruct E as (l & [[E1 E2]|[E1 E2]]).
      - eauto.
      - exists []. rewrite app_nil_r.
        assert (El : l = []) by (apply Hq; rewrite E1; apply relative_to_app).
        rewrite El, app_nil_r in E1. now symmetry. }
    destruct Hp as (l & Hl).
    assert (Hex : exists_ fs q = true).
    { apply (exists_prefix fs q l). rewrite <- Hl. unfold exists_.
      apply is_dir_lookup in Hb. destruct Hb as (m & es & ->). reflexivity. }
    unfold exists_ in Hex. destruct (lookup fs q) as [x|] eqn:L;
      [|discriminate].
    apply mkdir_p_spec in H. destruct H as [Hg _].
    now rewrite (grows_shape _ _ _ _ Hg L).
  - now rewrite (mkdir_p_frame _ _ _ _ _ _ H E).
Qed.

Lemma copy2_outside env base r src fs res fs' :
  r <> [] ->
  Shutil.copy2 env src (base ++ r) fs = (res, fs') ->
  same_outside base fs fs'.
Proof.
  intros Hr H q Hq. apply untouched_lookup.
  eapply copy2_frame; [exact H|]. now apply outside_not_below.
Qed.

Lemma relocate_one_outside env options rs fs r fs' :
  is_dir fs (base_dir options) = true -> rs <> [] ->
  relocate_one env options (base_dir options ++ rs) fs = (r, fs') ->
  same_outside (base_dir options) fs fs'.
Proof.
  intros Hb Hrs H. apply relocate_one_steps in H.
  destruct H as [->|(dt & r1 & fsd & Hmk & H)]; [apply same_outside_refl|].
  assert (Ed : forall nm,
             dest_dir_of options dt // nm
             = base_dir options ++ [year_str dt; month_str dt; nm]).
  { intros nm. unfold dest_dir_of, PurePath.joinpath.
    now rewrite <- !app_assoc. }
  assert (Hd : same_outside (base_dir options) fs fsd).
  { apply (mkdir_p_outside env _ [year_str dt; month_str dt] _ r1);
      [exact Hb|].
    rewrite <- Hmk. f_equal. unfold dest_dir_of, PurePath.joinpath.
    now rewrite <- !app_assoc. }
  destruct H as [->|(nm & _ & _ & _ & H)]; [exact Hd|].
  apply (same_outside_trans _ _ fsd); [exact Hd|]. rewrite Ed in H.
  destruct (copy_no_backup options).
  - destruct H as (m & d & _ & ->). now apply set_at_outside.
  - destruct H as (n1 & _ & _ & ->).
    apply (same_outside_trans _ _ (set_at (base_dir options ++ rs) None fsd));
      now apply set_at_outside.
Qed.

Lemma relocate_loop_outside env options files :
  Forall (fun src => exists rs, rs <> [] /\ src = base_dir options ++ rs)
    files ->
  forall acc fs r fs',
    is_dir fs (base_dir options) = true ->
    relocate_loop env options files acc fs = (r, fs') ->
    same_outside (base_dir options) fs fs'.
Proof.
  induction files as [|src rest IH]; intros Hall acc fs r fs' Hb;
    cbn [relocate_loop].
  - unfold ret. intros [= <- <-]. apply same_outside_refl.
  - apply Forall_cons_iff in Hall. destruct Hall as [(rs & Hrs & ->) Hall].
    unfold bind. destruct acc as [[moved errors] logs].
    rewrite relocate_step_eq.
    destruct (relocate_one env options _ fs) as [[line|e] fs1] eqn:E;
      apply relocate_one_outside in E; try assumption;
      intros H; apply IH in H; try assumption;
      try (now rewrite (same_outside_is_dir _ _ _ E));
      eapply same_outside_trans; eauto.
Qed.

Lemma backup_one_outside env base src fs r fs' :
  is_dir fs base = true ->
  backup_one env base src fs = (r, fs') -> same_outside base fs fs'.
Proof.
  intros Hb. unfold backup_one.
  set (rel := match PurePath.relative_to src base with
              | Some r0 => r0
              | None => [PurePath.name src]
              end).
  assert (Ed : backup_root env base ++ rel
               = base ++ (backup_prefix ^^ " " ^^ now_stamp env) :: rel).
  { unfold backup_root, PurePath.joinpath. now rewrite <- app_assoc. }
  rewrite Ed. unfold PurePath.parent.
  rewrite removelast_app by discriminate. unfold_m.
  destruct (Pathlib.mkdir_p env _ fs) as [[[]|e] fs1] eqn:Em;
    apply mkdir_p_outside in Em; try assumption.
  - intros H. apply copy2_outside in H; [|discriminate].
    eapply same_outside_trans; eauto.
  - intros [= <- <-]. exact Em.
Qed.

Lemma backup_loop_outside env base files :
  forall errors logs fs r fs',
    is_dir fs base = true ->
    backup_loop env base files errors logs fs = (r, fs') ->
    same_outside base fs fs'.
Proof.
  induction files as [|src rest IH]; intros errors logs fs r fs' Hb;
    cbn [backup_loop].
  - unfold ret. intros [= <- <-]. apply same_outside_refl.
  - unfold_m.
    destruct (backup_one env base src fs) as [[[]|e] fs1] eqn:E;
      apply backup_one_outside in E; try assumption;
      intros H; apply IH in H;
      try (now rewrite (same_outside_is_dir _ _ _ E));
      eapply same_outside_trans; eauto.
Qed.

(** A scan that found a file has a directory for base. *)
Lemma scanned_base_is_dir base rec fs files fs0 :
  gather_files base rec fs = (Return files, fs0) -> files <> [] ->
  is_dir fs base = true /\
  Forall (fun src => exists rs, rs <> [] /\ src = base ++ rs) files.
Proof.
  intros G Hne.
  pose proof (ScanFacts.gather_files_below _ _ _ _ _ G) as Hb.
  pose proof (gather_files_regular _ _ _ _ _ G) as Hr.
  rewrite Forall_forall in Hb, Hr. split.
  - destruct files as [|f0 rest]; [congruence|].
    destruct (Hb f0 (or_introl eq_refl)) as (ds & nm & E & _).
    specialize (Hr f0 (or_introl eq_refl)). rewrite E in Hr.
    apply is_file_lookup in Hr. destruct Hr as (m & d & Hr).
    destruct ds as [|d0 ds]; eapply lookup_below; exact Hr.
  - apply Forall_forall. intros src Hin.
    destruct (Hb _ Hin) as (ds & nm & -> & _).
    exists (ds ++ [nm]). split; [now destruct ds|reflexivity].
Qed.

Lemma sort_files_outside env options fs r fs' :
  sort_files env options fs = (r, fs') ->
  same_outside (base_dir options) fs fs'.
Proof.
  intros H. unfold sort_files in H. unfold bind at 1 in H.
  destruct (gather_files (base_dir options) (include_subdirs options) fs)
    as [[files|e] fs0] eqn:G.
  - pose proof (gather_files_readonly (base_dir options)
                  (include_subdirs options) fs) as Hro.
    rewrite G in Hro. simpl in Hro. subst fs0.
    destruct files as [|f0 rest].
    + unfold ret in H. inversion H; subst. apply same_outside_refl.
    + destruct (scanned_base_is_dir _ _ _ _ _ G ltac:(discriminate))
        as [Hb Hall].
      unfold bind in H.
      destruct (backup_phase env options (f0 :: rest) fs) as [[bk|e] fsb]
        eqn:B.
      * assert (Hbk : same_outside (base_dir options) fs fsb).
        { unfold backup_phase, _backup_files in B.
          destruct (copy_no_backup options); cbn [negb] in B.
          - unfold ret in B. inversion B; subst. apply same_outside_refl.
          - eapply backup_loop_outside; eauto. }
        apply relocate_loop_outside in H; try assumption.
        -- eapply same_outside_trans; eauto.
        -- now rewrite (same_outside_is_dir _ _ _ Hbk).
      * destruct (backup_phase_total env options (f0 :: rest) fs)
          as (? & ? & ? & Hbt & _). congruence.
  - pose proof (gather_files_readonly (base_dir options)
                  (include_subdirs options) fs) as Hro.
    rewrite G in Hro. simpl in Hro. subst fs0.
    inversion H; subst. apply same_outside_refl.
Qed.

End FootprintFacts.

Import FootprintFacts.

(** X9.  A run that copies removes nothing and overwrites nothing:
    whatever existed before the run exists after it, a regular file with
    the content and the metadata it had, a directory as a directory. *)
Theorem copy_run_keeps_what_exists (env : Env) (options : SortOptions)
  (fs fs' : node) (r : Result tally) :
  copy_no_backup options = true ->
  sort_files env options fs = (r, fs') ->
  (forall q m d,
      FS.lookup fs q = Some (File m d) -> FS.lookup fs' q = Some (File m d)) /\
  (forall q, FS.is_dir fs q = true -> FS.is_dir fs' q = true).
Proof.
  intros Hc H.
  assert (Hs : stays fs fs').
  { unfold sort_files in H. unfold bind in H.
    pose proof (gather_files_readonly (base_dir options)
                  (include_subdirs options) fs) as Hro.
    destruct (gather_files (base_dir options) (include_subdirs options) fs)
      as [[files|e] fs0]; simpl in Hro; subst fs0.
    - destruct files as [|f0 rest].
      + unfold ret in H. inversion H; subst. apply stays_refl.
      + unfold backup_phase in H. rewrite Hc in H. cbn [negb] in H.
        unfold ret in H.
        eapply relocate_loop_copy_stays; eauto.
    - inversion H; subst. apply stays_refl. }
  split.
  - intros q m d Hq. apply RunFacts.kept_file. now apply Hs.
  - intros q Hq. apply FSFacts.is_dir_lookup in Hq.
    destruct Hq as (m & es & Hq). specialize (Hs q _ Hq). unfold FS.is_dir.
    destruct (FS.lookup fs' q) as [[m' d'|m' es']|]; simpl in Hs; congruence.
Qed.


(** X11.  The log of a run that found files: first the [Backup error] lines
    of the backup stage, as many as it counted errors (none when the run
    copies), then one line for each file of the scan, in the order of the
    scan, which is either the [Copied:] or [Moved:] line of that file or
    its [Error moving] line.  The first count of the result is the number
    of lines of the first kind, the second count is the number of error
    lines of both stages. *)
Theorem log_has_a_line_per_file (env : Env) (options : SortOptions)
  (fs fs0 : node) (files : list path) :
  gather_files (base_dir options) (include_subdirs options) fs
    = (Return files, fs0) ->
  files <> [] ->
  exists b_logs run_logs moved errors fs',
    sort_files env options fs
      = (Return (moved, errors, b_logs ++ run_logs), fs') /\
    Forall (fun l => PyStr.startswith l "Backup error " = true) b_logs /\
    (copy_no_backup options = true -> b_logs = []) /\
    Forall2 (relocation_line options) files run_logs /\
    moved = List.length (filter (fun l => negb (is_error_line l)) run_logs) /\
    errors = List.length b_logs + List.length (filter is_error_line run_logs).
Proof.
  intros G Hne.
  rewrite (LoopFacts.sort_files_scanned _ _ _ _ _ G Hne). unfold bind at 1.
  destruct (LoopFacts.backup_phase_total env options files fs0)
    as (b_errors & b_logs & fsb & Hb & _).
  rewrite Hb. cbn [fst snd app Nat.add].
  destruct (LoopFacts.relocate_loop_total env options files
              (0, b_errors, b_logs) fsb)
    as ([[moved errors] logs] & fs' & Hl).
  destruct (relocate_loop_log _ _ _ _ _ _ _ _ _ _ _ Hl)
    as (new & -> & Hall & -> & ->).
  destruct (backup_phase_log _ _ _ _ _ _ _ Hb) as (-> & _ & Hbl & Hcopy).
  exists b_logs, new. do 3 eexists. split; [exact Hl|].
  split; [exact Hbl|]. split; [intros Hc; now apply Hcopy|].
  split; [exact Hall|]. split; reflexivity.
Qed.

(* ================================================================= *)
(** ** Runs without errors *)

Module SuccessRun.

Import FS FSFacts OpFacts MkdirFacts TransferFacts RelocateFacts LoopFacts
  SuccessFacts RunFacts MkdirFrame FootprintFacts.

#[local] Arguments relocate_step : simpl never.

(** In a directory, a name resolves to a node or to nothing. *)
Lemma resolve_child fs d s :
  is_dir fs d = true ->
  match resolve fs (d // s) with
  | Found _ | NoEnt => True
  | NotDir => False
  end.
Proof.
  intros H. apply is_dir_lookup in H. destruct H as (m & es & H).
  apply lookup_resolve in H. unfold PurePath.joinpath.
  rewrite resolve_app, H. simpl. now destruct (assoc s es).
Qed.

(** [mkdir] of a name in a directory, with [exist_ok]: it succeeds unless
    a regular file has that name. *)
Lemma os_mkdir_child env fs d s :
  is_dir fs d = true -> is_file fs (d // s) = false ->
  (exists fs', Os.mkdir env (d // s) fs = (Return tt, fs'))
  \/ (is_dir fs (d // s) = true /\
      Os.mkdir env (d // s) fs = (Raise (eexist (d // s)), fs)).
Proof.
  intros Hd Hf. pose proof (resolve_child fs d s Hd) as Hr.
  unfold Os.mkdir. rewrite parent_join, Hd.
  unfold is_file, is_dir, lookup in *.
  destruct (resolve fs (d // s)) as [[m x|m es]| |]; try discriminate;
    try contradiction; eauto.
Qed.

Lemma mkdir_one_child env fs d s :
  is_dir fs d = true -> is_file fs (d // s) = false ->
  exists fs', Pathlib.mkdir_one env true (d // s) fs = (Return tt, fs').
Proof.
  intros Hd Hf. unfold Pathlib.mkdir_one. unfold_m.
  destruct (os_mkdir_child env fs d s Hd Hf) as [(fs' & ->)|(Hx & ->)];
    [eauto|].
  cbn. rewrite Hx. cbn. eauto.
Qed.

Lemma mkdir_parents_child env fs rp s :
  is_dir fs (rev rp) = true -> is_file fs (rev (s :: rp)) = false ->
  exists fs',
    Pathlib.mkdir_parents_rev env true (s :: rp) fs = (Return tt, fs').
Proof.
  intros Hd Hf. rewrite mkdir_parents_rev_eq. unfold_m.
  change (rev (s :: rp)) with (rev rp // s) in *.
  destruct (os_mkdir_child env fs _ s Hd Hf) as [(fs' & ->)|(Hx & ->)];
    [eauto|].
  cbn. rewrite Hx. cbn. eauto.
Qed.

(** [mkdir(parents=True, exist_ok=True)] of [base/y/m] in a directory
    [base] succeeds unless a regular file is in the way. *)
Lemma mkdir_p_two_levels env fs b y m :
  is_dir fs b = true ->
  is_file fs (b // y) = false -> is_file fs (b // y // m) = false ->
  exists fs', Pathlib.mkdir_p env (b // y // m) fs = (Return tt, fs').
Proof.
  intros Hb Hy Hm. unfold Pathlib.mkdir_p.
  assert (Er : rev (b // y // m) = m :: y :: rev b).
  { unfold PurePath.joinpath. now rewrite !rev_app_distr. }
  rewrite Er.
  assert (E1 : rev (y :: rev b) = b // y).
  { cbn [rev]. now rewrite rev_involutive. }
  assert (E2 : rev (m :: y :: rev b) = b // y // m).
  { cbn [rev]. now rewrite rev_involutive. }
  destruct (is_dir fs (b // y)) eqn:Dy.
  - apply mkdir_parents_child; [now rewrite E1|now rewrite E2].
  - rewrite mkdir_parents_rev_eq. unfold_m. rewrite E2.
    assert (Hn : resolve fs (b // y) = NoEnt).
    { pose proof (resolve_child fs b y Hb) as Hr.
      unfold is_dir, is_file, lookup in *.
      destruct (resolve fs (b // y)) as [[? ?|? ?]| |];
        try discriminate; try contradiction; reflexivity. }
    assert (Hn2 : resolve fs (b // y // m) = NoEnt).
    { unfold PurePath.joinpath at 1. now rewrite resolve_app, Hn. }
    unfold Os.mkdir. rewrite Hn2, parent_join, Dy.
    change (is_file_not_found (kind (enoent (b // y // m)))) with true.
    cbv beta iota.
    destruct (mkdir_parents_child env fs (rev b) y) as (fs1 & H1).
    + now rewrite rev_involutive.
    + now rewrite E1.
    + rewrite H1.
      pose proof (mkdir_parents_rev_spec _ _ _ _ _ _ H1) as [Hg Hd].
      specialize (Hd eq_refl). rewrite E1 in Hd.
      apply mkdir_one_child; [exact Hd|].
      now rewrite (grows_is_file fs fs1 _ Hg).
Qed.

(** A copy to a path that does not exist, in a directory, of a file that
    may be read. *)
Lemma copy2_fresh_ok env src dst fs m d :
  lookup fs src = Some (File m d) -> readable m = true ->
  exists_ fs dst = false -> is_dir fs (PurePath.parent dst) = true ->
  dst <> [] ->
  Shutil.copy2 env src dst fs
  = (Return tt, set_at dst (Some (File (Shutil.copied_meta env m) d)) fs).
Proof.
  intros Hs Hr Hx Hp Hne. unfold Shutil.copy2.
  assert (Hnd : is_dir fs dst = false).
  { unfold is_dir, exists_ in *. now destruct (lookup fs dst). }
  rewrite Hnd.
  assert (Hneq : path_eqb src dst = false).
  { apply path_eqb_neq. intros ->. unfold exists_ in Hx.
    now rewrite Hs in Hx. }
  rewrite Hneq. cbn [andb].
  apply lookup_resolve in Hs. rewrite Hs, Hr. cbn [negb].
  now rewrite (fresh_resolve _ _ Hx Hp Hne), Hp.
Qed.

Lemma fromtimestamp_ok env ts dt fs :
  localtime env ts = Some (dt_year dt, dt_month dt) ->
  (1 <= dt_year dt <= 9999)%Z -> (1 <= dt_month dt <= 12)%Z ->
  fromtimestamp env ts fs = (Return dt, fs).
Proof.
  intros Hl Hy Hm. unfold fromtimestamp. rewrite Hl.
  destruct (Z.leb_spec 1 (dt_year dt)); [|lia].
  destruct (Z.leb_spec (dt_year dt) 9999); [|lia].
  destruct (Z.leb_spec 1 (dt_month dt)); [|lia].
  destruct (Z.leb_spec (dt_month dt) 12); [|lia].
  now destruct dt.
Qed.

(** The relocation of a file that can be relocated, when the run copies. *)
Lemma relocate_one_copy_ok env options fs src m d dt :
  copy_no_backup options = true ->
  is_dir fs (base_dir options) = true ->
  relocatable env options fs src m d dt ->
  exists nm fsd,
    relocate_one env options src fs
    = (Return (success_line options src dt),
       set_at (dest_dir_of options dt // nm)
         (Some (File (Shutil.copied_meta env m) d)) fsd) /\
    grows fs fsd /\
    is_dir fsd (dest_dir_of options dt) = true /\
    exists_ fsd (dest_dir_of options dt // nm) = false /\
    numbered (PurePath.name src) nm.
Proof.
  intros Hc Hb (Hl & Hr & Hlt & Hy & Hm & Hfy & Hfm).
  destruct (mkdir_p_two_levels env fs _ _ _ Hb Hfy Hfm) as (fsd & Hmk).
  change (base_dir options // year_str dt // month_str dt)
    with (dest_dir_of options dt) in Hmk.
  pose proof (mkdir_p_spec _ _ _ _ _ Hmk) as [Hg Hd].
  specialize (Hd eq_refl).
  destruct (unique_destination_name fsd (dest_dir_of options dt)
              (PurePath.name src)) as (nm & Hu & Hnm).
  destruct (destination_fresh options dt src fsd Hd) as (Hfresh & Hpd & Hne).
  rewrite Hu in Hfresh, Hpd, Hne.
  exists nm, fsd. split; [|auto].
  unfold relocate_one. unfold bind at 1. unfold Os.stat.
  pose proof Hl as Hres. apply lookup_resolve in Hres. rewrite Hres.
  cbn [node_meta]. unfold bind at 1.
  rewrite (fromtimestamp_ok env _ dt fs Hlt Hy Hm).
  unfold bind at 1. fold (dest_dir_of options dt). rewrite Hmk.
  unfold bind at 1, gets. rewrite Hu.
  unfold transfer. rewrite Hc. unfold bind, ret.
  rewrite (copy2_fresh_ok env src _ fsd m d); try assumption.
  - unfold success_line. now rewrite Hc.
  - now apply (grows_file fs fsd).
Qed.

Lemma relocatable_after_copy env options fs fsd dst f src m d dt :
  grows fs fsd -> exists_ fsd dst = false ->
  is_dir fsd (PurePath.parent dst) = true ->
  List.length dst = List.length (base_dir options) + 3 ->
  relocatable env options fs src m d dt ->
  relocatable env options (set_at dst (Some f) fsd) src m d dt.
Proof.
  intros Hg Hx Hp Hlen (Hl & Hr & Hlt & Hy & Hm & Hfy & Hfm).
  assert (Hne : dst <> []) by (intros ->; simpl in Hlen; lia).
  split; [|split; [exact Hr|split; [exact Hlt|split; [exact Hy|
    split; [exact Hm|split]]]]].
  - apply kept_file.
    apply (created_lookup fsd dst f src _ Hx Hp Hne).
    now apply (grows_file fs fsd).
  - rewrite <- Hfy, <- (grows_is_file fs fsd _ Hg).
    apply option_shape_eq_is_file, lookup_set_at_frame.
    apply relative_to_shorter. unfold PurePath.joinpath.
    rewrite !length_app. simpl. lia.
  - rewrite <- Hfm, <- (grows_is_file fs fsd _ Hg).
    apply option_shape_eq_is_file, lookup_set_at_frame.
    apply relative_to_shorter. unfold PurePath.joinpath.
    rewrite !length_app. simpl. lia.
Qed.

Lemma stays_is_dir fs fs' q :
  stays fs fs' -> is_dir fs q = true -> is_dir fs' q = true.
Proof.
  intros H Hq. apply is_dir_lookup in Hq. destruct Hq as (m & es & Hq).
  specialize (H _ _ Hq). unfold is_dir.
  destruct (lookup fs' q) as [[? ?|? ?]|]; simpl in H; congruence.
Qed.

(** The loop of a run that copies, over files that can be relocated. *)
Lemma relocate_loop_copy_ok env options files :
  copy_no_backup options = true ->
  forall moved errors logs fs,
    is_dir fs (base_dir options) = true ->
    (forall src, In src files ->
       exists m d dt, relocatable env options fs src m d dt) ->
    exists logs' fs',
      relocate_loop env options files (moved, errors, logs) fs
      = (Return (moved + List.length files, errors, logs'), fs') /\
      forall src m d dt,
        In src files -> relocatable env options fs src m d dt ->
        exists nm,
          numbered (PurePath.name src) nm /\
          lookup fs' (dest_dir_of options dt // nm)
          = Some (File (Shutil.copied_meta env m) d).
Proof.
  intros Hc. induction files as [|src rest IH];
    intros moved errors logs fs Hb Hall; cbn [relocate_loop].
  - exists logs, fs. unfold ret. rewrite Nat.add_0_r.
    split; [reflexivity|]. intros ? ? ? ? [].
  - destruct (Hall src (or_introl eq_refl)) as (m & d & dt & Hrel).
    destruct (relocate_one_copy_ok env options fs src m d dt Hc Hb Hrel)
      as (nm & fsd & H1 & Hg & Hd & Hfresh & Hnm).
    set (dst := dest_dir_of options dt // nm) in *.
    set (fs1 := set_at dst (Some (File (Shutil.copied_meta env m) d)) fsd)
      in *.
    assert (Hpd : is_dir fsd (PurePath.parent dst) = true)
      by (unfold dst; now rewrite parent_join).
    assert (Hlen : List.length dst = List.length (base_dir options) + 3).
    { unfold dst, dest_dir_of, PurePath.joinpath. rewrite !length_app.
      simpl. lia. }
    assert (Hst : stays fs fs1)
      by (eapply relocate_one_copy_stays; eauto).
    assert (Hnext : forall s m0 d0 dt0,
               relocatable env options fs s m0 d0 dt0 ->
               relocatable env options fs1 s m0 d0 dt0).
    { intros s m0 d0 dt0 Hs. unfold fs1.
      now apply (relocatable_after_copy env options fs). }
    destruct (IH (S moved) errors
                (logs ++ [success_line options src dt]) fs1)
      as (logs' & fs' & Hl & Hcopies).
    + now apply (stays_is_dir fs).
    + intros s Hin. destruct (Hall s (or_intror Hin)) as (m0 & d0 & dt0 & Hs).
      exists m0, d0, dt0. now apply Hnext.
    + exists logs', fs'. split.
      * unfold bind. rewrite relocate_step_eq, H1. rewrite Hl.
        replace (moved + List.length (src :: rest))
          with (S moved + List.length rest) by (simpl; lia).
        reflexivity.
      * intros s m0 d0 dt0 [<-|Hin] Hs.
        -- destruct Hrel as (Hl0 & _ & Hlt0 & _), Hs as (Hl1 & _ & Hlt1 & _).
           rewrite Hl0 in Hl1. inversion Hl1; subst m0 d0.
           assert (Edt : dt0 = dt).
           { rewrite Hlt0 in Hlt1. destruct dt, dt0. simpl in *. congruence. }
           subst dt0. exists nm. split; [exact Hnm|].
           apply kept_file.
           apply (relocate_loop_copy_stays env options rest Hc _ _ _ _ Hl).
           fold dst. unfold fs1.
           assert (Hne : dst <> []) by (intros E; rewrite E in Hlen;
                                        simpl in Hlen; lia).
           rewrite (parent_name dst Hne).
           apply lookup_set_at_same. exact Hpd.
        -- apply Hcopies; [exact Hin|]. now apply Hnext.
Qed.

End SuccessRun.

Import SuccessRun.


(* ================================================================= *)
(** ** Runs that move, without errors *)

Module MoveRun.

Import FS FSFacts OpFacts MkdirFacts TransferFacts RelocateFacts LoopFacts
  SuccessFacts RunFacts MkdirFrame FootprintFacts SuccessRun BackupFacts
  ScanFacts.

#[local] Arguments relocate_step : simpl never.
#[local] Arguments backup_one : simpl never.

(** *** [mkdir(parents=True, exist_ok=True)] succeeds unless a file is in
    the way *)

Lemma resolve_notdir p :
  forall t, resolve t p = NotDir -> exists k, is_file t (firstn k p) = true.
Proof.
  induction p as [|s p IH]; intros t H; [discriminate|].
  destruct t as [m d|m es].
  - exists 0. reflexivity.
  - cbn [resolve] in H. destruct (assoc s es) as [c|] eqn:E; [|discriminate].
    destruct (IH c H) as (k & Hk). exists (S k).
    cbn [firstn]. unfold is_file in *. now rewrite lookup_cons_dir, E.
Qed.

Lemma prefix_of_dir_is_no_file fs p k :
  is_dir fs p = true -> is_file fs (firstn k p) = false.
Proof.
  intros H. apply is_dir_lookup in H. destruct H as (m & es & H).
  rewrite <- (firstn_skipn k p), lookup_app in H. unfold is_file.
  destruct (lookup fs (firstn k p)) as [[m0 d0|m0 es0]|]; try reflexivity.
  destruct (skipn k p); discriminate.
Qed.

Lemma firstn_rev_cons {A} (s : A) rp k :
  k <= List.length rp -> firstn k (rev (s :: rp)) = firstn k (rev rp).
Proof.
  intros H. cbn [rev]. rewrite firstn_app.
  replace (k - List.length (rev rp)) with 0 by (rewrite length_rev; lia).
  cbn [firstn]. now rewrite app_nil_r.
Qed.

Lemma mkdir_parents_ok env rp :
  forall fs,
    (forall k, is_file fs (firstn k (rev rp)) = false) ->
    exists fs', Pathlib.mkdir_parents_rev env true rp fs = (Return tt, fs').
Proof.
  induction rp as [|s rp IH]; intros fs Hno;
    rewrite mkdir_parents_rev_eq; unfold_m.
  - unfold Os.mkdir. cbn [rev resolve].
    change (is_file_not_found (kind (eexist []))) with false.
    change (is_oserror (kind (eexist []))) with true. cbv beta iota.
    specialize (Hno 0). cbn in Hno. unfold is_dir. rewrite lookup_nil.
    destruct fs; [discriminate|]. cbn. eauto.
  - pose proof (Hno (List.length (rev (s :: rp)))) as Hp.
    rewrite firstn_all in Hp.
    unfold Os.mkdir.
    destruct (resolve fs (rev (s :: rp))) as [n| |] eqn:R.
    + change (is_file_not_found (kind (eexist (rev (s :: rp))))) with false.
      change (is_oserror (kind (eexist (rev (s :: rp))))) with true.
      cbv beta iota.
      assert (Hd : is_dir fs (rev (s :: rp)) = true).
      { unfold is_dir, is_file, lookup in *. rewrite R in *.
        now destruct n. }
      rewrite Hd. cbn. eauto.
    + destruct (is_dir fs (PurePath.parent (rev (s :: rp)))) eqn:D; [eauto|].
      change (is_file_not_found (kind (enoent (rev (s :: rp))))) with true.
      cbv beta iota.
      destruct (IH fs) as (fs1 & H1).
      { intros k. destruct (Nat.le_gt_cases k (List.length rp)) as [Hk|Hk].
        - rewrite <- (firstn_rev_cons s) by assumption. apply Hno.
        - rewrite firstn_all2 by (rewrite length_rev; lia).
          rewrite <- (firstn_all (rev rp)), length_rev,
            <- (firstn_rev_cons s) by lia.
          apply Hno. }
      rewrite H1.
      pose proof (mkdir_parents_rev_spec _ _ _ _ _ _ H1) as [Hg Hd].
      specialize (Hd eq_refl).
      change (rev (s :: rp)) with (rev rp // s) in *.
      apply mkdir_one_child; [exact Hd|].
      now rewrite (grows_is_file fs fs1 _ Hg).
    + exfalso. destruct (resolve_notdir _ _ R) as (k & Hk).
      now rewrite Hno in Hk.
Qed.

Lemma mkdir_p_ok env p fs :
  (forall k, is_file fs (firstn k p) = false) ->
  exists fs', Pathlib.mkdir_p env p fs = (Return tt, fs').
Proof.
  intros H. unfold Pathlib.mkdir_p. apply mkdir_parents_ok.
  now rewrite rev_involutive.
Qed.

(** A copy over a regular file or to a free name, in a directory, of a
    file that may be read. *)
Lemma copy2_ok env src dst fs m d :
  lookup fs src = Some (File m d) -> readable m = true ->
  src <> dst -> is_dir fs dst = false ->
  is_dir fs (PurePath.parent dst) = true -> dst <> [] ->
  Shutil.copy2 env src dst fs
  = (Return tt, set_at dst (Some (File (Shutil.copied_meta env m) d)) fs).
Proof.
  intros Hs Hr Hneq Hnd Hp Hne. unfold Shutil.copy2. rewrite Hnd.
  apply path_eqb_neq in Hneq. rewrite Hneq. cbn [andb].
  apply lookup_resolve in Hs. rewrite Hs, Hr. cbn [negb].
  pose proof (resolve_child fs (PurePath.parent dst) (PurePath.name dst) Hp)
    as Hc.
  rewrite <- (parent_name dst Hne) in Hc.
  unfold is_dir, lookup in Hnd.
  destruct (resolve fs dst) as [[m1 d1|m1 es1]| |];
    try discriminate; try contradiction; [reflexivity|].
  now rewrite Hp.
Qed.

Lemma mkdir_p_ok_prefixes env p fs :
  (forall q r, p = q ++ r -> is_file fs q = false) ->
  exists fs', Pathlib.mkdir_p env p fs = (Return tt, fs').
Proof.
  intros H. apply mkdir_p_ok. intros k.
  apply (H _ (skipn k p)). now rewrite firstn_skipn.
Qed.

Lemma above_dir_is_no_file fs q l :
  is_dir fs (q ++ l) = true -> is_file fs q = false.
Proof.
  unfold is_dir, is_file. rewrite lookup_app.
  destruct (lookup fs q) as [[m d|m es]|]; try reflexivity.
  destruct l; discriminate.
Qed.

Lemma relative_to_other_child (d : path) (s t : string) (x : path) :
  s <> t -> PurePath.relative_to (d ++ s :: x) (d ++ [t]) = None.
Proof.
  intros H. induction d as [|c d IH]; simpl.
  - destruct (String.eqb_spec t s); [congruence|reflexivity].
  - now rewrite String.eqb_refl.
Qed.

(** *** The backup stage without errors *)

Section BackupOk.

Variable env : Env.
Variable fs0 : node.
Variable base : path.

#[local] Abbreviation root := (backup_root env base).

Hypothesis root_fresh : exists_ fs0 root = false.

Lemma source_below_dir fs src rel :
  is_source fs0 base src rel -> backup_invariant env fs0 base fs ->
  is_dir fs base = true.
Proof.
  intros (-> & Hrel & Hf) [_ Hk]. apply is_file_lookup in Hf.
  destruct Hf as (m & d & Hf). apply Hk in Hf.
  destruct rel as [|s rel]; [congruence|]. eapply lookup_below; eauto.
Qed.

Lemma backup_one_ok src rel fs m d :
  is_source fs0 base src rel -> backup_invariant env fs0 base fs ->
  lookup fs0 src = Some (File m d) -> readable m = true ->
  exists fs', backup_one env base src fs = (Return tt, fs').
Proof.
  intros Hs Hinv Hl Hr. pose proof Hs as (Hsrc & Hrel & Hf).
  pose proof (source_below_dir _ _ _ Hs Hinv) as Hb.
  destruct (mkdir_p_ok_prefixes env (PurePath.parent (root ++ rel)) fs)
    as (fs1 & Hmk).
  { intros q r E. rewrite (parent_of_backup env base rel Hrel) in E.
    unfold backup_root, PurePath.joinpath in E. rewrite <- app_assoc in E.
    apply app_eq_app in E.
    destruct E as (l & [[E1 E2]|[E1 E2]]).
    - rewrite E1 in Hb. eapply above_dir_is_no_file; eauto.
    - destruct l as [|s l].
      + rewrite app_nil_r in E1. subst q.
        apply (above_dir_is_no_file fs base []). now rewrite app_nil_r.
      + cbn [app] in E2. inversion E2; subst s.
        destruct Hinv as [Hm _]. specialize (Hm l).
        unfold backup_root, PurePath.joinpath in Hm.
        rewrite <- app_assoc in Hm. cbn [app] in Hm.
        rewrite E1. unfold is_file.
        destruct (lookup fs (base ++ _ :: l)) as [[m1 d1|m1 es1]|];
          try reflexivity.
        destruct Hm as (m2 & Hm2 & _).
        assert (Hd : is_dir fs0 (base ++ l) = true).
        { apply (above_source_is_dir fs0 base src rel l
                   (r ++ [last rel EmptyString])).
          - exact Hs.
          - rewrite app_assoc, <- H1. now apply removelast_nonempty.
          - now destruct r. }
        unfold is_dir in Hd. now rewrite Hm2 in Hd. }
  pose proof (mkdir_p_spec _ _ _ _ _ Hmk) as [Hg Hd].
  specialize (Hd eq_refl).
  destruct (backup_dirs_inv env fs0 base src rel fs _ fs1 Hs Hinv Hmk)
    as [[Hm1 Hk1] _].
  exists (set_at (root ++ rel) (Some (File (Shutil.copied_meta env m) d)) fs1).
  unfold backup_one. rewrite Hsrc, relative_to_app. rewrite <- Hsrc.
  unfold bind. rewrite Hmk.
  apply copy2_ok; try assumption.
  - now apply Hk1.
  - intros E. assert (Hx : exists_ fs0 src = true)
      by (unfold exists_; now rewrite Hl).
    rewrite E in Hx. apply exists_prefix in Hx. congruence.
  - specialize (Hm1 rel). unfold is_dir.
    destruct (lookup fs1 (root ++ rel)) as [[m' d'|m' es']|];
      try reflexivity.
    rewrite <- Hsrc in Hm1. unfold is_dir in Hm1. now rewrite Hl in Hm1.
  - unfold backup_root, PurePath.joinpath. now destruct base.
Qed.

Lemma backup_loop_ok files :
  (forall src, In src files ->
     exists rel m d,
       is_source fs0 base src rel /\ lookup fs0 src = Some (File m d) /\
       readable m = true) ->
  forall errors logs fs,
    backup_invariant env fs0 base fs ->
    exists fs',
      backup_loop env base files errors logs fs
      = (Return (errors, logs), fs').
Proof.
  induction files as [|src rest IH]; intros Hall errors logs fs Hinv;
    cbn [backup_loop].
  - exists fs. reflexivity.
  - destruct (Hall src (or_introl eq_refl)) as (rel & m & d & Hs & Hl & Hr).
    destruct (backup_one_ok src rel fs m d Hs Hinv Hl Hr) as (fs1 & H1).
    destruct (backup_one_inv env fs0 base root_fresh _ _ _ _ _ Hs Hinv H1)
      as (Hinv1 & _).
    unfold_m. rewrite H1.
    apply IH; [|exact Hinv1]. intros s Hin. apply Hall. now right.
Qed.

End BackupOk.

(** *** The backup stage changes nothing beside its folder *)

Lemma same_beside_refl root fs : same_beside root fs fs.
Proof. intros q _. reflexivity. Qed.

Lemma same_beside_trans root fs1 fs2 fs3 :
  same_beside root fs1 fs2 -> same_beside root fs2 fs3 ->
  same_beside root fs1 fs3.
Proof. intros H12 H23 q Hq. now rewrite (H23 q Hq), (H12 q Hq). Qed.

Lemma same_beside_base base bk fs fs' :
  same_beside (base ++ [bk]) fs fs' -> is_dir fs' base = is_dir fs base.
Proof.
  intros H. apply option_shape_eq_is_dir. apply H.
  apply relative_to_shorter. rewrite length_app. simpl. lia.
Qed.

Lemma mkdir_p_beside env base bk r fs res fs' :
  is_dir fs base = true ->
  Pathlib.mkdir_p env (base ++ bk :: r) fs = (res, fs') ->
  same_beside (base ++ [bk]) fs fs'.
Proof.
  intros Hb H q Hq.
  destruct (PurePath.relative_to (base ++ bk :: r) q) as [y|] eqn:E.
  - apply relative_to_some in E.
    assert (Hp : exists l, base = q ++ l).
    { apply app_eq_app in E. destruct E as (l & [[E1 E2]|[E1 E2]]).
      - eauto.
      - destruct l as [|s l].
        + exists []. now rewrite app_nil_r in *.
        + cbn [app] in E2. inversion E2; subst s. exfalso.
          rewrite E1 in Hq.
          change (base ++ bk :: l) with (base ++ [bk] ++ l) in Hq.
          rewrite app_assoc, relative_to_app in Hq. discriminate. }
    destruct Hp as (l & Hl).
    assert (Hex : exists_ fs q = true).
    { apply (exists_prefix fs q l). rewrite <- Hl. unfold exists_.
      apply is_dir_lookup in Hb. destruct Hb as (m & es & ->). reflexivity. }
    unfold exists_ in Hex. destruct (lookup fs q) as [x|] eqn:L;
      [|discriminate].
    apply mkdir_p_spec in H. destruct H as [Hg _].
    now rewrite (grows_shape _ _ _ _ Hg L).
  - now rewrite (mkdir_p_frame _ _ _ _ _ _ H E).
Qed.

Lemma backup_one_beside env base src fs r fs' :
  is_dir fs base = true ->
  backup_one env base src fs = (r, fs') ->
  same_beside (backup_root env base) fs fs'.
Proof.
  intros Hb. unfold backup_one.
  set (rel := match PurePath.relative_to src base with
              | Some r0 => r0
              | None => [PurePath.name src]
              end).
  assert (Ed : backup_root env base ++ rel
               = base ++ (backup_prefix ^^ " " ^^ now_stamp env) :: rel).
  { unfold backup_root, PurePath.joinpath. now rewrite <- app_assoc. }
  assert (Er : backup_root env base
               = base ++ [backup_prefix ^^ " " ^^ now_stamp env])
    by reflexivity.
  rewrite Ed. unfold PurePath.parent.
  rewrite removelast_app by discriminate. unfold_m.
  destruct (Pathlib.mkdir_p env _ fs) as [[[]|e] fs1] eqn:Em;
    [|intros [= <- <-]].
  - intros H. cbn [removelast] in Em.
    assert (Hmk : same_beside (backup_root env base) fs fs1).
    { rewrite Er. destruct rel as [|s0 rel0].
      - cbn [removelast] in Em.
        replace (base ++ []) with base in Em by now rewrite app_nil_r.
        intros q Hq.
        pose proof (mkdir_p_spec _ _ _ _ _ Em) as [Hg _].
        destruct (PurePath.relative_to base q) as [y|] eqn:E.
        + apply relative_to_some in E.
          assert (Hex : exists_ fs q = true).
          { apply (exists_prefix fs q y). rewrite <- E. unfold exists_.
            apply is_dir_lookup in Hb. destruct Hb as (m & es & ->).
            reflexivity. }
          unfold exists_ in Hex. destruct (lookup fs q) as [x|] eqn:L;
            [|discriminate].
          now rewrite (grows_shape _ _ _ _ Hg L).
        + now rewrite (mkdir_p_frame _ _ _ _ _ _ Em E).
      - eapply mkdir_p_beside; eauto. }
    eapply same_beside_trans; [exact Hmk|].
    intros q Hq. apply untouched_lookup.
    eapply copy2_frame; [exact H|]. rewrite <- Ed.
    now apply relative_to_none_deeper.
  - rewrite Er. destruct rel as [|s0 rel0].
    + cbn [removelast] in Em.
      replace (base ++ []) with base in Em by now rewrite app_nil_r.
      intros q Hq.
      pose proof (mkdir_p_spec _ _ _ _ _ Em) as [Hg _].
      destruct (PurePath.relative_to base q) as [y|] eqn:E.
      * apply relative_to_some in E.
        assert (Hex : exists_ fs q = true).
        { apply (exists_prefix fs q y). rewrite <- E. unfold exists_.
          apply is_dir_lookup in Hb. destruct Hb as (m & es & ->).
          reflexivity. }
        unfold exists_ in Hex. destruct (lookup fs q) as [x|] eqn:L;
          [|discriminate].
        now rewrite (grows_shape _ _ _ _ Hg L).
      * now rewrite (mkdir_p_frame _ _ _ _ _ _ Em E).
    + eapply mkdir_p_beside; eauto.
Qed.

Lemma backup_loop_beside env base files :
  forall errors logs fs r fs',
    is_dir fs base = true ->
    backup_loop env base files errors logs fs = (r, fs') ->
    same_beside (backup_root env base) fs fs'.
Proof.
  induction files as [|src rest IH]; intros errors logs fs r fs' Hb;
    cbn [backup_loop].
  - unfold ret. intros [= <- <-]. apply same_beside_refl.
  - unfold_m.
    destruct (backup_one env base src fs) as [[[]|e] fs1] eqn:E;
      apply backup_one_beside in E; try assumption;
      intros H; apply IH in H;
      try (unfold backup_root, PurePath.joinpath in E;
           now rewrite (same_beside_base _ _ _ _ E));
      eapply same_beside_trans; eauto.
Qed.

(** *** The relocation loop of a run that moves *)

(** The move of a file that can be relocated. *)
Lemma relocate_one_move_ok env options fs src m d dt :
  copy_no_backup options = false ->
  is_dir fs (base_dir options) = true ->
  relocatable env options fs src m d dt ->
  exists nm fsd,
    relocate_one env options src fs
    = (Return (success_line options src dt),
       set_at (dest_dir_of options dt // nm) (Some (File m d))
         (set_at src None fsd)) /\
    Pathlib.mkdir_p env (dest_dir_of options dt) fs = (Return tt, fsd) /\
    grows fs fsd /\
    is_dir fsd (dest_dir_of options dt) = true /\
    exists_ fsd (dest_dir_of options dt // nm) = false /\
    lookup fsd src = Some (File m d) /\
    PurePath.relative_to (dest_dir_of options dt // nm) src = None /\
    numbered (PurePath.name src) nm.
Proof.
  intros Hc Hb (Hl & Hr & Hlt & Hy & Hm & Hfy & Hfm).
  destruct (mkdir_p_two_levels env fs _ _ _ Hb Hfy Hfm) as (fsd & Hmk).
  change (base_dir options // year_str dt // month_str dt)
    with (dest_dir_of options dt) in Hmk.
  pose proof (mkdir_p_spec _ _ _ _ _ Hmk) as [Hg Hd].
  specialize (Hd eq_refl).
  destruct (unique_destination_name fsd (dest_dir_of options dt)
              (PurePath.name src)) as (nm & Hu & Hnm).
  destruct (destination_fresh options dt src fsd Hd) as (Hfresh & Hpd & Hne).
  rewrite Hu in Hfresh, Hpd, Hne.
  assert (Hsd : lookup fsd src = Some (File m d))
    by now apply (grows_file fs fsd).
  assert (Hneq : src <> dest_dir_of options dt // nm).
  { intros E. unfold exists_ in Hfresh. now rewrite <- E, Hsd in Hfresh. }
  assert (Hrel : PurePath.relative_to (dest_dir_of options dt // nm) src
                 = None).
  { destruct (PurePath.relative_to (dest_dir_of options dt // nm) src)
      as [r|] eqn:E; [|reflexivity].
    pose proof (above_fresh_is_dir fsd src _ _ r Hsd E Hneq Hpd) as Hx.
    unfold is_dir in Hx. now rewrite Hsd in Hx. }
  exists nm, fsd. split; [|auto 10].
  unfold relocate_one. unfold bind at 1. unfold Os.stat.
  pose proof Hl as Hres. apply lookup_resolve in Hres. rewrite Hres.
  cbn [node_meta]. unfold bind at 1.
  rewrite (fromtimestamp_ok env _ dt fs Hlt Hy Hm).
  unfold bind at 1. fold (dest_dir_of options dt). rewrite Hmk.
  unfold bind at 1, gets. rewrite Hu.
  unfold transfer. rewrite Hc. unfold bind at 1.
  assert (Hmove : Shutil.move env src (dest_dir_of options dt // nm) fsd
                  = (Return tt,
                     set_at (dest_dir_of options dt // nm) (Some (File m d))
                       (set_at src None fsd))).
  { unfold Shutil.move. unfold bind at 1, gets.
    assert (Hnd : is_dir fsd (dest_dir_of options dt // nm) = false).
    { unfold is_dir, exists_ in *.
      now destruct (lookup fsd (dest_dir_of options dt // nm)). }
    rewrite Hnd. unfold Shutil.rename_or_copy, try_except.
    rewrite (rename_fresh src _ fsd (fresh_resolve _ _ Hfresh Hpd Hne) Hpd).
    apply lookup_resolve in Hsd. rewrite Hsd.
    apply path_eqb_neq in Hneq. now rewrite Hneq. }
  rewrite Hmove. unfold ret, success_line. now rewrite Hc.
Qed.

(** Removing a file makes nothing a regular file. *)
Lemma is_file_after_remove fs src q :
  is_file fs src = true ->
  is_file (set_at src None fs) q = true -> is_file fs q = true.
Proof.
  intros Hs Hq.
  assert (Hne : src = [] \/ src <> [])
    by (destruct src; [now left|right; discriminate]).
  destruct Hne as [->|Hne]; [exact Hq|].
  destruct (PurePath.relative_to q src) as [y|] eqn:E.
  - exfalso. apply relative_to_some in E. subst q.
    apply is_file_lookup in Hs. destruct Hs as (m & d & Hs).
    split_path src Hne d0 s0.
    unfold is_file in Hq. rewrite lookup_set_at_below in Hq; [discriminate|].
    unfold PurePath.joinpath in Hs. eapply lookup_below; eauto.
  - rewrite <- Hq. symmetry. apply option_shape_eq_is_file.
    now apply lookup_set_at_frame.
Qed.

(** After the move of [src] a file that waits for its turn can still be
    relocated. *)
Lemma relocatable_after_move env options fs fsd nm src m d dt s m0 d0 dt0 :
  grows fs fsd ->
  lookup fsd src = Some (File m d) ->
  exists_ fsd (dest_dir_of options dt // nm) = false ->
  is_dir fsd (dest_dir_of options dt) = true ->
  PurePath.relative_to (dest_dir_of options dt // nm) src = None ->
  s <> src ->
  relocatable env options fs s m0 d0 dt0 ->
  relocatable env options
    (set_at (dest_dir_of options dt // nm) (Some (File m d))
       (set_at src None fsd)) s m0 d0 dt0.
Proof.
  intros Hg Hsd Hfresh Hd Hrel Hne (Hl & Hr & Hlt & Hy & Hm & Hfy & Hfm).
  set (dst := dest_dir_of options dt // nm) in *.
  assert (Hlen : List.length dst = List.length (base_dir options) + 3).
  { unfold dst, dest_dir_of, PurePath.joinpath. rewrite !length_app.
    simpl. lia. }
  assert (Hshallow : forall q,
             List.length q < List.length dst ->
             is_file fs q = false ->
             is_file (set_at dst (Some (File m d)) (set_at src None fsd)) q
             = false).
  { intros q Hq Hf.
    destruct (is_file (set_at dst (Some (File m d)) (set_at src None fsd)) q)
      eqn:E; [|reflexivity].
    rewrite (option_shape_eq_is_file (set_at src None fsd)) in E
      by (apply lookup_set_at_frame; now apply relative_to_shorter).
    apply is_file_after_remove in E.
    - now rewrite (grows_is_file fs fsd _ Hg), Hf in E.
    - unfold is_file. now rewrite Hsd. }
  split; [|split; [exact Hr|split; [exact Hlt|split; [exact Hy|
    split; [exact Hm|split]]]]].
  - apply (grows_file fs fsd _ m0 d0 Hg) in Hl.
    assert (Hs1 : lookup (set_at src None fsd) s = Some (File m0 d0)).
    { apply kept_file. rewrite lookup_set_at_frame; [now rewrite Hl|].
      apply (relative_to_file fsd _ _ m d); try assumption.
      unfold exists_. now rewrite Hl. }
    apply kept_file. rewrite lookup_set_at_frame; [now rewrite Hs1|].
    apply (relative_to_fresh (set_at src None fsd)).
    + unfold exists_. now rewrite Hs1.
    + rewrite <- Hfresh. apply option_shape_eq_exists.
      now apply lookup_set_at_frame.
  - apply Hshallow; [|exact Hfy]. unfold PurePath.joinpath.
    rewrite Hlen, length_app. simpl. lia.
  - apply Hshallow; [|exact Hfm]. unfold PurePath.joinpath.
    rewrite Hlen, !length_app. simpl. lia.
Qed.

(** The loop of a run that moves, over files that can be relocated. *)
Lemma relocate_loop_move_ok env options files :
  copy_no_backup options = false ->
  NoDup files ->
  forall moved errors logs fs,
    is_dir fs (base_dir options) = true ->
    (forall src, In src files ->
       exists m d dt, relocatable env options fs src m d dt) ->
    exists logs' fs',
      relocate_loop env options files (moved, errors, logs) fs
      = (Return (moved + List.length files, errors, logs'), fs') /\
      forall src m d dt,
        In src files -> relocatable env options fs src m d dt ->
        exists nm,
          numbered (PurePath.name src) nm /\
          lookup fs' (dest_dir_of options dt // nm) = Some (File m d).
Proof.
  intros Hc. induction files as [|src rest IH];
    intros Hnd moved errors logs fs Hb Hall; cbn [relocate_loop].
  - exists logs, fs. unfold ret. rewrite Nat.add_0_r.
    split; [reflexivity|]. intros ? ? ? ? [].
  - apply NoDup_cons_iff in Hnd. destruct Hnd as [Hnin Hnd].
    destruct (Hall src (or_introl eq_refl)) as (m & d & dt & Hrel).
    destruct (relocate_one_move_ok env options fs src m d dt Hc Hb Hrel)
      as (nm & fsd & H1 & Hmk & Hg & Hd & Hfresh & Hsd & Hds & Hnm).
    set (dst := dest_dir_of options dt // nm) in *.
    set (fs1 := set_at dst (Some (File m d)) (set_at src None fsd)) in *.
    assert (Hpd : is_dir fsd (PurePath.parent dst) = true)
      by (unfold dst; now rewrite parent_join).
    assert (Hne : dst <> []).
    { unfold dst, PurePath.joinpath. now destruct (dest_dir_of options dt). }
    destruct (moved_lookup fsd src dst (File m d) Hsd Hfresh Hpd Hne Hds)
      as [Hat _]. fold fs1 in Hat.
    assert (Hnext : forall s m0 d0 dt0,
               In s rest ->
               relocatable env options fs s m0 d0 dt0 ->
               relocatable env options fs1 s m0 d0 dt0).
    { intros s m0 d0 dt0 Hin Hs. unfold fs1, dst.
      apply (relocatable_after_move env options fs); try assumption.
      intros ->. contradiction. }
    assert (Hb1 : is_dir fs1 (base_dir options) = true).
    { apply is_dir_lookup in Hb. destruct Hb as (mb & eb & Hb).
      assert (Hk : option_map shape (lookup fs1 (base_dir options))
                   = Some (shape (Dir mb eb))).
      { eapply (relocate_one_keeps env options src fs _ fs1 _ _ Hb);
          [| |exact H1].
        - intros E. destruct Hrel as (Hl & _). rewrite <- E, Hb in Hl.
          discriminate.
        - left. destruct Hrel as (Hl & _). unfold is_file. now rewrite Hl. }
      unfold is_dir.
      destruct (lookup fs1 (base_dir options)) as [[? ?|? ?]|];
        simpl in Hk; congruence. }
    destruct (IH Hnd (S moved) errors
                (logs ++ [success_line options src dt]) fs1 Hb1)
      as (logs' & fs' & Hl & Hcopies).
    { intros s Hin. destruct (Hall s (or_intror Hin)) as (m0 & d0 & dt0 & Hs).
      exists m0, d0, dt0. now apply Hnext. }
    exists logs', fs'. split.
    + unfold bind. rewrite relocate_step_eq, H1. rewrite Hl.
      replace (moved + List.length (src :: rest))
        with (S moved + List.length rest) by (simpl; lia).
      reflexivity.
    + intros s m0 d0 dt0 [<-|Hin] Hs.
      * destruct Hrel as (Hl0 & _ & Hlt0 & _), Hs as (Hl1 & _ & Hlt1 & _).
        rewrite Hl0 in Hl1. inversion Hl1; subst m0 d0.
        assert (Edt : dt0 = dt).
        { rewrite Hlt0 in Hlt1. destruct dt, dt0. simpl in *. congruence. }
        subst dt0. exists nm. split; [exact Hnm|].
        apply kept_file. fold dst.
        eapply (relocate_loop_keeps env options rest Hnd _ fs1 _ fs' dst
                  _ _ Hat); [|exact Hl].
        intros Hin. destruct (Hall dst (or_intror Hin))
          as (m1 & d1 & dt1 & (Hl2 & _)).
        apply (grows_file fs fsd _ m1 d1 Hg) in Hl2.
        unfold exists_ in Hfresh. now rewrite Hl2 in Hfresh.
      * apply Hcopies; [exact Hin|]. now apply Hnext.
      Unshelve.
      intros p Hp. destruct (Hall p (or_intror Hp))
        as (m1 & d1 & dt1 & Hs1).
      apply (Hnext _ _ _ _ Hp) in Hs1. destruct Hs1 as (Hl3 & _).
      unfold is_file. now rewrite Hl3.
Qed.


Lemma relocatable_unique env options fs s m d dt m' d' dt' :
  relocatable env options fs s m d dt ->
  relocatable env options fs s m' d' dt' ->
  m' = m /\ d' = d /\ dt' = dt.
Proof.
  intros (Hl & _ & Hlt & _) (Hl' & _ & Hlt' & _).
  rewrite Hl in Hl'. inversion Hl'; subst m' d'.
  rewrite Hlt in Hlt'. destruct dt, dt'. simpl in *.
  repeat split; congruence.
Qed.

(** What is absent stays absent when a file is removed or a file is put
    at another path. *)
Lemma lookup_none_after_remove fs s q :
  is_file fs s = true -> lookup fs q = None ->
  lookup (set_at s None fs) q = None.
Proof.
  intros Hs Hq.
  assert (Hne : s = [] \/ s <> [])
    by (destruct s; [now left|right; discriminate]).
  destruct Hne as [->|Hne]; [exact Hq|].
  destruct (PurePath.relative_to q s) as [y|] eqn:E.
  - apply relative_to_some in E. subst q.
    apply is_file_lookup in Hs. destruct Hs as (m & d & Hs).
    split_path s Hne d0 s0. apply lookup_set_at_below.
    unfold PurePath.joinpath in Hs. eapply lookup_below; eauto.
  - apply option_shape_none. rewrite lookup_set_at_frame by assumption.
    now rewrite Hq.
Qed.

Lemma lookup_none_after_file fs dst m d q :
  is_dir fs (PurePath.parent dst) = true -> dst <> [] -> q <> dst ->
  lookup fs q = None ->
  lookup (set_at dst (Some (File m d)) fs) q = None.
Proof.
  intros Hp Hne Hneq Hq.
  destruct (PurePath.relative_to q dst) as [y|] eqn:E.
  - apply relative_to_some in E. subst q.
    split_path dst Hne d0 s0. rewrite lookup_set_at_below by assumption.
    destruct y; [now rewrite app_nil_r in Hneq|reflexivity].
  - apply option_shape_none. rewrite lookup_set_at_frame by assumption.
    now rewrite Hq.
Qed.

(** A path where there is nothing, and which no file of the loop needs,
    has nothing when the loop ends. *)
Lemma relocate_loop_move_gone env options q files :
  copy_no_backup options = false ->
  NoDup files ->
  forall acc fs r fs',
    is_dir fs (base_dir options) = true ->
    lookup fs q = None ->
    (forall s, In s files ->
       exists m d dt,
         relocatable env options fs s m d dt /\
         PurePath.relative_to (dest_dir_of options dt) q = None /\
         forall nm, q <> dest_dir_of options dt // nm) ->
    relocate_loop env options files acc fs = (r, fs') ->
    lookup fs' q = None.
Proof.
  intros Hc. induction files as [|src rest IH];
    intros Hnd acc fs r fs' Hb Hq Hall; cbn [relocate_loop].
  - unfold ret. intros [= <- <-]. exact Hq.
  - apply NoDup_cons_iff in Hnd. destruct Hnd as [Hnin Hnd].
    destruct (Hall src (or_introl eq_refl))
      as (m & d & dt & Hrel & Hpre & Hdst).
    destruct (relocate_one_move_ok env options fs src m d dt Hc Hb Hrel)
      as (nm & fsd & H1 & Hmk & Hg & Hd & Hfresh & Hsd & Hds & Hnm).
    set (dst := dest_dir_of options dt // nm) in *.
    set (fs1 := set_at dst (Some (File m d)) (set_at src None fsd)) in *.
    assert (Hne : dst <> []).
    { unfold dst, PurePath.joinpath. now destruct (dest_dir_of options dt). }
    assert (Hsf : is_file fsd src = true)
      by (unfold is_file; now rewrite Hsd).
    assert (Hpd : is_dir fsd (PurePath.parent dst) = true)
      by (unfold dst; now rewrite parent_join).
    assert (Hqd : lookup fsd q = None)
      by now rewrite (mkdir_p_frame _ _ _ _ _ _ Hmk Hpre).
    assert (Hq1 : lookup fs1 q = None).
    { unfold fs1. apply lookup_none_after_file.
      - rewrite <- Hpd. apply option_shape_eq_is_dir.
        apply lookup_set_at_frame.
        apply is_dir_lookup in Hpd. destruct Hpd as (mp & ep & Hpd).
        apply (relative_to_file fsd _ _ m d); try assumption.
        + unfold exists_. now rewrite Hpd.
        + intros E. rewrite E, Hsd in Hpd. discriminate.
      - exact Hne.
      - apply Hdst.
      - now apply lookup_none_after_remove. }
    assert (Hb1 : is_dir fs1 (base_dir options) = true).
    { apply is_dir_lookup in Hb. destruct Hb as (mb & eb & Hb).
      assert (Hk : option_map shape (lookup fs1 (base_dir options))
                   = Some (shape (Dir mb eb))).
      { eapply (relocate_one_keeps env options src fs _ fs1 _ _ Hb);
          [| |exact H1].
        - intros E. destruct Hrel as (Hl & _). rewrite <- E, Hb in Hl.
          discriminate.
        - left. destruct Hrel as (Hl & _). unfold is_file. now rewrite Hl. }
      unfold is_dir.
      destruct (lookup fs1 (base_dir options)) as [[? ?|? ?]|];
        simpl in Hk; congruence. }
    unfold bind. destruct acc as [[moved errors] logs].
    rewrite relocate_step_eq, H1.
    apply (IH Hnd _ fs1 r fs' Hb1 Hq1).
    intros s Hin. destruct (Hall s (or_intror Hin))
      as (m0 & d0 & dt0 & Hs & Hp0 & Hd0).
    exists m0, d0, dt0. split; [|auto].
    unfold fs1, dst.
    apply (relocatable_after_move env options fs); try assumption.
    intros ->. contradiction.
Qed.


(** When the loop ends no file it moved is where it was. *)
Lemma relocate_loop_move_clears env options files :
  copy_no_backup options = false ->
  NoDup files ->
  forall acc fs r fs',
    is_dir fs (base_dir options) = true ->
    (forall s, In s files ->
       exists m d dt, relocatable env options fs s m d dt) ->
    (forall s s' m d dt,
        In s files -> In s' files ->
        relocatable env options fs s' m d dt ->
        PurePath.relative_to (dest_dir_of options dt) s = None /\
        forall nm, s <> dest_dir_of options dt // nm) ->
    relocate_loop env options files acc fs = (r, fs') ->
    forall s, In s files -> lookup fs' s = None.
Proof.
  intros Hc. induction files as [|src rest IH];
    intros Hnd acc fs r fs' Hb Hall Hpair; cbn [relocate_loop];
    [intros _ s []|].
  apply NoDup_cons_iff in Hnd. destruct Hnd as [Hnin Hnd].
  destruct (Hall src (or_introl eq_refl)) as (m & d & dt & Hrel).
  destruct (relocate_one_move_ok env options fs src m d dt Hc Hb Hrel)
    as (nm & fsd & H1 & Hmk & Hg & Hd & Hfresh & Hsd & Hds & Hnm).
  set (dst := dest_dir_of options dt // nm) in *.
  set (fs1 := set_at dst (Some (File m d)) (set_at src None fsd)) in *.
  assert (Hpd : is_dir fsd (PurePath.parent dst) = true)
    by (unfold dst; now rewrite parent_join).
  assert (Hne : dst <> []).
  { unfold dst, PurePath.joinpath. now destruct (dest_dir_of options dt). }
  destruct (moved_lookup fsd src dst (File m d) Hsd Hfresh Hpd Hne Hds)
    as [_ Hgone]. fold fs1 in Hgone.
  assert (Hnext : forall s m0 d0 dt0,
             In s rest ->
             relocatable env options fs s m0 d0 dt0 ->
             relocatable env options fs1 s m0 d0 dt0).
  { intros s m0 d0 dt0 Hin Hs. unfold fs1, dst.
    apply (relocatable_after_move env options fs); try assumption.
    intros ->. contradiction. }
  assert (Hb1 : is_dir fs1 (base_dir options) = true).
  { apply is_dir_lookup in Hb. destruct Hb as (mb & eb & Hb).
    assert (Hk : option_map shape (lookup fs1 (base_dir options))
                 = Some (shape (Dir mb eb))).
    { eapply (relocate_one_keeps env options src fs _ fs1 _ _ Hb);
        [| |exact H1].
      - intros E. destruct Hrel as (Hl & _). rewrite <- E, Hb in Hl.
        discriminate.
      - left. destruct Hrel as (Hl & _). unfold is_file. now rewrite Hl. }
    unfold is_dir.
    destruct (lookup fs1 (base_dir options)) as [[? ?|? ?]|];
      simpl in Hk; congruence. }
  unfold bind. destruct acc as [[moved errors] logs].
  rewrite relocate_step_eq, H1. intros Hl s [<-|Hin].
  - eapply (relocate_loop_move_gone env options src rest Hc Hnd _ fs1 r fs'
              Hb1 Hgone); [|exact Hl].
    intros s' Hin'. destruct (Hall s' (or_intror Hin'))
      as (m0 & d0 & dt0 & Hs').
    exists m0, d0, dt0. split; [now apply Hnext|].
    apply (Hpair src s' m0 d0 dt0); [now left|now right|exact Hs'].
  - eapply (IH Hnd _ fs1 r fs' Hb1); [| |exact Hl|exact Hin].
    + intros s' Hin'. destruct (Hall s' (or_intror Hin'))
        as (m0 & d0 & dt0 & Hs').
      exists m0, d0, dt0. now apply Hnext.
    + intros s0 s' m1 d1 dt1 Hin0 Hin' Hs1.
      destruct (Hall s' (or_intror Hin')) as (m0 & d0 & dt0 & Hs').
      pose proof (Hnext _ _ _ _ Hin' Hs') as Hs1'.
      destruct (relocatable_unique _ _ _ _ _ _ _ _ _ _ Hs1' Hs1)
        as (-> & -> & ->).
      apply (Hpair s0 s' m0 d0 dt0); [now right|now right|exact Hs'].
Qed.

(** *** The whole run *)

Lemma year_is_no_backup_name env dt :
  (1 <= dt_year dt <= 9999)%Z ->
  year_str dt <> backup_prefix ^^ " " ^^ now_stamp env.
Proof.
  intros Hy E. apply year_str_spec in Hy. destruct Hy as (Hlen & _).
  rewrite E, append_length in Hlen. simpl in Hlen. lia.
Qed.

(** No file of a scan has the form of a destination. *)
Lemma scanned_is_no_destination base rec fs files fs0 s y mo nm :
  gather_files base rec fs = (Return files, fs0) -> In s files ->
  String.length y = 4 -> PyStr.ascii_digits y = true ->
  String.length mo = 2 -> PyStr.ascii_digits mo = true ->
  s <> base ++ [y; mo; nm].
Proof.
  intros G Hin Hy1 Hy2 Hm1 Hm2 E. destruct rec.
  - rewrite gather_files_recursive_eq in G. inversion G; subst files fs0.
    apply ScanMore.in_deep_scan in Hin. destruct Hin as (_ & Ht & _).
    rewrite E, ScanMore.gathered_test_below in Ht.
    rewrite under_year_month_ascii in Ht; [discriminate| | | | |];
      simpl; auto.
  - destruct (SecondRunFacts.gather_flat_children _ _ _ _ G) as [Hch _].
    rewrite Forall_forall in Hch. destruct (Hch _ Hin) as (x & Hx).
    rewrite Hx in E. apply (f_equal (@List.length string)) in E.
    unfold PurePath.joinpath in E. rewrite !length_app in E.
    simpl in E. lia.
Qed.

Lemma sources_of_scan env options fs files :
  gather_files (base_dir options) (include_subdirs options) fs
    = (Return files, fs) ->
  (forall src, In src files ->
     exists m d dt, relocatable env options fs src m d dt) ->
  forall src, In src files ->
    exists rel m d,
      is_source fs (base_dir options) src rel /\
      lookup fs src = Some (File m d) /\ readable m = true.
Proof.
  intros G Hall src Hin.
  pose proof (gather_files_below _ _ _ _ _ G) as Hb.
  rewrite Forall_forall in Hb. destruct (Hb _ Hin) as (ds & nm & E & _).
  destruct (Hall _ Hin) as (m & d & dt & Hl & Hr & _).
  exists (ds ++ [nm]), m, d. repeat split; try assumption.
  - now destruct ds.
  - unfold is_file. now rewrite Hl.
Qed.

End MoveRun.

Import MoveRun.


(* ================================================================= *)
(** ** What a run leaves for the next scan *)

Module NextScan.

Import FS FSFacts OpFacts MkdirFacts TransferFacts RelocateFacts LoopFacts
  SuccessFacts RunFacts ScanFacts MkdirFrame ScanMore.

#[local] Arguments relocate_step : simpl never.
#[local] Arguments backup_one : simpl never.

(** *** Trees without repeated names stay so *)

Lemma remove_names s es x :
  In x (map fst (remove s es)) -> In x (map fst es) /\ x <> s.
Proof.
  induction es as [|[t c] es IH]; simpl; [tauto|].
  destruct (String.eqb_spec s t) as [->|Hne]; simpl.
  - intros H. destruct (IH H). auto.
  - intros [<-|H]; [split; [now left|congruence]|].
    destruct (IH H). auto.
Qed.

Lemma remove_nodup s es :
  NoDup (map fst es) -> NoDup (map fst (remove s es)).
Proof.
  induction es as [|[t c] es IH]; simpl; intros Hn; [constructor|].
  apply NoDup_cons_iff in Hn. destruct Hn as [Hnin Hn].
  destruct (String.eqb_spec s t) as [->|Hne]; simpl; [auto|].
  constructor; [|auto]. intros H. apply remove_names in H. tauto.
Qed.

Lemma remove_forall (P : string * node -> Prop) s es :
  Forall P es -> Forall P (remove s es).
Proof.
  induction 1 as [|[t c] es Hc _ IH]; simpl; [constructor|].
  destruct (String.eqb s t); [exact IH|now constructor].
Qed.

Lemma nodup_snoc (l : list string) (s : string) :
  NoDup l -> ~ In s l -> NoDup (l ++ [s]).
Proof.
  induction l as [|a l IH]; simpl; intros Hn Hs.
  - constructor; [tauto|constructor].
  - apply NoDup_cons_iff in Hn. destruct Hn as [Ha Hn].
    constructor.
    + rewrite in_app_iff. simpl. intros [H|[H|[]]]; [tauto|].
      apply Hs. now left.
    + apply IH; [exact Hn|]. intros H. apply Hs. now right.
Qed.

Lemma wf_set_entry m s v es :
  wf (Dir m es) -> (forall n, v = Some n -> wf n) ->
  wf (Dir m (set_entry s v es)).
Proof.
  intros Hwf Hv. apply wf_dir in Hwf. destruct Hwf as [Hn Hall].
  apply wf_dir. destruct v as [n|]; cbn [set_entry].
  - split.
    + rewrite map_app. simpl. apply nodup_snoc; [now apply remove_nodup|].
      intros H. apply remove_names in H. tauto.
    + apply Forall_app. split; [now apply remove_forall|].
      constructor; [|constructor]. simpl. now apply Hv.
  - split; [now apply remove_nodup|now apply remove_forall].
Qed.

Lemma wf_set_at p v :
  (forall n, v = Some n -> wf n) ->
  forall t, wf t -> wf (set_at p v t).
Proof.
  intros Hv. induction p as [|s p IH]; intros t Hwf; [exact Hwf|].
  destruct t as [m d|m es]; [exact Hwf|].
  destruct p as [|s1 p].
  - cbn [set_at]. now apply wf_set_entry.
  - rewrite set_at_cons_dir by discriminate.
    destruct (assoc s es) as [c|] eqn:E; [|exact Hwf].
    apply wf_set_entry; [exact Hwf|]. intros n [= <-]. apply IH.
    apply (wf_lookup (Dir m es) [s] c Hwf).
    now rewrite lookup_cons_dir, E.
Qed.

Lemma wf_new_dir p m fs : wf fs -> wf (set_at p (Some (Dir m [])) fs).
Proof.
  apply wf_set_at. intros n [= <-]. apply wf_dir. split; constructor.
Qed.

Lemma wf_new_file p m d fs : wf fs -> wf (set_at p (Some (File m d)) fs).
Proof. apply wf_set_at. intros n [= <-]. exact I. Qed.

Lemma wf_removed p fs : wf fs -> wf (set_at p None fs).
Proof. apply wf_set_at. discriminate. Qed.

Lemma mkdir_p_wf env p fs r fs' :
  Pathlib.mkdir_p env p fs = (r, fs') -> wf fs -> wf fs'.
Proof.
  intros H.
  refine (mkdir_p_along env p (fun a b => wf a -> wf b) _ _ _ p [] fs r fs'
            _ H); [auto|auto| |now rewrite app_nil_r].
  intros fs1 p1 r1 _ _ _. apply wf_new_dir.
Qed.

Lemma copy2_wf env src dst fs r fs' :
  Shutil.copy2 env src dst fs = (r, fs') -> wf fs -> wf fs'.
Proof.
  intros H Hwf. apply copy2_cases in H.
  destruct H as [(e & _ & ->)|(_ & m & d & _ & _ & ->)]; [exact Hwf|].
  now apply wf_new_file.
Qed.

(** *** Steps that settle *)

Lemma settles_refl env base fs : settles env base fs fs.
Proof. split; [reflexivity|auto]. Qed.

Lemma settles_trans env base fs1 fs2 fs3 :
  settles env base fs1 fs2 -> settles env base fs2 fs3 ->
  settles env base fs1 fs3.
Proof.
  intros [D12 F12] [D23 F23]. split.
  - intros q Hq. rewrite <- (D12 q Hq). apply D23.
    now rewrite (option_shape_eq_is_dir _ _ _ (D12 q Hq)).
  - intros q Hq. destruct (F23 q Hq) as [H|H]; [auto|now right].
Qed.

Lemma grows_settles env base fs fs' : grows fs fs' -> settles env base fs fs'.
Proof.
  intros Hg. split.
  - intros q Hq. apply is_dir_lookup in Hq. destruct Hq as (m & es & Hq).
    rewrite Hq. exact (grows_shape fs fs' q _ Hg Hq).
  - intros q Hq. left. now rewrite <- (grows_is_file fs fs' q Hg).
Qed.

Lemma hidden_nonempty env base q : hidden env base q -> q <> [].
Proof.
  intros [(x & Hx & ->)|(rel & -> & Hy)] E.
  - unfold backup_root, PurePath.joinpath in E.
    apply app_eq_nil in E. destruct E as [E _].
    apply app_eq_nil in E. destruct E as [_ E]. discriminate.
  - apply app_eq_nil in E. destruct E as [_ ->]. discriminate.
Qed.

(** A regular file written where no scan looks, over a regular file or
    at a path that did not exist. *)
Lemma new_file_settles env base fs dst m d :
  is_file fs dst = true
  \/ (exists_ fs dst = false /\ is_dir fs (PurePath.parent dst) = true) ->
  hidden env base dst ->
  settles env base fs (set_at dst (Some (File m d)) fs).
Proof.
  intros Hdst Hh. pose proof (hidden_nonempty _ _ _ Hh) as Hne.
  assert (Hp : is_dir fs (PurePath.parent dst) = true).
  { destruct Hdst as [Hf|[_ Hp]]; [|exact Hp].
    apply is_file_lookup in Hf. destruct Hf as (m0 & d0 & Hf).
    split_path dst Hne d1 s1. unfold PurePath.joinpath in Hf.
    eapply lookup_below; eauto. }
  split.
  - intros q Hq. apply lookup_set_at_frame.
    assert (Hex : exists_ fs q = true).
    { unfold exists_. apply is_dir_lookup in Hq.
      now destruct Hq as (m0 & es & ->). }
    destruct Hdst as [Hf|[Hfresh _]].
    + apply is_file_lookup in Hf. destruct Hf as (m0 & d0 & Hf).
      apply (relative_to_file fs q dst m0 d0 Hex Hf).
      intros ->. unfold is_dir in Hq. now rewrite Hf in Hq.
    + now apply (relative_to_fresh fs).
  - intros q Hq. destruct (PurePath.relative_to q dst) as [y|] eqn:E.
    + apply relative_to_some in E. subst q. destruct y as [|s y].
      * right. now rewrite app_nil_r.
      * exfalso. split_path dst Hne d1 s1. unfold is_file in Hq.
        rewrite lookup_set_at_below in Hq by assumption. discriminate.
    + left. rewrite <- Hq. symmetry. apply option_shape_eq_is_file.
      now apply lookup_set_at_frame.
Qed.

Lemma removed_file_settles env base fs src :
  is_file fs src = true -> settles env base fs (set_at src None fs).
Proof.
  intros Hs. split.
  - intros q Hq. apply lookup_set_at_frame.
    apply is_file_lookup in Hs. destruct Hs as (m & d & Hs).
    apply (relative_to_file fs q src m d); [|exact Hs|].
    + unfold exists_. apply is_dir_lookup in Hq.
      now destruct Hq as (m0 & es & ->).
    + intros ->. unfold is_dir in Hq. now rewrite Hs in Hq.
  - intros q Hq. left. eapply MoveRun.is_file_after_remove; eauto.
Qed.

(** What a [copy2] that returned wrote, and where. *)
Lemma copy2_target env src dst fs fs' :
  Shutil.copy2 env src dst fs = (Return tt, fs') ->
  exists m d,
    let dst' := if is_dir fs dst then dst // PurePath.name src else dst in
    lookup fs src = Some (File m d) /\
    (is_file fs dst' = true
     \/ (exists_ fs dst' = false /\ is_dir fs (PurePath.parent dst') = true))
    /\ fs' = set_at dst' (Some (File (Shutil.copied_meta env m) d)) fs.
Proof.
  unfold Shutil.copy2.
  set (dst' := if is_dir fs dst then dst // PurePath.name src else dst).
  destruct (path_eqb src dst' && exists_ fs src); [discriminate|].
  destruct (resolve fs src) as [[m d|m es]| |] eqn:Es; try discriminate.
  destruct (readable m); simpl; [|discriminate].
  apply lookup_resolve in Es.
  destruct (resolve fs dst') as [[m' d'|m' es']| |] eqn:Ed;
    try discriminate.
  - apply lookup_resolve in Ed. intros [= <-]. exists m, d.
    split; [exact Es|]. split; [|reflexivity].
    left. unfold is_file. now rewrite Ed.
  - destruct (is_dir fs (PurePath.parent dst')) eqn:Ep; [|discriminate].
    intros [= <-]. exists m, d.
    split; [exact Es|]. split; [|reflexivity]. right. split; [|reflexivity].
    unfold exists_, lookup. now rewrite Ed.
Qed.

(** *** The backup stage settles *)

Lemma backup_one_settles env base rel fs r fs' :
  rel <> [] ->
  backup_one env base (base ++ rel) fs = (r, fs') ->
  settles env base fs fs' /\ (wf fs -> wf fs').
Proof.
  intros Hrel. unfold backup_one. rewrite relative_to_app. unfold_m.
  destruct (Pathlib.mkdir_p env _ fs) as [[[]|e] fs1] eqn:Em;
    pose proof (mkdir_p_wf _ _ _ _ _ Em) as Hw;
    apply mkdir_p_spec in Em; destruct Em as [Hg _].
  2:{ intros [= <- <-]. split; [now apply grows_settles|exact Hw]. }
  destruct r as [[]|e].
  - intros H. apply copy2_target in H. destruct H as (m & d & _ & Ht & ->).
    split; [|intros Hwf; apply wf_new_file; auto].
    eapply settles_trans; [apply grows_settles; exact Hg|].
    apply new_file_settles; [exact Ht|]. left.
    destruct (is_dir fs1 (backup_root env base ++ rel)).
    + exists (rel ++ [PurePath.name (base ++ rel)]). split.
      * now destruct rel.
      * unfold PurePath.joinpath. now rewrite <- app_assoc.
    + exists rel. auto.
  - intros H. apply copy2_cases in H.
    destruct H as [(e' & _ & ->)|(He & _)]; [|discriminate].
    split; [now apply grows_settles|exact Hw].
Qed.

Lemma backup_loop_settles env base files :
  Forall (below_kept base) files ->
  forall errors logs fs r fs',
    backup_loop env base files errors logs fs = (r, fs') ->
    settles env base fs fs' /\ (wf fs -> wf fs').
Proof.
  induction files as [|src rest IH]; intros Hall errors logs fs r fs'; simpl.
  - unfold ret. intros [= <- <-]. split; [apply settles_refl|auto].
  - apply Forall_cons_iff in Hall.
    destruct Hall as [(ds & nm & -> & _) Hall]. unfold_m.
    destruct (backup_one env base (base ++ ds ++ [nm]) fs) as [[[]|e] f]
      eqn:E; intros H;
      apply backup_one_settles in E; try (now destruct ds);
      apply (IH Hall) in H; destruct E as [S1 W1], H as [S2 W2];
      (split; [eapply settles_trans; eassumption|auto]).
Qed.

(** *** The relocation loop settles *)

Lemma destination_hidden env options dt nm :
  (1 <= dt_year dt <= 9999)%Z -> (1 <= dt_month dt <= 12)%Z ->
  hidden env (base_dir options) (dest_dir_of options dt // nm).
Proof.
  intros Hy Hm. right. exists [year_str dt; month_str dt; nm]. split.
  - unfold dest_dir_of, PurePath.joinpath. now rewrite <- !app_assoc.
  - apply year_str_spec in Hy. apply month_str_spec in Hm.
    destruct Hy as (Hy1 & Hy2 & _), Hm as (Hm1 & Hm2 & _).
    apply under_year_month_ascii; simpl; auto.
Qed.

Lemma relocate_one_settles env options src fs r fs' :
  is_file fs src = true ->
  relocate_one env options src fs = (r, fs') ->
  settles env (base_dir options) fs fs' /\ (wf fs -> wf fs').
Proof.
  intros Hsrc H. apply relocate_one_cases in H.
  destruct H as [(e & _ & ->)|H]; [split; [apply settles_refl|auto]|].
  destruct H as (n & dt & r1 & fsd & Hl & _ & Hy & Hm & Hmk & H).
  pose proof (mkdir_p_wf _ _ _ _ _ Hmk) as Hw.
  pose proof (mkdir_p_spec _ _ _ _ _ Hmk) as [Hg Hd].
  destruct H as [(e & _ & _ & ->)|(-> & Ht)];
    [split; [now apply grows_settles|exact Hw]|].
  specialize (Hd eq_refl).
  destruct (destination_fresh options dt src fsd Hd) as (Hfresh & Hpd & Hne).
  destruct (unique_destination_name fsd (dest_dir_of options dt)
              (PurePath.name src)) as (nm & Hu & _).
  rewrite Hu in *.
  apply (transfer_fresh _ _ _ _ _ _ _ _ Hfresh Hpd Hne) in Ht.
  destruct Ht as [(e & _ & ->)|(l & n1 & _ & Hl1 & Hbody)];
    [split; [now apply grows_settles|exact Hw]|].
  pose proof (destination_hidden env options dt nm Hy Hm) as Hh.
  assert (Hsd : is_file fsd src = true)
    by now rewrite (grows_is_file fs fsd src Hg).
  destruct (copy_no_backup options).
  - destruct Hbody as (m & d & -> & ->).
    split; [|intros Hwf; apply wf_new_file; auto].
    eapply settles_trans; [apply grows_settles; exact Hg|].
    apply new_file_settles; auto.
  - destruct Hbody as (Hrel & ->).
    apply is_file_lookup in Hsd. destruct Hsd as (m & d & Hsd).
    rewrite Hsd in Hl1. injection Hl1 as <-.
    assert (Hsf : is_file fsd src = true)
      by (unfold is_file; now rewrite Hsd).
    pose proof (removed_file_settles env (base_dir options) fsd src Hsf)
      as Hrm.
    split; [|intros Hwf; apply wf_new_file, wf_removed; auto].
    eapply settles_trans; [apply grows_settles; exact Hg|].
    eapply settles_trans; [exact Hrm|].
    apply new_file_settles; [|exact Hh]. right. split.
    + unfold exists_. rewrite MoveRun.lookup_none_after_remove;
        [reflexivity|exact Hsf|].
      unfold exists_ in Hfresh.
      now destruct (lookup fsd (dest_dir_of options dt // nm)).
    + destruct Hrm as [Hdirs _].
      now rewrite (option_shape_eq_is_dir _ _ _ (Hdirs _ Hpd)).
Qed.

Lemma relocate_loop_settles env options files :
  NoDup files ->
  forall acc fs r fs',
    (forall p, In p files -> is_file fs p = true) ->
    relocate_loop env options files acc fs = (r, fs') ->
    settles env (base_dir options) fs fs' /\ (wf fs -> wf fs').
Proof.
  induction files as [|src rest IH]; intros Hnd acc fs r fs' Hreg; simpl.
  - unfold ret. intros [= <- <-]. split; [apply settles_refl|auto].
  - apply NoDup_cons_iff in Hnd. destruct Hnd as [Hnin Hnd].
    unfold bind.
    destruct (relocate_step_total env options acc src fs)
      as (acc' & f & Hstep).
    rewrite Hstep. intros Hloop.
    assert (Hfile : is_file fs src = true) by (apply Hreg; now left).
    assert (Hone : settles env (base_dir options) fs f /\ (wf fs -> wf f)).
    { destruct acc as [[moved errors] logs].
      rewrite relocate_step_eq in Hstep.
      destruct (relocate_one env options src fs) as [[line|e] f0] eqn:E;
        injection Hstep as _ <-;
        eapply relocate_one_settles; eauto. }
    apply (IH Hnd) in Hloop.
    + destruct Hone as [S1 W1], Hloop as [S2 W2].
      split; [eapply settles_trans; eassumption|auto].
    + intros p Hp.
      assert (Hp' : is_file fs p = true) by (apply Hreg; now right).
      apply is_file_lookup in Hp'. destruct Hp' as (m & d & Hp').
      eapply shape_is_file, kept_file.
      eapply relocate_step_keeps; eauto.
      intros ->. contradiction.
Qed.

(** A run settles, and leaves a tree without repeated names so; it
    changes nothing unless the base is a directory. *)
Lemma sort_files_settles env options fs r fs' :
  wf fs -> sort_files env options fs = (r, fs') ->
  settles env (base_dir options) fs fs' /\ wf fs' /\
  (fs' = fs \/ is_dir fs (base_dir options) = true).
Proof.
  intros Hwf Hrun.
  pose proof (gather_files_readonly (base_dir options)
                (include_subdirs options) fs) as Hro.
  destruct (gather_files (base_dir options) (include_subdirs options) fs)
    as [[files|e] fs0] eqn:Hg; simpl in Hro; subst fs0.
  2:{ unfold sort_files in Hrun. unfold bind at 1 in Hrun.
      rewrite Hg in Hrun. injection Hrun as _ <-.
      split; [apply settles_refl|]. split; [exact Hwf|now left]. }
  destruct files as [|f files].
  { unfold sort_files in Hrun. unfold bind at 1 in Hrun.
    rewrite Hg in Hrun. unfold ret in Hrun. injection Hrun as _ <-.
    split; [apply settles_refl|]. split; [exact Hwf|now left]. }
  rewrite (sort_files_scanned env options fs (f :: files) fs Hg) in Hrun
    by discriminate.
  unfold bind in Hrun.
  destruct (backup_phase_total env options (f :: files) fs)
    as (be & bl & fsb & Hb & Hcopy).
  rewrite Hb in Hrun.
  destruct (scanned_files_at_loop env options fs (f :: files) (be, bl) fsb
              Hwf Hg Hb) as (Hnd & Hreg & _).
  assert (Hbk : settles env (base_dir options) fs fsb /\ (wf fs -> wf fsb)).
  { unfold backup_phase, _backup_files in Hb.
    destruct (copy_no_backup options); cbn [negb] in Hb.
    - unfold ret in Hb. injection Hb as _ _ <-.
      split; [apply settles_refl|auto].
    - eapply backup_loop_settles; [|exact Hb].
      eapply gather_files_below; eauto. }
  apply (relocate_loop_settles env options (f :: files) Hnd) in Hrun;
    [|exact Hreg].
  destruct Hbk as [S1 W1], Hrun as [S2 W2].
  split; [eapply settles_trans; eassumption|]. split; [auto|]. right.
  apply (FootprintFacts.scanned_base_is_dir _ _ _ _ _ Hg). discriminate.
Qed.

(** *** The scan after a run *)

(** No path the scan can return lies where no scan looks. *)
Lemma hidden_not_scanned env base ds nm :
  Forall (fun d => keep_dir d = true) ds ->
  under_year_month (ds ++ [nm]) = false ->
  ~ hidden env base (base ++ ds ++ [nm]).
Proof.
  intros Hk Hy [(x & Hx & E)|(rel & E & Hrel)].
  - unfold backup_root, PurePath.joinpath in E. rewrite <- app_assoc in E.
    apply app_inv_head in E. destruct ds as [|d ds].
    + injection E as _ E. now subst x.
    + apply (f_equal (fun l => hd EmptyString l)) in E.
      cbn [hd List.app] in E. apply Forall_inv in Hk.
      rewrite E, backup_root_not_kept in Hk. discriminate.
  - apply app_inv_head in E. subst rel. congruence.
Qed.

Lemma listable_shape fs fs' q :
  option_map shape (lookup fs' q) = option_map shape (lookup fs q) ->
  listable fs' q = listable fs q.
Proof.
  unfold listable.
  destruct (lookup fs' q) as [[]|], (lookup fs q) as [[]|]; simpl;
    congruence.
Qed.

(** What the recursive scan returns after the filesystem has settled, it
    returned before. *)
Lemma deep_scan_after env base fs fs' p :
  settles env base fs fs' -> wf fs' ->
  In p (filter (is_file fs') (gathered base fs')) ->
  In p (filter (is_file fs) (gathered base fs)).
Proof.
  intros [Hdirs Hfiles] Hwf Hin.
  destruct (deep_scan_sound base fs' p Hwf Hin)
    as (ds & nm & -> & Hk & Hl & Hf & Hy).
  assert (Hf0 : is_file fs (base ++ ds ++ [nm]) = true).
  { destruct (Hfiles _ Hf) as [H|H]; [exact H|].
    now apply hidden_not_scanned in H. }
  apply deep_scan_complete; try assumption.
  intros k Hle. rewrite <- (Hl k Hle). symmetry.
  apply listable_shape, Hdirs.
  apply is_file_lookup in Hf0. destruct Hf0 as (m & d & Hf0).
  rewrite <- (firstn_skipn k ds) in Hf0 at 1.
  rewrite <- app_assoc, app_assoc in Hf0.
  destruct (skipn k ds ++ [nm]) as [|s q] eqn:E.
  - apply app_eq_nil in E. destruct E as [_ E]. discriminate.
  - eapply lookup_below; exact Hf0.
Qed.

(** The same of the scan of the entries of the base. *)
Lemma flat_scan_after env base fs fs' files2 :
  settles env base fs fs' -> is_dir fs base = true ->
  gather_files base false fs' = (Return files2, fs') ->
  exists files1,
    gather_files base false fs = (Return files1, fs) /\
    incl files2 files1.
Proof.
  intros [Hdirs Hfiles] Hb G.
  pose proof (SecondRunFacts.gather_flat _ _ _ _ G)
    as (_ & m & es & Hl & Hr & _).
  pose proof (Hdirs _ Hb) as Hs. rewrite Hl in Hs.
  apply is_dir_lookup in Hb. destruct Hb as (m0 & es0 & Hb).
  rewrite Hb in Hs. simpl in Hs. injection Hs as ->.
  exists (filter (is_file fs) (map (fun e => base // fst e) es0)).
  assert (G0 : gather_files base false fs
               = (Return (filter (is_file fs)
                            (map (fun e => base // fst e) es0)), fs)).
  { unfold gather_files. unfold_m. unfold Os.iterdir.
    apply lookup_resolve in Hb. now rewrite Hb, Hr. }
  split; [exact G0|]. intros p Hp.
  destruct (SecondRunFacts.gather_flat_children _ _ _ _ G) as [Hch _].
  rewrite Forall_forall in Hch. destruct (Hch _ Hp) as (s & ->).
  pose proof (gather_files_regular _ _ _ _ _ G) as Hreg.
  rewrite Forall_forall in Hreg. specialize (Hreg _ Hp).
  destruct (SecondRunFacts.gather_flat_children _ _ _ _ G0) as [_ Hall].
  apply Hall. destruct (Hfiles _ Hreg) as [H|H]; [exact H|].
  exfalso. apply (hidden_not_scanned env base [] s); [constructor| |exact H].
  apply under_year_month_short. simpl. lia.
Qed.

(** A loop that moves and ends with the error count it started with has
    moved every file of its list: none is where it was. *)
Lemma relocate_loop_moves_all env options files :
  copy_no_backup options = false ->
  NoDup files ->
  forall moved errors logs fs moved' logs' fs',
    (forall p, In p files -> is_file fs p = true) ->
    (forall p, In p files -> ~ hidden env (base_dir options) p) ->
    relocate_loop env options files (moved, errors, logs) fs
      = (Return (moved', errors, logs'), fs') ->
    forall p, In p files -> is_file fs' p = false.
Proof.
  intros Hmove. induction files as [|src rest IH];
    intros Hnd moved errors logs fs moved' logs' fs' Hreg Hvis; simpl;
    [intros _ p []|].
  apply NoDup_cons_iff in Hnd. destruct Hnd as [Hnin Hnd].
  unfold bind. rewrite relocate_step_eq.
  destruct (relocate_one env options src fs) as [[line|e] f] eqn:Hone;
    intros Hloop.
  2:{ apply SecondRunFacts.relocate_loop_errors_grow in Hloop. lia. }
  assert (Hfile : is_file fs src = true) by (apply Hreg; now left).
  assert (Hrest : forall p, In p rest -> is_file f p = true).
  { intros p Hp.
    assert (Hp' : is_file fs p = true) by (apply Hreg; now right).
    apply is_file_lookup in Hp'. destruct Hp' as (m & d & Hp').
    eapply shape_is_file, kept_file.
    eapply relocate_one_keeps; eauto.
    intros ->. contradiction. }
  intros p [<-|Hp].
  - destruct (relocate_loop_settles env options rest Hnd _ _ _ _ Hrest Hloop)
      as [[_ Hnew] _].
    destruct (is_file fs' src) eqn:E; [|reflexivity]. exfalso.
    destruct (Hnew _ E) as [H|H]; [|apply (Hvis src); [now left|exact H]].
    apply relocate_one_success in Hone.
    destruct Hone as (n & dt & fsd & n1 & Hl & _ & _ & _ & _ & Hg & Hd
                        & Hfresh & Hl1 & _ & Hbody).
    rewrite Hmove in Hbody. destruct Hbody as (Hrel & ->).
    destruct (destination_fresh options dt src fsd Hd) as (_ & Hpd & Hne).
    destruct (moved_lookup fsd src _ n1 Hl1 Hfresh Hpd Hne Hrel)
      as [_ Hgone].
    unfold is_file in H. now rewrite Hgone in H.
  - eapply (IH Hnd); eauto.
    intros q Hq. apply Hvis. now right.
Qed.

End NextScan.

Import NextScan.

(** X14.  A run makes no work for the next one.  On a tree without
    repeated names, whatever a scan of the base directory returns after a
    run, recursive or not, the same scan returned before the run: the
    copies and the moved files under year and month and the copies in the
    backup folder are never picked up, whatever the mode of the run and
    whether it met errors or not. *)
Theorem run_leaves_no_new_candidates (env : Env) (options : SortOptions)
  (fs fs' : node) (r : Result tally) (rec2 : bool) (files2 : list path) :
  wf fs ->
  sort_files env options fs = (r, fs') ->
  gather_files (base_dir options) rec2 fs' = (Return files2, fs') ->
  exists files1,
    gather_files (base_dir options) rec2 fs = (Return files1, fs) /\
    incl files2 files1.
Proof.
  intros Hwf Hrun G.
  destruct (sort_files_settles env options fs r fs' Hwf Hrun)
    as (Hs & Hwf' & Hbase).
  destruct rec2.
  - rewrite gather_files_recursive_eq in G. injection G as <-.
    eexists. split; [apply gather_files_recursive_eq|].
    intros p Hp. eapply deep_scan_after; eauto.
  - destruct Hbase as [->|Hb].
    + exists files2. split; [exact G|apply incl_refl].
    + eapply flat_scan_after; eauto.
Qed.

(** X15.  After a recursive run in move mode that returned with no error
    on a tree without repeated names, a second recursive run over the
    same base directory, at any later time and with any choice of
    timestamp and mode, finds no file: it returns zero moved, zero errors
    and the single line [No files found.], and leaves the filesystem as
    it found it. *)
Theorem second_deep_run_finds_nothing (env env2 : Env)
  (options options2 : SortOptions) (fs fs' : node) (moved : nat)
  (logs : list string) :
  wf fs ->
  include_subdirs options = true ->
  copy_no_backup options = false ->
  sort_files env options fs = (Return (moved, 0, logs), fs') ->
  base_dir options2 = base_dir options ->
  include_subdirs options2 = true ->
  sort_files env2 options2 fs' = (Return (0, 0, ["No files found."]), fs').
Proof.
  intros Hwf Hdeep Hmove Hrun Hbase Hdeep2.
  apply LoopFacts.sort_files_empty_scan. rewrite Hbase, Hdeep2.
  rewrite gather_files_recursive_eq. cbn [fst]. f_equal.
  destruct (sort_files_settles env options fs _ fs' Hwf Hrun)
    as (Hs & Hwf' & _).
  pose proof (gather_files_recursive_eq (base_dir options) fs) as G.
  rewrite <- Hdeep in G.
  set (files := filter (FS.is_file fs) (gathered (base_dir options) fs))
    in *.
  destruct (filter (FS.is_file fs') (gathered (base_dir options) fs'))
    as [|p ps] eqn:E; [reflexivity|exfalso].
  assert (Hp' : In p (filter (FS.is_file fs')
                        (gathered (base_dir options) fs')))
    by (rewrite E; now left).
  pose proof (deep_scan_after env (base_dir options) fs fs' p Hs Hwf' Hp')
    as Hp.
  fold files in Hp.
  apply filter_In in Hp'. destruct Hp' as [_ Hf'].
  assert (Hne : files <> []) by (intros E0; rewrite E0 in Hp; destruct Hp).
  rewrite (LoopFacts.sort_files_scanned env options fs files fs G Hne) in Hrun.
  unfold bind in Hrun.
  destruct (backup_phase env options files fs) as [[[be bl]|e] fsb] eqn:Hb;
    [|discriminate].
  cbn [fst snd Nat.add app] in Hrun.
  pose proof (SecondRunFacts.relocate_loop_errors_grow _ _ _ _ _ _ _ _ _ _ _
                Hrun) as Hle.
  assert (be = 0) by lia. subst be.
  destruct (RunFacts.scanned_files_at_loop env options fs files (0, bl) fsb
              Hwf G Hb) as (Hnd & Hreg & _).
  assert (Hvis : forall q, In q files ->
                   ~ hidden env (base_dir options) q).
  { intros q Hq. unfold files in Hq.
    destruct (ScanMore.deep_scan_sound _ _ _ Hwf Hq)
      as (ds & nm & -> & Hk & _ & _ & Hy).
    now apply hidden_not_scanned. }
  rewrite (relocate_loop_moves_all env options files Hmove Hnd _ _ _ _ _ _ _
             Hreg Hvis Hrun p Hp) in Hf'.
  discriminate.
Qed.

(** X16.  A run leaves alone what its scan did not select.  On a tree
    without repeated names, every directory there was is a directory when
    the run returns, and every regular file that the scan did not return
    and that is not in the backup folder of this run is where it was, with
    its content and its metadata: the run overwrites no file and removes
    none but those it moves. *)
Theorem run_leaves_other_files_alone (env : Env) (options : SortOptions)
  (fs fs' : node) (r : Result tally) (files : list path) :
  wf fs ->
  gather_files (base_dir options) (include_subdirs options) fs
    = (Return files, fs) ->
  sort_files env options fs = (r, fs') ->
  (forall q, FS.is_dir fs q = true -> FS.is_dir fs' q = true) /\
  (forall q m d,
      FS.lookup fs q = Some (File m d) ->
      ~ In q files ->
      PurePath.relative_to q (backup_root env (base_dir options)) = None ->
      FS.lookup fs' q = Some (File m d)).
Proof.
  intros Hwf G Hrun. split.
  - destruct (NextScan.sort_files_settles env options fs r fs' Hwf Hrun)
      as ([Hdirs _] & _ & _).
    intros q Hq.
    now rewrite (FSFacts.option_shape_eq_is_dir _ _ _ (Hdirs q Hq)).
  - intros q m d Hq Hnin Hout.
    destruct files as [|f files].
    { unfold sort_files in Hrun. unfold bind at 1 in Hrun.
      rewrite G in Hrun. unfold ret in Hrun. injection Hrun as _ <-.
      exact Hq. }
    rewrite (LoopFacts.sort_files_scanned env options fs (f :: files) fs G)
      in Hrun by discriminate.
    unfold bind in Hrun.
    destruct (LoopFacts.backup_phase_total env options (f :: files) fs)
      as (be & bl & fsb & Hb & _).
    rewrite Hb in Hrun.
    destruct (RunFacts.scanned_files_at_loop env options fs (f :: files)
                (be, bl) fsb Hwf G Hb) as (Hnd & Hreg & _).
    assert (Hqb : FS.lookup fsb q = Some (File m d)).
    { unfold backup_phase, _backup_files in Hb.
      destruct (copy_no_backup options); cbn [negb] in Hb.
      - unfold ret in Hb. injection Hb as _ _ <-. exact Hq.
      - apply RunFacts.kept_file.
        rewrite (MoveRun.backup_loop_beside env (base_dir options) _ _ _ _ _ _
                   (proj1 (FootprintFacts.scanned_base_is_dir _ _ _ _ _ G
                             ltac:(discriminate))) Hb q Hout).
        now rewrite Hq. }
    apply RunFacts.kept_file.
    eapply (RunFacts.relocate_loop_keeps env options (f :: files) Hnd);
      eauto.
Qed.

(* ================================================================= *)
(** ** The worker of the window *)

Module WorkerFacts.

Import LoopFacts.

Lemma post_eq c q fs : _post c q fs = (Return tt, q ++ [c], fs).
Proof. reflexivity. Qed.

Lemma job_bind_post {B} c (k : unit -> Job B) q fs :
  job_bind (_post c) k q fs = k tt (q ++ [c]) fs.
Proof. reflexivity. Qed.

Lemma job_for_posts {A} (f : A -> call) (xs : list A) :
  forall q fs,
    job_for xs (fun x => _post (f x)) q fs = (Return tt, q ++ map f xs, fs).
Proof.
  induction xs as [|x xs IH]; intros q fs; cbn [job_for map].
  - unfold job_ret. now rewrite app_nil_r.
  - rewrite job_bind_post, IH, <- app_assoc. reflexivity.
Qed.

Lemma enumerate_fst {A} (xs : list A) :
  forall start, map fst (enumerate xs start) = seq start (List.length xs).
Proof.
  induction xs as [|x xs IH]; intros start; simpl; [reflexivity|].
  now rewrite IH.
Qed.

Lemma job_for_progress {A} (total : nat) (ixs : list (nat * A)) :
  forall q fs,
    job_for ixs
      (fun '(idx, _) =>
         _post (Set_progress total idx) ;;~
         _post (Set_status ("Processed " ^^ PyStr.str_of_nat idx ^^ "/"
                              ^^ PyStr.str_of_nat total))) q fs
    = (Return tt, q ++ progress_calls total (map fst ixs), fs).
Proof.
  induction ixs as [|[idx x] ixs IH]; intros q fs; cbn [job_for map].
  - unfold job_ret, progress_calls. simpl. now rewrite app_nil_r.
  - unfold job_bind at 1. rewrite !job_bind_post, post_eq, IH.
    unfold progress_calls. cbn [flat_map fst]. rewrite <- !app_assoc.
    reflexivity.
Qed.

(** The scan of [sort_files] finds what the scan of the worker found. *)
Lemma sort_files_after_scan env options fs files :
  gather_files (base_dir options) (include_subdirs options) fs
    = (Return files, fs) ->
  files <> [] ->
  exists moved errors logs fs',
    sort_files env options fs = (Return (moved, errors, logs), fs').
Proof.
  intros G Hne. rewrite (sort_files_scanned _ _ _ _ _ G Hne). unfold bind.
  destruct (backup_phase_total env options files fs)
    as (b_errors & b_logs & fsb & -> & _).
  destruct (relocate_loop_total env options files
              (0, 0 + fst (b_errors, b_logs), [] ++ snd (b_errors, b_logs))
              fsb) as ([[moved errors] logs] & fs' & ->).
  eauto.
Qed.

(** The queue of the worker, in each of its three cases. *)
Lemma worker_queue env base inc uct cnb q fs :
  match gather_files base inc fs with
  | (Raise e, _) =>
      _worker_sort env base inc uct cnb q fs
      = (Return tt,
         q ++ [Set_status "Idle";
               Showerror APP_TITLE
                 ("Failed to read directory: " ^^ format_exception e)]
           ++ finally_calls,
         fs)
  | (Return [], _) =>
      _worker_sort env base inc uct cnb q fs
      = (Return tt,
         q ++ [Set_status "No files to sort";
               Showinfo APP_TITLE "No files found in the selected folder."]
           ++ finally_calls,
         fs)
  | (Return files, _) =>
      exists moved errors logs fs',
        sort_files env (mk_options base inc uct cnb) fs
        = (Return (moved, errors, logs), fs') /\
        _worker_sort env base inc uct cnb q fs
        = (Return tt,
           q ++ announce_calls cnb (List.length files)
             ++ progress_calls (List.length files)
                  (seq 1 (List.length files))
             ++ map Log logs
             ++ closing_calls cnb moved errors
             ++ finally_calls,
           fs')
  end.
Proof.
  pose proof (gather_files_readonly base inc fs) as Hro.
  destruct (gather_files base inc fs) as [[files|e] fs0] eqn:G;
    simpl in Hro; subst fs0.
  - destruct files as [|f0 rest].
    + unfold _worker_sort, job_finally, worker_body.
      unfold job_bind at 1. unfold job_attempt, job_lift. rewrite G.
      cbn [List.length Nat.eqb]. rewrite !job_bind_post, post_eq.
      unfold worker_finally. rewrite !job_bind_post, post_eq.
      rewrite <- !app_assoc. reflexivity.
    + set (files := f0 :: rest) in *.
      destruct (sort_files_after_scan env (mk_options base inc uct cnb) fs
                  files G ltac:(discriminate))
        as (moved & errors & logs & fs' & Hs).
      exists moved, errors, logs, fs'. split; [exact Hs|].
      unfold _worker_sort, job_finally, worker_body.
      unfold job_bind at 1. unfold job_attempt, job_lift at 1. rewrite G.
      assert (Hz : (List.length files =? 0)%nat = false) by reflexivity.
      rewrite Hz.
      assert (Hann : forall (k : unit -> Job unit) q0 fs0,
                 job_bind
                   (if negb cnb
                    then
                      _post (Set_status
                               ("Creating backup ("
                                  ^^ PyStr.str_of_nat (List.length files)
                                  ^^ " file(s))...")) ;;~
                      _post (Set_progress (List.length files) 0)
                    else job_ret tt)
                   (fun _ =>
                      _post (Set_status
                               ("Sorting "
                                  ^^ PyStr.str_of_nat (List.length files)
                                  ^^ " file(s)...")) ;;~
                      _post (Set_progress (List.length files) 0) ;;~ k tt)
                   q0 fs0
                 = k tt (q0 ++ announce_calls cnb (List.length files)) fs0).
      { intros k q0 fs0. unfold announce_calls. destruct cnb; cbn [negb].
        - unfold job_bind at 1, job_ret. rewrite !job_bind_post.
          now rewrite <- !app_assoc.
        - unfold job_bind at 1. rewrite !job_bind_post, post_eq.
          rewrite !job_bind_post. now rewrite <- !app_assoc. }
      rewrite (Hann (fun _ => _)).
      unfold job_bind at 1. rewrite job_for_progress, enumerate_fst.
      unfold job_bind at 1, job_lift. rewrite Hs.
      unfold job_bind at 1. rewrite job_for_posts.
      rewrite !job_bind_post.
      unfold worker_finally, closing_calls.
      destruct (negb (errors =? 0)%nat);
        rewrite post_eq, !job_bind_post, post_eq, <- !app_assoc;
        reflexivity.
  - unfold _worker_sort, job_finally, worker_body.
    unfold job_bind at 1. unfold job_attempt, job_lift. rewrite G.
    rewrite !job_bind_post, post_eq.
    unfold worker_finally. rewrite !job_bind_post, post_eq.
    rewrite <- !app_assoc. reflexivity.
Qed.

Lemma run_calls_app q1 q2 app :
  run_calls (q1 ++ q2) app = run_calls q2 (run_calls q1 app).
Proof. unfold run_calls. apply fold_left_app. Qed.

(** The window after the calls of the [finally]. *)
Lemma run_finally_calls app :
  _working (run_calls finally_calls app) = false /\
  sort_btn_disabled (run_calls finally_calls app) = false /\
  path_entry_disabled (run_calls finally_calls app) = false /\
  progress_maximum (run_calls finally_calls app) = 1 /\
  progress_value (run_calls finally_calls app) = 0 /\
  status_var (run_calls finally_calls app) = status_var app /\
  log_text (run_calls finally_calls app) = log_text app /\
  boxes (run_calls finally_calls app) = boxes app.
Proof. repeat split. Qed.

Lemma log_text_run q :
  forall app, log_text (run_calls q app) = log_text app ^^ logged q.
Proof.
  induction q as [|c q IH]; intros app.
  - simpl. now rewrite append_empty_r.
  - change (run_calls (c :: q) app) with (run_calls q (run_call c app)).
    rewrite IH. destruct c; try reflexivity.
    cbn [run_call log log_text logged]. now rewrite !append_assoc.
Qed.

Lemma logged_app q1 q2 : logged (q1 ++ q2) = logged q1 ^^ logged q2.
Proof.
  induction q1 as [|c q1 IH]; [reflexivity|].
  destruct c; cbn [app logged]; try exact IH.
  now rewrite IH, !append_assoc.
Qed.

Lemma logged_logs ls : logged (map Log ls) = lines ls.
Proof. induction ls as [|l ls IH]; simpl; congruence. Qed.

Lemma logged_progress total idxs : logged (progress_calls total idxs) = EmptyString.
Proof. induction idxs as [|i idxs IH]; [reflexivity|exact IH]. Qed.

Lemma logged_announce cnb total : logged (announce_calls cnb total) = EmptyString.
Proof. now destruct cnb. Qed.

Lemma lines_app l1 l2 : lines (l1 ++ l2) = lines l1 ^^ lines l2.
Proof.
  induction l1 as [|l l1 IH]; [reflexivity|].
  cbn [app lines]. now rewrite IH, !append_assoc.
Qed.

Lemma boxes_run q :
  forall app, boxes (run_calls q app) = boxes app ++ filter is_box q.
Proof.
  induction q as [|c q IH]; intros app.
  - simpl. now rewrite app_nil_r.
  - change (run_calls (c :: q) app) with (run_calls q (run_call c app)).
    rewrite IH. destruct c; cbn [run_call boxes filter is_box set_status
      set_progress log]; try reflexivity; now rewrite <- app_assoc.
Qed.

Lemma progress_calls_box total idxs :
  filter is_box (progress_calls total idxs) = [].
Proof. induction idxs as [|i idxs IH]; [reflexivity|exact IH]. Qed.

Lemma in_progress_calls total idxs c :
  In c (progress_calls total idxs) ->
  exists idx,
    In idx idxs /\
    (c = Set_progress total idx \/
     c = Set_status ("Processed " ^^ PyStr.str_of_nat idx ^^ "/"
                       ^^ PyStr.str_of_nat total)).
Proof.
  unfold progress_calls. intros H. apply in_flat_map in H.
  destruct H as (idx & Hin & [<-|[<-|[]]]); eauto.
Qed.

(** The progress calls of the worker stay within the maximum they set. *)
Lemma progress_within (cnb : bool) (n moved errors : nat)
  (logs : list string) (total value : nat) :
  In (Set_progress total value)
     (announce_calls cnb n ++ progress_calls n (seq 1 n) ++ map Log logs
        ++ closing_calls cnb moved errors ++ finally_calls) ->
  value <= Nat.max total 1.
Proof.
  intros Hin. apply in_app_or in Hin. destruct Hin as [Hin|Hin].
  { unfold announce_calls in Hin. apply in_app_or in Hin.
    destruct Hin as [Hin|[E|[E|[]]]]; try discriminate.
    - destruct (negb cnb); [|destruct Hin].
      destruct Hin as [E|[E|[]]]; try discriminate.
      inversion E; subst. lia.
    - inversion E; subst. lia. }
  apply in_app_or in Hin. destruct Hin as [Hin|Hin].
  { apply in_progress_calls in Hin.
    destruct Hin as (idx & Hidx & [E|E]); [|discriminate].
    inversion E; subst. apply in_seq in Hidx. lia. }
  apply in_app_or in Hin. destruct Hin as [Hin|Hin].
  { apply in_map_iff in Hin. destruct Hin as (l & E & _). discriminate. }
  apply in_app_or in Hin. destruct Hin as [Hin|Hin].
  { unfold closing_calls in Hin.
    destruct Hin as [E|[E|[E|[]]]]; try discriminate.
    destruct (negb (errors =? 0)%nat); discriminate. }
  destruct Hin as [E|[E|[E|[E|[]]]]]; inversion E; subst. simpl. lia.
Qed.

End WorkerFacts.

Import WorkerFacts.

(** X17.  The worker always ends and hands the window back.  Whatever the
    scan and the run do, [_worker_sort] returns without an exception; what
    it leaves of the filesystem is what [sort_files] leaves; and once the
    main loop has run the calls it posted, the window is not working any
    more, the button and the entry are enabled, and the progress bar is
    back at 0 of 1.  No call sets the progress bar beyond its maximum. *)
Theorem worker_hands_the_window_back (env : Env) (base : path)
  (inc uct cnb : bool) (fs : node) (win : App) :
  exists queue fs',
    _worker_sort env base inc uct cnb [] fs = (Return tt, queue, fs') /\
    fs' = snd (sort_files env (mk_options base inc uct cnb) fs) /\
    _working (run_calls queue win) = false /\
    sort_btn_disabled (run_calls queue win) = false /\
    path_entry_disabled (run_calls queue win) = false /\
    progress_maximum (run_calls queue win) = 1 /\
    progress_value (run_calls queue win) = 0 /\
    (forall total value,
        In (Set_progress total value) queue -> value <= Nat.max total 1).
Proof.
  pose proof (worker_queue env base inc uct cnb [] fs) as H.
  assert (Hfin : forall total value,
             In (Set_progress total value) finally_calls ->
             value <= Nat.max total 1).
  { intros total value [E|[E|[E|[E|[]]]]]; inversion E; subst. simpl. lia. }
  pose proof (gather_files_readonly base inc fs) as Hro.
  unfold sort_files. unfold bind at 1. cbn [base_dir include_subdirs].
  destruct (gather_files base inc fs) as [[[|f0 rest]|e] fs0] eqn:G;
    simpl in Hro; subst fs0.
  - rewrite app_nil_l in H. eexists _, fs. split; [exact H|].
    split; [reflexivity|].
    rewrite run_calls_app.
    destruct (run_finally_calls
                (run_calls [Set_status "No files to sort";
                            Showinfo APP_TITLE
                              "No files found in the selected folder."] win))
      as (H1 & H2 & H3 & H4 & H5 & _).
    repeat split; try assumption.
    intros total value [E|[E|Hin]]; try discriminate. now apply Hfin.
  - destruct H as (moved & errors & logs & fs' & Hs & H).
    rewrite app_nil_l in H. eexists _, fs'. split; [exact H|].
    split.
    { unfold sort_files in Hs. unfold bind at 1 in Hs.
      cbn [base_dir include_subdirs] in Hs. rewrite G in Hs.
      now rewrite Hs. }
    rewrite !app_assoc, run_calls_app.
    destruct (run_finally_calls
                (run_calls
                   (((announce_calls cnb (List.length (f0 :: rest))
                      ++ progress_calls (List.length (f0 :: rest))
                           (seq 1 (List.length (f0 :: rest))))
                     ++ map Log logs) ++ closing_calls cnb moved errors) win))
      as (H1 & H2 & H3 & H4 & H5 & _).
    repeat split; try assumption.
    intros total value Hin. eapply progress_within.
    rewrite <- !app_assoc in Hin. exact Hin.
  - rewrite app_nil_l in H. eexists _, fs. split; [exact H|].
    split; [reflexivity|].
    rewrite run_calls_app.
    destruct (run_finally_calls
                (run_calls [Set_status "Idle";
                            Showerror APP_TITLE
                              ("Failed to read directory: "
                                 ^^ format_exception e)] win))
      as (H1 & H2 & H3 & H4 & H5 & _).
    repeat split; try assumption.
    intros total value [E|[E|Hin]]; try discriminate. now apply Hfin.
Qed.

(** X18.  What the worker shows of a run that found files.  The scan of
    [sort_files] finds what the scan of the worker found, so the run
    returns its counts; the activity log receives the lines of the run and
    then the summary with these counts; the status ends as [Done]; and the
    one message box of the run carries the summary, as a warning when the
    error count is not zero and as an information otherwise.  The calls
    that report progress, one pair for each file, are all posted before
    the run starts. *)
Theorem worker_reports_the_run (env : Env) (base : path)
  (inc uct cnb : bool) (fs : node) (files : list path) :
  gather_files base inc fs = (Return files, fs) ->
  files <> [] ->
  exists moved errors logs fs',
    sort_files env (mk_options base inc uct cnb) fs
    = (Return (moved, errors, logs), fs') /\
    _worker_sort env base inc uct cnb [] fs
    = (Return tt,
       announce_calls cnb (List.length files)
         ++ progress_calls (List.length files) (seq 1 (List.length files))
         ++ map Log logs
         ++ closing_calls cnb moved errors
         ++ finally_calls,
       fs') /\
    forall win,
      let win' :=
        run_calls
          (announce_calls cnb (List.length files)
             ++ progress_calls (List.length files)
                  (seq 1 (List.length files))
             ++ map Log logs
             ++ closing_calls cnb moved errors
             ++ finally_calls) win in
      log_text win'
      = log_text win ^^ lines (logs ++ [summary_of cnb moved errors]) /\
      status_var win' = "Done" /\
      boxes win'
      = boxes win
          ++ [if (errors =? 0)%nat
              then Showinfo APP_TITLE (summary_of cnb moved errors)
              else Showwarning APP_TITLE (summary_of cnb moved errors)].
Proof.
  intros G Hne.
  pose proof (worker_queue env base inc uct cnb [] fs) as H.
  rewrite G in H. destruct files as [|f0 rest]; [congruence|].
  destruct H as (moved & errors & logs & fs' & Hs & H).
  rewrite app_nil_l in H.
  exists moved, errors, logs, fs'. split; [exact Hs|]. split; [exact H|].
  intros win win'. subst win'. split; [|split].
  - rewrite log_text_run. f_equal.
    rewrite !logged_app, logged_announce, logged_progress, logged_logs.
    rewrite lines_app. cbn [append]. f_equal.
    unfold closing_calls.
    destruct (negb (errors =? 0)%nat); cbn [logged finally_calls lines];
      now rewrite append_empty_r.
  - rewrite !app_assoc, run_calls_app.
    destruct (run_finally_calls
                (run_calls
                   (((announce_calls cnb (List.length (f0 :: rest))
                      ++ progress_calls (List.length (f0 :: rest))
                           (seq 1 (List.length (f0 :: rest))))
                     ++ map Log logs) ++ closing_calls cnb moved errors) win))
      as (_ & _ & _ & _ & _ & -> & _).
    rewrite run_calls_app. unfold closing_calls.
    now destruct (negb (errors =? 0)%nat).
  - rewrite boxes_run. f_equal.
    rewrite !filter_app, progress_calls_box.
    assert (Ha : filter is_box (announce_calls cnb (List.length (f0 :: rest)))
                 = []) by now destruct cnb.
    assert (Hl : filter is_box (map Log logs) = []).
    { clear. induction logs as [|l logs IH]; [reflexivity|exact IH]. }
    rewrite Ha, Hl. cbn [app]. unfold closing_calls.
    now destruct (errors =? 0)%nat.
Qed.


(* ================================================================= *)
(** ** The theorems on the example filesystems *)

(** The example filesystems list no name twice. *)
Ltac solve_wf :=
  simpl; repeat split;
  repeat (constructor; [simpl; intuition discriminate|]); constructor.

Lemma fs_locked_wf : wf Fixtures.fs_locked.
Proof. solve_wf. Qed.

(** C1 on [/tmp] with two files, copy mode: [a.txt] is copied to
    [/tmp/2023/01/a.txt], stays where it was, and the copy is there when
    the run returns. *)
Lemma relocated_file_is_under_year_month_witness :
  exists fs2 t fs3,
    relocate_one Fixtures.env Fixtures.copy_options ["tmp"; "a.txt"]
      Fixtures.fs_two
    = (Return "Copied: a.txt -> 2023/01/", fs2) /\
    FS.is_file fs2 ["tmp"; "2023"; "01"; "a.txt"] = true /\
    FS.is_file fs2 ["tmp"; "a.txt"] = true /\
    sort_files Fixtures.env Fixtures.copy_options Fixtures.fs_two
    = (Return t, fs3) /\
    FS.is_file fs3 ["tmp"; "2023"; "01"; "a.txt"] = true.
Proof.
  pose (run := relocate_one Fixtures.env Fixtures.copy_options
                 ["tmp"; "a.txt"] Fixtures.fs_two).
  pose (all := sort_files Fixtures.env Fixtures.copy_options Fixtures.fs_two).
  assert (Hone : relocate_one Fixtures.env Fixtures.copy_options
                   ["tmp"; "a.txt"] Fixtures.fs_two
                 = (Return "Copied: a.txt -> 2023/01/", snd run))
    by (vm_compute; reflexivity).
  assert (Hall : sort_files Fixtures.env Fixtures.copy_options Fixtures.fs_two
                 = (Return (2, 0, ["Copied: a.txt -> 2023/01/";
                                   "Copied: b.txt -> 2023/01/"]), snd all))
    by (vm_compute; reflexivity).
  destruct (relocated_file_is_under_year_month Fixtures.env
              Fixtures.copy_options Fixtures.fs_two Fixtures.fs_two
              Fixtures.fs_two (snd run) [] [["tmp"; "b.txt"]]
              ["tmp"; "a.txt"] (0, []) 0 0 [] "Copied: a.txt -> 2023/01/"
              eq_refl eq_refl eq_refl Hone)
    as (_ & _ & _ & Hrun).
  exists (snd run), (2, 0, ["Copied: a.txt -> 2023/01/";
                            "Copied: b.txt -> 2023/01/"]), (snd all).
  split; [exact Hone|]. split; [vm_compute; reflexivity|].
  split; [vm_compute; reflexivity|]. split; [exact Hall|].
  vm_compute; reflexivity.
Defined.

(** C2 on [/d] with [a.txt] and [a (1).txt]: the result for [a.txt] is
    [a (2).txt]. *)
Lemma unique_destination_path_first_free_witness :
  unique_destination_path Fixtures.fs_clash ["d"; "a.txt"]
  = ["d"; "a (2).txt"].
Proof.
  exact (proj2 (proj2 (unique_destination_path_first_free Fixtures.fs_clash
                         ["d"; "a.txt"])) eq_refl eq_refl eq_refl).
Defined.

(** C3 on [/b]: the file under [2020/01] is not returned. *)
Lemma gather_files_recursive_skips_year_month_witness :
  exists files,
    gather_files ["b"] true Fixtures.fs_tree = (Return files, Fixtures.fs_tree)
    /\ ~ In ["b"; "2020"; "01"; "already.txt"] files.
Proof.
  destruct (gather_files_recursive_skips_year_month ["b"] Fixtures.fs_tree)
    as (files & Hg & Hskip & _).
  exists files. split; [exact Hg|].
  intros Hin.
  apply (Hskip _ ["2020"; "01"; "already.txt"] Hin eq_refl).
  repeat split; simpl; auto.
Defined.

(** C4, the claim as stated, fails when the base directory is itself a
    backup folder: its files are returned. *)
Lemma base_backup_folder_is_scanned :
  ~ never_under_backup_folder ["b"; "FolderChronicle Backup 1"]
      Fixtures.fs_tree.
Proof.
  intros H.
  specialize (H [["b"; "FolderChronicle Backup 1"; "z.txt"]]
                ["b"; "FolderChronicle Backup 1"; "z.txt"]
                ["b"; "FolderChronicle Backup 1"] ["z.txt"]
                eq_refl (or_introl eq_refl) eq_refl).
  assert (Hd : ["b"; "FolderChronicle Backup 1"] <> []) by discriminate.
  assert (Hr : ["z.txt"] <> []) by discriminate.
  specialize (H Hd Hr). discriminate H.
Qed.

(** C4 as amended on [/b]: the file of the backup folder below the base
    directory is not returned. *)
Lemma gather_files_recursive_prunes_backups_witness :
  exists files,
    gather_files ["b"] true Fixtures.fs_tree = (Return files, Fixtures.fs_tree)
    /\ ~ In ["b"; "FolderChronicle Backup 1"; "z.txt"] files.
Proof.
  destruct (gather_files_recursive_prunes_backups ["b"] Fixtures.fs_tree)
    as (files & Hg & _ & Hunder).
  exists files. split; [exact Hg|].
  intros Hin. destruct (Hunder _ Hin) as (ds & name & Hp & Hds).
  simpl in Hp. inversion Hp as [Hp'].
  destruct ds as [|d ds]; [discriminate|].
  simpl in Hp'. inversion Hp'; subst.
  apply Forall_inv in Hds. discriminate Hds.
Defined.

(** C5 on a [/tmp] that cannot be listed, recursive mode: the run reports
    that no file was found. *)
Lemma sort_files_unlistable_base_witness :
  sort_files Fixtures.env Fixtures.deep_options Fixtures.fs_hidden
  = (Return (0, 0, ["No files found."]), Fixtures.fs_hidden).
Proof.
  apply (sort_files_unlistable_base Fixtures.env Fixtures.deep_options
           Fixtures.fs_hidden); reflexivity.
Defined.

(** C6 on [/tmp] with a file that cannot be read, copy mode: the
    [PermissionError] of the copy is caught and logged. *)
Lemma relocation_errors_are_caught_witness :
  exists fs2,
    sort_files Fixtures.env Fixtures.copy_options Fixtures.fs_locked
    = (Return
         (0, 1,
          ["Error moving a.txt: PermissionError: [Errno 13] Permission denied: '/tmp/a.txt'"]),
       fs2).
Proof.
  pose (run := relocate_one Fixtures.env Fixtures.copy_options
                 ["tmp"; "a.txt"] Fixtures.fs_locked).
  assert (Hone : relocate_one Fixtures.env Fixtures.copy_options
                   ["tmp"; "a.txt"] Fixtures.fs_locked
                 = (Raise (eacces ["tmp"; "a.txt"]), snd run))
    by (vm_compute; reflexivity).
  destruct (relocation_errors_are_caught Fixtures.env Fixtures.copy_options
              Fixtures.fs_locked Fixtures.fs_locked Fixtures.fs_locked
              (snd run) [] [] ["tmp"; "a.txt"] (0, []) 0 0 []
              (eacces ["tmp"; "a.txt"]) eq_refl eq_refl eq_refl Hone)
    as (Hrun & _).
  exists (snd run). exact Hrun.
Defined.

(** C7, the claim as stated, fails on [/tmp] with a file that cannot be
    read, move mode: the backup copy fails and the move succeeds, so one
    candidate file gives one success and one error. *)
Lemma backup_errors_are_counted :
  ~ counts_cover_candidates Fixtures.env Fixtures.move_options
      Fixtures.fs_locked.
Proof.
  intros H.
  pose (run := sort_files Fixtures.env Fixtures.move_options
                 Fixtures.fs_locked).
  assert (Hrun : sort_files Fixtures.env Fixtures.move_options
                   Fixtures.fs_locked
                 = (Return
                      (1, 1,
                       ["Backup error /tmp/a.txt: PermissionError: [Errno 13] Permission denied: '/tmp/a.txt'";
                        "Moved: a.txt -> 2023/01/"]),
                    snd run))
    by (vm_compute; reflexivity).
  assert (Hfiles : [["tmp"; "a.txt"]] <> ([] : list path)) by discriminate.
  specialize (H [["tmp"; "a.txt"]] 1 1 _ _ eq_refl Hfiles Hrun).
  discriminate H.
Qed.

(** C7 as amended on the same run: one candidate file and one error of
    the backup stage, two counted. *)
Lemma counts_cover_candidates_and_backup_errors_witness :
  exists b_errors moved errors,
    moved + errors = 1 + b_errors.
Proof.
  assert (Hfiles : [["tmp"; "a.txt"]] <> ([] : list path)) by discriminate.
  destruct (counts_cover_candidates_and_backup_errors Fixtures.env
              Fixtures.move_options Fixtures.fs_locked Fixtures.fs_locked
              [["tmp"; "a.txt"]] eq_refl Hfiles)
    as (be & bl & fsb & moved & errors & logs & fs' & _ & _ & Hsum & _).
  exists be, moved, errors. exact Hsum.
Defined.

(** C8 on an empty [/tmp]. *)
Lemma sort_files_nothing_to_do_witness :
  sort_files Fixtures.env Fixtures.move_options Fixtures.fs_empty
  = (Return (0, 0, ["No files found."]), Fixtures.fs_empty).
Proof.
  exact (sort_files_nothing_to_do Fixtures.env Fixtures.move_options
           Fixtures.fs_empty eq_refl).
Defined.

(** C9 on [/tmp] with two files: after the move of both a second run finds
    nothing. *)
Lemma second_run_finds_nothing_witness :
  exists fs',
    sort_files Fixtures.env Fixtures.move_options Fixtures.fs_two
    = (Return (2, 0, ["Moved: a.txt -> 2023/01/"; "Moved: b.txt -> 2023/01/"]),
       fs') /\
    sort_files Fixtures.env Fixtures.move_options fs'
    = (Return (0, 0, ["No files found."]), fs').
Proof.
  pose (run := sort_files Fixtures.env Fixtures.move_options Fixtures.fs_two).
  assert (Hrun : sort_files Fixtures.env Fixtures.move_options Fixtures.fs_two
                 = (Return (2, 0, ["Moved: a.txt -> 2023/01/";
                                   "Moved: b.txt -> 2023/01/"]), snd run))
    by (vm_compute; reflexivity).
  exists (snd run). split; [exact Hrun|].
  exact (second_run_finds_nothing Fixtures.env Fixtures.env
           Fixtures.move_options Fixtures.move_options Fixtures.fs_two
           (snd run) 2 _ eq_refl eq_refl Hrun eq_refl eq_refl).
Defined.

(** C10 on [/tmp] with a file that cannot be read, copy mode:
    [/tmp/2023/01] did not exist, the copy fails, and the directory is
    there afterwards and when the run returns. *)
Lemma destination_directory_outlives_failed_transfer_witness :
  FS.is_dir Fixtures.fs_locked ["tmp"; "2023"; "01"] = false /\
  exists fs2 t fs3,
    relocate_one Fixtures.env Fixtures.copy_options ["tmp"; "a.txt"]
      Fixtures.fs_locked
    = (Raise (eacces ["tmp"; "a.txt"]), fs2) /\
    FS.is_dir fs2 ["tmp"; "2023"; "01"] = true /\
    sort_files Fixtures.env Fixtures.copy_options Fixtures.fs_locked
    = (Return t, fs3) /\
    FS.is_dir fs3 ["tmp"; "2023"; "01"] = true.
Proof.
  split; [reflexivity|].
  pose (made := Pathlib.mkdir_p Fixtures.env ["tmp"; "2023"; "01"]
                  Fixtures.fs_locked).
  pose (all := sort_files Fixtures.env Fixtures.copy_options
                 Fixtures.fs_locked).
  assert (Hmk : Pathlib.mkdir_p Fixtures.env
                  (base_dir Fixtures.copy_options
                     // year_str (mk_datetime 2023 1)
                     // month_str (mk_datetime 2023 1))
                  Fixtures.fs_locked
                = (Return tt, snd made))
    by (vm_compute; reflexivity).
  assert (Htr : transfer Fixtures.env Fixtures.copy_options
                  (mk_datetime 2023 1) ["tmp"; "a.txt"]
                  (unique_destination_path (snd made)
                     (base_dir Fixtures.copy_options
                        // year_str (mk_datetime 2023 1)
                        // month_str (mk_datetime 2023 1)
                        // PurePath.name ["tmp"; "a.txt"]))
                  (snd made)
                = (Raise (eacces ["tmp"; "a.txt"]), snd made))
    by (vm_compute; reflexivity).
  assert (Hall : sort_files Fixtures.env Fixtures.copy_options
                   Fixtures.fs_locked
                 = (Return (0, 1, [error_line ["tmp"; "a.txt"]
                                     (eacces ["tmp"; "a.txt"])]), snd all))
    by (vm_compute; reflexivity).
  destruct (destination_directory_outlives_failed_transfer Fixtures.env
              Fixtures.copy_options Fixtures.fs_locked Fixtures.fs_locked
              Fixtures.fs_locked (snd made) (snd made) [] []
              ["tmp"; "a.txt"] (0, []) 0 0 [] Fixtures.m_locked
              (mk_datetime 2023 1) (eacces ["tmp"; "a.txt"])
              eq_refl eq_refl eq_refl eq_refl eq_refl Hmk Htr)
    as (_ & _ & _ & Hdir & _ & _ & Hone & _ & Hend).
  exists (snd made), (0, 1, [error_line ["tmp"; "a.txt"]
                               (eacces ["tmp"; "a.txt"])]), (snd all).
  split; [exact Hone|]. split; [exact Hdir|]. split; [exact Hall|].
  exact (Hend fs_locked_wf _ _ Hall).
Defined.

(* ================================================================= *)
(** ** The further properties on the example filesystems *)

Lemma fs_two_wf : wf Fixtures.fs_two.
Proof. solve_wf. Qed.


(** X2 on the same scan: [a.txt] lies at [a.txt] below [/tmp]. *)
Lemma scanned_paths_are_below_base_witness :
  exists rel,
    PurePath.relative_to ["tmp"; "a.txt"] ["tmp"] = Some rel /\ rel <> [].
Proof.
  destruct (scanned_paths_are_below_base ["tmp"] false Fixtures.fs_two
              Fixtures.fs_two [["tmp"; "a.txt"]; ["tmp"; "b.txt"]] eq_refl)
    as [_ H].
  destruct (H ["tmp"; "a.txt"] (or_introl eq_refl)) as (rel & Hr & Hne & _).
  exists rel. split; assumption.
Defined.



(** X5 on [/d/a.txt]: the result keeps the suffix [.txt]. *)
Lemma unique_destination_keeps_extension_witness :
  PurePath.suffix (unique_destination_path Fixtures.fs_clash ["d"; "a.txt"])
  = ".txt".
Proof.
  destruct (unique_destination_keeps_extension Fixtures.fs_clash
              ["d"; "a.txt"]) as [H _].
  assert (Hs : PurePath.suffix ["d"; "a.txt"] <> EmptyString)
    by (vm_compute; discriminate).
  exact (proj1 (H Hs)).
Defined.

(** X6 on [/d] with [a.txt] and [a (1).txt]: [a (2).txt] is returned, and
    once it is taken a later candidate is. *)
Lemma unique_destination_after_use_witness :
  exists i j,
    i < j /\
    unique_destination_path Fixtures.fs_clash ["d"; "a.txt"]
    = candidate ["d"; "a.txt"] i /\
    unique_destination_path
      (FS.set_at (unique_destination_path Fixtures.fs_clash ["d"; "a.txt"])
         (Some (File Fixtures.m_jan "z")) Fixtures.fs_clash)
      ["d"; "a.txt"]
    = candidate ["d"; "a.txt"] j.
Proof.
  assert (Hne : ["d"; "a.txt"] <> ([] : path)) by discriminate.
  destruct (unique_destination_after_use Fixtures.fs_clash ["d"; "a.txt"]
              (File Fixtures.m_jan "z") eq_refl Hne)
    as (i & j & _ & Hij & Hi & Hj & _).
  exists i, j. repeat split; assumption.
Defined.


(** X8 on [/tmp] with two files: after the run that moves them the backup
    folder holds [a.txt] as it was. *)
Lemma originals_survive_in_backup_witness :
  exists moved errors logs fs3,
    sort_files Fixtures.env Fixtures.move_options Fixtures.fs_two
    = (Return (moved, errors, logs), fs3) /\
    (FS.lookup fs3 ["tmp"; "FolderChronicle Backup 2024-05-06 07-08-09";
                    "a.txt"]
     = Some (File (Shutil.copied_meta Fixtures.env Fixtures.m_jan) "a")
     \/ exists e, In (backup_error_line ["tmp"; "a.txt"] e) logs).
Proof.
  destruct (originals_survive_in_backup Fixtures.env Fixtures.move_options
              Fixtures.fs_two [["tmp"; "a.txt"]; ["tmp"; "b.txt"]]
              fs_two_wf eq_refl eq_refl eq_refl)
    as (moved & errors & logs & fs3 & Hs & Hall).
  exists moved, errors, logs, fs3. split; [exact Hs|].
  exact (Hall ["tmp"; "a.txt"] Fixtures.m_jan "a" ["a.txt"]
           (or_introl eq_refl) eq_refl eq_refl).
Defined.

(** X11 on [/tmp] with two files, copy mode: two files, two lines. *)
Lemma log_has_a_line_per_file_witness :
  exists run_logs moved errors fs',
    sort_files Fixtures.env Fixtures.copy_options Fixtures.fs_two
    = (Return (moved, errors, run_logs), fs') /\
    List.length run_logs = 2.
Proof.
  assert (Hne : [["tmp"; "a.txt"]; ["tmp"; "b.txt"]] <> ([] : list path))
    by discriminate.
  destruct (log_has_a_line_per_file Fixtures.env Fixtures.copy_options
              Fixtures.fs_two Fixtures.fs_two
              [["tmp"; "a.txt"]; ["tmp"; "b.txt"]] eq_refl Hne)
    as (b_logs & run_logs & moved & errors & fs' & Hs & _ & Hc & Hall & _).
  rewrite (Hc eq_refl) in Hs.
  exists run_logs, moved, errors, fs'. split; [exact Hs|].
  apply Forall2_length in Hall. now rewrite <- Hall.
Defined.

(** X9 on the same run: [a.txt] is where it was, as it was. *)
Lemma copy_run_keeps_what_exists_witness :
  FS.lookup
    (snd (sort_files Fixtures.env Fixtures.copy_options Fixtures.fs_two))
    ["tmp"; "a.txt"]
  = Some (File Fixtures.m_jan "a").
Proof.
  destruct (copy_run_keeps_what_exists Fixtures.env Fixtures.copy_options
              Fixtures.fs_two
              (snd (sort_files Fixtures.env Fixtures.copy_options
                      Fixtures.fs_two))
              (fst (sort_files Fixtures.env Fixtures.copy_options
                      Fixtures.fs_two))
              eq_refl (surjective_pairing _))
    as [Hf _].
  exact (Hf ["tmp"; "a.txt"] Fixtures.m_jan "a" eq_refl).
Defined.



(** X18 on [/tmp] with two files, copy mode: the worker returns, and
    [sort_files] gives it its counts. *)
Lemma worker_reports_the_run_witness :
  exists moved errors logs fs',
    sort_files Fixtures.env (mk_options ["tmp"] false false true)
      Fixtures.fs_two
    = (Return (moved, errors, logs), fs') /\
    fst (fst (_worker_sort Fixtures.env ["tmp"] false false true []
                Fixtures.fs_two))
    = Return tt.
Proof.
  assert (Hne : [["tmp"; "a.txt"]; ["tmp"; "b.txt"]] <> ([] : list path))
    by discriminate.
  destruct (worker_reports_the_run Fixtures.env ["tmp"] false false true
              Fixtures.fs_two [["tmp"; "a.txt"]; ["tmp"; "b.txt"]]
              eq_refl Hne)
    as (moved & errors & logs & fs' & Hs & Hw & _).
  exists moved, errors, logs, fs'. split; [exact Hs|].
  now rewrite Hw.
Defined.



Lemma fs_tree_wf : wf Fixtures.fs_tree.
Proof. solve_wf. Qed.

(** X14 on [/b], sorted with its subfolders in move mode: the recursive
    scan after the run returns nothing the scan before it did not. *)
Lemma run_leaves_no_new_candidates_witness :
  exists files1,
    gather_files ["b"] true Fixtures.fs_tree
    = (Return files1, Fixtures.fs_tree) /\
    incl
      (filter
         (FS.is_file
            (snd (sort_files Fixtures.env (mk_options ["b"] true false false)
                    Fixtures.fs_tree)))
         (gathered ["b"]
            (snd (sort_files Fixtures.env (mk_options ["b"] true false false)
                    Fixtures.fs_tree))))
      files1.
Proof.
  exact (run_leaves_no_new_candidates Fixtures.env
           (mk_options ["b"] true false false) Fixtures.fs_tree _ _ true _
           fs_tree_wf (surjective_pairing _)
           (gather_files_recursive_eq _ _)).
Defined.

(** X15 on [/b] with its subfolders: after the move of the three files a
    second recursive run finds nothing. *)
Lemma second_deep_run_finds_nothing_witness :
  exists fs',
    sort_files Fixtures.env (mk_options ["b"] true false false)
      Fixtures.fs_tree
    = (Return (3, 0, ["Moved: f.txt -> 2023/01/"; "Moved: y.txt -> 2023/01/";
                      "Moved: s.txt -> 2023/01/"]), fs') /\
    sort_files Fixtures.env (mk_options ["b"] true true true) fs'
    = (Return (0, 0, ["No files found."]), fs').
Proof.
  pose (run := sort_files Fixtures.env (mk_options ["b"] true false false)
                 Fixtures.fs_tree).
  assert (Hrun : sort_files Fixtures.env (mk_options ["b"] true false false)
                   Fixtures.fs_tree
                 = (Return (3, 0, ["Moved: f.txt -> 2023/01/";
                                   "Moved: y.txt -> 2023/01/";
                                   "Moved: s.txt -> 2023/01/"]), snd run))
    by (vm_compute; reflexivity).
  exists (snd run). split; [exact Hrun|].
  exact (second_deep_run_finds_nothing Fixtures.env Fixtures.env
           (mk_options ["b"] true false false)
           (mk_options ["b"] true true true) Fixtures.fs_tree
           (snd run) 3 _ fs_tree_wf eq_refl eq_refl Hrun eq_refl eq_refl).
Defined.

(** X16 on [/b], sorted with its subfolders in move mode: the file that
    already lies under [2020/01] is not selected and stays as it is. *)
Lemma run_leaves_other_files_alone_witness :
  FS.lookup
    (snd (sort_files Fixtures.env (mk_options ["b"] true false false)
            Fixtures.fs_tree))
    ["b"; "2020"; "01"; "already.txt"]
  = Some (File Fixtures.m_jan "x").
Proof.
  refine (proj2 (run_leaves_other_files_alone Fixtures.env
                   (mk_options ["b"] true false false) Fixtures.fs_tree _ _
                   [["b"; "f.txt"]; ["b"; "2020"; "y.txt"];
                    ["b"; "sub"; "s.txt"]]
                   fs_tree_wf eq_refl (surjective_pairing _))
            ["b"; "2020"; "01"; "already.txt"] Fixtures.m_jan "x" eq_refl _
            eq_refl).
  simpl. intuition discriminate.
Defined.
